(** * rtc-file-share: signalling hub, negotiation and file transfer

    A shallow embedding of the four programs of the repository:

    - the signalling server ([Hub], the WebSocket relay);
    - the copy-and-paste application ([Manual], chunked transfer over one
      data channel);
    - the PeerJS hook ([PeerJS], [usePeerJS.ts]);
    - the relay-signalled hook ([WebRTC], [useWebRTC] in [App.tsx]).

    Every event handler of the source is a function from the state it
    closes over to the new state and the list of calls it makes on the
    outside world (sockets, data channels, the transport).  [console.log]
    and friends are not modelled.  An [async] handler is cut at each
    [await]: the part before it is one function, the part after it is a
    continuation that is resumed with the outcome of the awaited
    operation. *)

From Stdlib Require Import ZArith String Ascii List Lia Bool DecimalString.
From stdpp Require Import base list strings.
Import ListNotations.
Local Open Scope string_scope.
Local Open Scope list_scope.

(** ** JSON values

    What [JSON.parse] returns and [JSON.stringify] takes.  Numbers are the
    integers only; an object is the list of its own properties in insertion
    order.  A property that is absent reads as [None] ([undefined]). *)

#[warnings="-register-all"]
Inductive json : Type :=
| JNull : json
| JBool : bool -> json
| JNum : Z -> json
| JStr : string -> json
| JArr : list json -> json
| JObj : list (string * json) -> json.

(** ** Insertion-ordered maps

    A JavaScript [Map] with string keys (and the own properties of an
    object): iteration follows insertion order, [set] on a present key
    replaces the value in place, [delete] removes the key. *)

Module JSMap.

Definition t (V : Type) : Type := list (string * V).

Definition empty {V : Type} : t V := [].

Fixpoint get {V : Type} (k : string) (m : t V) : option V :=
  match m with
  | [] => None
  | (k', v) :: m' => if String.eqb k k' then Some v else get k m'
  end.

Definition has {V : Type} (k : string) (m : t V) : bool :=
  match get k m with Some _ => true | None => false end.

Fixpoint set {V : Type} (k : string) (v : V) (m : t V) : t V :=
  match m with
  | [] => [(k, v)]
  | (k', v') :: m' =>
      if String.eqb k k' then (k, v) :: m' else (k', v') :: set k v m'
  end.

Fixpoint delete {V : Type} (k : string) (m : t V) : t V :=
  match m with
  | [] => []
  | (k', v') :: m' =>
      if String.eqb k k' then delete k m' else (k', v') :: delete k m'
  end.

Definition keys {V : Type} (m : t V) : list string := map fst m.

Definition entries {V : Type} (m : t V) : list (string * V) := m.

Definition size {V : Type} (m : t V) : nat := length m.

End JSMap.

(** ** JavaScript conversions used by the handlers *)

Module JS.

(** [v.k] on a parsed value: only objects have the properties the handlers
    read. *)
Definition prop (v : json) (k : string) : option json :=
  match v with
  | JObj fields => JSMap.get k fields
  | _ => None
  end.

Definition string_of_Z (n : Z) : string := NilZero.string_of_int (Z.to_int n).

(** [ToString], as a template literal applies it. *)
Fixpoint toString (v : json) : string :=
  match v with
  | JNull => "null"
  | JBool true => "true"
  | JBool false => "false"
  | JNum n => string_of_Z n
  | JStr s => s
  | JArr l =>
      (fix join (l : list json) : string :=
         match l with
         | [] => ""
         | x :: r =>
             let sx := match x with JNull => "" | _ => toString x end in
             match r with
             | [] => sx
             | _ :: _ => sx +:+ "," +:+ join r
             end
         end) l
  | JObj _ => "[object Object]"
  end.

Definition template (v : option json) : string :=
  match v with
  | None => "undefined"
  | Some x => toString x
  end.

(** Truthiness of a property read, as [||] tests it. *)
Definition truthy (v : option json) : bool :=
  match v with
  | None | Some JNull | Some (JBool false) => false
  | Some (JNum n) => negb (Z.eqb n 0)
  | Some (JStr s) => negb (String.eqb s "")
  | Some _ => true
  end.

(** [{ k: v }] where [v] may be [undefined]: [JSON.stringify] leaves such a
    property out. *)
Definition field (k : string) (v : option json) : list (string * json) :=
  match v with
  | Some x => [(k, x)]
  | None => []
  end.

End JS.

(** ** The signalling server *)

Module Hub.

Inductive readyState : Type := CONNECTING | OPEN | CLOSING | CLOSED.

Definition readyState_eqb (a b : readyState) : bool :=
  match a, b with
  | CONNECTING, CONNECTING | OPEN, OPEN | CLOSING, CLOSING | CLOSED, CLOSED => true
  | _, _ => false
  end.

(** A WebSocket object, by identity.  Its [readyState] belongs to the
    socket library: the handlers read it through [rs]. *)
Definition socket : Type := nat.

(** [peers]: peerId -> WebSocket. *)
Definition registry : Type := JSMap.t socket.

(** [target.send(JSON.stringify(payload))]. *)
Inductive effect : Type :=
| Send (target : socket) (payload : json).

(** [generatePeerId]: the clock and the random suffix are inputs. *)
Definition generatePeerId (now : Z) (suffix : string) : string :=
  JS.string_of_Z now +:+ "-" +:+ suffix.

Definition peer_id_msg (peerId : string) : json :=
  JObj [("type", JStr "peer-id"); ("peerId", JStr peerId)].

Definition error_msg (message : string) : json :=
  JObj [("type", JStr "error"); ("message", JStr message)].

Definition peer_list_msg (ids : list string) : json :=
  JObj [("type", JStr "peer-list"); ("peers", JArr (map JStr ids))].

Definition broadcast_msg (peerId : string) (data : option json) : json :=
  JObj ([("type", JStr "broadcast"); ("fromPeerId", JStr peerId)] ++ JS.field "data" data).

Definition peer_disconnected_msg (peerId : string) : json :=
  JObj [("type", JStr "peer-disconnected"); ("peerId", JStr peerId)].

(** [wss.on('connection')]. *)
Definition on_connection (peerId : string) (ws : socket) (peers : registry)
  : registry * list effect :=
  (JSMap.set peerId ws peers, [Send ws (peer_id_msg peerId)]).

(** [peers.get(data.targetPeerId)]: the keys are strings. *)
Definition lookup_target (target : option json) (peers : registry) : option socket :=
  match target with
  | Some (JStr t) => JSMap.get t peers
  | _ => None
  end.

(** The [offer] / [answer] / [ice-candidate] case of the switch. *)
Definition forward (rs : socket -> readyState) (peerId : string) (ws : socket)
    (fields : list (string * json)) (peers : registry) : list effect :=
  let target := JSMap.get "targetPeerId" fields in
  match lookup_target target peers with
  | Some targetPeer =>
      if readyState_eqb (rs targetPeer) OPEN
      then [Send targetPeer (JObj (JSMap.set "fromPeerId" (JStr peerId) fields))]
      else [Send ws (error_msg ("Peer " +:+ JS.template target +:+ " not available"))]
  | None => [Send ws (error_msg ("Peer " +:+ JS.template target +:+ " not available"))]
  end.

Definition list_peers (peerId : string) (ws : socket) (peers : registry) : list effect :=
  let availablePeers :=
    List.filter (fun id => negb (String.eqb id peerId)) (JSMap.keys peers) in
  [Send ws (peer_list_msg availablePeers)].

Definition broadcast (rs : socket -> readyState) (peerId : string)
    (fields : list (string * json)) (peers : registry) : list effect :=
  flat_map
    (fun '(pId, peerWs) =>
       if negb (String.eqb pId peerId) && readyState_eqb (rs peerWs) OPEN
       then [Send peerWs (broadcast_msg peerId (JSMap.get "data" fields))]
       else [])
    (JSMap.entries peers).

(** [ws.on('message')].  [message] is the outcome of
    [JSON.parse(message.toString())]: [None] when it throws.  Reading
    [data.type] on [null] throws too, into the same [catch]. *)
Definition on_message (rs : socket -> readyState) (peerId : string) (ws : socket)
    (message : option json) (peers : registry) : registry * list effect :=
  match message with
  | None => (peers, [Send ws (error_msg "Invalid message format")])
  | Some JNull => (peers, [Send ws (error_msg "Invalid message format")])
  | Some (JObj fields) =>
      match JSMap.get "type" fields with
      | Some (JStr ty) =>
          if String.eqb ty "offer" || String.eqb ty "answer" || String.eqb ty "ice-candidate"
          then (peers, forward rs peerId ws fields peers)
          else if String.eqb ty "list-peers" then (peers, list_peers peerId ws peers)
          else if String.eqb ty "broadcast" then (peers, broadcast rs peerId fields peers)
          else (peers, [])
      | _ => (peers, [])
      end
  | Some _ => (peers, [])
  end.

(** The [peers.forEach] of the close handler. *)
Definition notices (rs : socket -> readyState) (peerId : string) (peers : registry)
  : list effect :=
  flat_map
    (fun '(_, peerWs) =>
       if readyState_eqb (rs peerWs) OPEN
       then [Send peerWs (peer_disconnected_msg peerId)]
       else [])
    (JSMap.entries peers).

(** [ws.on('close')]. *)
Definition on_close (rs : socket -> readyState) (peerId : string) (peers : registry)
  : registry * list effect :=
  let peers' := JSMap.delete peerId peers in
  (peers', notices rs peerId peers').

(** What the sockets of the registry look like: one entry per identifier,
    one identifier per socket. *)
Definition wf (peers : registry) : Prop :=
  NoDup (JSMap.keys peers) /\ NoDup (map snd peers).

Definition sent_to (w : socket) (es : list effect) : list json :=
  flat_map (fun '(Send w' p) => if Nat.eqb w' w then [p] else []) es.

(** Three endpoints: the socket of [carol] is closing. *)
Definition three_peers : registry := [("alice", 0); ("bob", 1); ("carol", 2)].

Definition carol_closing (w : socket) : readyState :=
  match w with
  | 2 => CLOSING
  | _ => OPEN
  end.

Definition offer_to (target : string) : list (string * json) :=
  [("type", JStr "offer"); ("targetPeerId", JStr target);
   ("offer", JObj [("type", JStr "offer"); ("sdp", JStr "v=0")])].

End Hub.

(** ** The copy-and-paste application: chunked transfer over one channel *)

Module Manual.

Local Open Scope Z_scope.

Definition CHUNK_SIZE : Z := 16384.

Definition byteLength (b : list Byte.byte) : Z := Z.of_nat (length b).

(** A [File]: its name and its bytes. *)
Record File : Type := { name : string; bytes : list Byte.byte }.

Definition file_size (f : File) : Z := byteLength (bytes f).

(** [Blob.slice(start, end)]: negative positions count from the end, both
    are clamped to the blob. *)
Definition slice (b : list Byte.byte) (start end_ : Z) : list Byte.byte :=
  let sz := byteLength b in
  let clamp x := if x <? 0 then Z.max (sz + x) 0 else Z.min x sz in
  let s := clamp start in
  let span := Z.max (clamp end_ - s) 0 in
  firstn (Z.to_nat span) (skipn (Z.to_nat s) b).

(** What travels on the data channel.  A string is given by what
    [JSON.parse] makes of it ([None]: it throws); a binary frame reaches
    the other side as an [ArrayBuffer] or as a [Blob], by the channel's
    [binaryType]. *)
Inductive data : Type :=
| Text (parsed : option json)
| ArrayBuffer (b : list Byte.byte)
| Blob (b : list Byte.byte).

Inductive binaryType : Type := arraybuffer | blob.

Definition deliver (bt : binaryType) (d : data) : data :=
  match d, bt with
  | ArrayBuffer b, blob => Blob b
  | Blob b, arraybuffer => ArrayBuffer b
  | _, _ => d
  end.

Inductive channelState : Type := ch_connecting | ch_open | ch_closing | ch_closed.

Inductive effect : Type :=
| Send (d : data)            (* channel.send *)
| Alert (text : string).

(** The [FileTransfer] shown while a transfer runs.  [received] is a
    JavaScript number: [None] is NaN.  [progress] is the float
    [received / size * 100] and is left out. *)
Record FileTransfer : Type := {
  ft_name : option json;
  ft_size : option json;
  received : option Z
}.

Record state : Type := {
  selectedFile : option File;
  dataChannel : option channelState;    (* dataChannel.current?.readyState *)
  fileTransfer : option FileTransfer;
  receivedFile : option (option json * list Byte.byte);   (* name, blob *)
  receivedBuffer : list (list Byte.byte)
}.

Definition set_fileTransfer (ft : option FileTransfer) (st : state) : state :=
  {| selectedFile := selectedFile st; dataChannel := dataChannel st;
     fileTransfer := ft; receivedFile := receivedFile st;
     receivedBuffer := receivedBuffer st |}.

Definition set_receivedBuffer (buf : list (list Byte.byte)) (st : state) : state :=
  {| selectedFile := selectedFile st; dataChannel := dataChannel st;
     fileTransfer := fileTransfer st; receivedFile := receivedFile st;
     receivedBuffer := buf |}.

Definition set_receivedFile (rf : option (option json * list Byte.byte)) (st : state) : state :=
  {| selectedFile := selectedFile st; dataChannel := dataChannel st;
     fileTransfer := fileTransfer st; receivedFile := rf;
     receivedBuffer := receivedBuffer st |}.

Definition set_selectedFile (f : option File) (st : state) : state :=
  {| selectedFile := f; dataChannel := dataChannel st;
     fileTransfer := fileTransfer st; receivedFile := receivedFile st;
     receivedBuffer := receivedBuffer st |}.

Definition file_meta (f : File) : json :=
  JObj [("type", JStr "file-meta"); ("name", JStr (name f)); ("size", JNum (file_size f))].

Definition file_end (f : File) : json :=
  JObj [("type", JStr "file-end"); ("name", JStr (name f))].

Definition is_type (message : json) (ty : string) : bool :=
  match JS.prop message "type" with
  | Some (JStr s) => String.eqb s ty
  | _ => false
  end.

(** [channel.onmessage]. *)
Definition onmessage (d : data) (st : state) : state :=
  match d with
  | Text None => st                       (* JSON.parse throws *)
  | Text (Some JNull) => st               (* message.type on null throws *)
  | Text (Some message) =>
      if is_type message "file-meta" then
        set_fileTransfer
          (Some {| ft_name := JS.prop message "name";
                   ft_size := JS.prop message "size";
                   received := Some 0 |})
          (set_receivedBuffer [] st)
      else if is_type message "file-end" then
        set_receivedBuffer []
          (set_fileTransfer None
             (set_receivedFile
                (Some (JS.prop message "name", concat (receivedBuffer st))) st))
      else st
  | ArrayBuffer b =>
      set_fileTransfer
        (match fileTransfer st with
         | None => None
         | Some prev =>
             Some {| ft_name := ft_name prev; ft_size := ft_size prev;
                     received := option_map (fun r => r + byteLength b) (received prev) |}
         end)
        (set_receivedBuffer (receivedBuffer st ++ [b]) st)
  | Blob b =>
      (* a Blob has no byteLength: the sum is NaN *)
      set_fileTransfer
        (match fileTransfer st with
         | None => None
         | Some prev =>
             Some {| ft_name := ft_name prev; ft_size := ft_size prev; received := None |}
         end)
        (set_receivedBuffer (receivedBuffer st ++ [b]) st)
  end.

(** The closure of [reader.onload]: the file being sent and [offset]. *)
Record upload : Type := { up_file : File; offset : Z }.

(** [readSlice]: the bytes the reader is asked for. *)
Definition readSlice (u : upload) : list Byte.byte :=
  slice (bytes (up_file u)) (offset u) (offset u + CHUNK_SIZE).

(** [sendFile] up to its first [readSlice()]: the new state, the calls
    made, and the read that is now pending. *)
Definition sendFile (st : state) : state * list effect * option upload :=
  match selectedFile st, dataChannel st with
  | Some file, Some ch_open =>
      (set_fileTransfer
         (Some {| ft_name := Some (JStr (name file));
                  ft_size := Some (JNum (file_size file));
                  received := Some 0 |}) st,
       [Send (Text (Some (file_meta file)))],
       Some {| up_file := file; offset := 0 |})
  | _, _ =>
      (st, [Alert "Please select a file and ensure the connection is established"], None)
  end.

(** [reader.onload] with the slice read.  [channel.send] throws on a
    channel that is no longer open, which ends the handler there. *)
Definition onload (result : list Byte.byte) (u : upload) (st : state)
  : state * list effect * option upload :=
  match dataChannel st with
  | Some ch_open =>
      let file := up_file u in
      let offset' := offset u + byteLength result in
      let st1 :=
        set_fileTransfer
          (match fileTransfer st with
           | None => None
           | Some prev =>
               Some {| ft_name := ft_name prev; ft_size := ft_size prev;
                       received := Some offset' |}
           end) st in
      if offset' <? file_size file
      then (st1, [Send (ArrayBuffer result)], Some {| up_file := file; offset := offset' |})
      else (set_selectedFile None (set_fileTransfer None st1),
            [Send (ArrayBuffer result); Send (Text (Some (file_end file)))],
            None)
  | _ => (st, [], None)
  end.

(** The reads complete one after the other, each delivering the slice
    asked for, until no read is pending. *)
Fixpoint reader_loop (fuel : nat) (u : upload) (st : state)
  : option (state * list effect) :=
  match fuel with
  | O => None
  | S fuel' =>
      let '(st', out, next) := onload (readSlice u) u st in
      match next with
      | None => Some (st', out)
      | Some u' =>
          match reader_loop fuel' u' st' with
          | Some (st'', out') => Some (st'', out ++ out')
          | None => None
          end
      end
  end.

(** A whole [sendFile]: one read per byte of the file is fuel enough. *)
Definition transfer (st : state) : option (state * list effect) :=
  let '(st', out, next) := sendFile st in
  match next with
  | None => Some (st', out)
  | Some u =>
      match reader_loop (S (Z.to_nat (file_size (up_file u)))) u st' with
      | Some (st'', out') => Some (st'', out ++ out')
      | None => None
      end
  end.

(** The frames the other side gets, in order. *)
Definition sent (es : list effect) : list data :=
  flat_map (fun e => match e with Send d => [d] | Alert _ => [] end) es.

Definition receive (bt : binaryType) (ds : list data) (st : state) : state :=
  fold_left (fun s d => onmessage (deliver bt d) s) ds st.

(** Ceiling of [a / b]. *)
Definition ceil_div (a b : Z) : Z := (a + b - 1) / b.

(** A state that is ready to send [f]. *)
Definition ready (f : File) : state :=
  {| selectedFile := Some f; dataChannel := Some ch_open; fileTransfer := None;
     receivedFile := None; receivedBuffer := [] |}.

Definition idle : state :=
  {| selectedFile := None; dataChannel := Some ch_open; fileTransfer := None;
     receivedFile := None; receivedBuffer := [] |}.

Definition report_pdf : File :=
  {| name := "report.pdf"; bytes := repeat Byte.x25 (Z.to_nat 40000) |}.

Definition note_txt : File :=
  {| name := "note.txt"; bytes := [Byte.x68; Byte.x69; Byte.x0a] |}.

(** The sizes of the binary frames among [ds]. *)
Definition frame_sizes (ds : list data) : list Z :=
  flat_map (fun d => match d with
                     | ArrayBuffer b | Blob b => [byteLength b]
                     | Text _ => []
                     end) ds.

End Manual.

(** ** The PeerJS hook: connection bookkeeping *)

Module PeerJS.

Inductive ConnectionStatus : Type := disconnected | connecting | connected | error.

(** A [DataConnection], by identity, and the identifier of its remote
    end ([conn.peer]). *)
Record DataConnection : Type := { conn : nat; peer : string }.

Inductive effect : Type :=
| Connect (c : DataConnection)     (* peerRef.current.connect(remotePeerId) returned c *)
| Close (c : DataConnection).      (* c.close() *)

Record state : Type := {
  id : string;                              (* const id = generatePeerId() *)
  peerId : option string;
  peerRef : bool;                           (* peerRef.current is set *)
  connections : list string;
  status : ConnectionStatus;
  connectionsRef : JSMap.t DataConnection;
  handled : list DataConnection             (* given to handleConnection: their events are served *)
}.

Definition initial (id0 : string) : state :=
  {| id := id0; peerId := None; peerRef := false; connections := [];
     status := disconnected; connectionsRef := JSMap.empty; handled := [] |}.

Definition set_status (s : ConnectionStatus) (st : state) : state :=
  {| id := id st; peerId := peerId st; peerRef := peerRef st;
     connections := connections st; status := s;
     connectionsRef := connectionsRef st; handled := handled st |}.

Definition set_connections (l : list string) (st : state) : state :=
  {| id := id st; peerId := peerId st; peerRef := peerRef st;
     connections := l; status := status st;
     connectionsRef := connectionsRef st; handled := handled st |}.

Definition set_connectionsRef (m : JSMap.t DataConnection) (st : state) : state :=
  {| id := id st; peerId := peerId st; peerRef := peerRef st;
     connections := connections st; status := status st;
     connectionsRef := m; handled := handled st |}.

(** [newPeer.on('open')]. *)
Definition on_open (id' : string) (st : state) : state :=
  {| id := id st; peerId := Some id'; peerRef := true;
     connections := connections st; status := disconnected;
     connectionsRef := connectionsRef st; handled := handled st |}.

(** [handleConnection]: the handlers of [c] are installed. *)
Definition handleConnection (c : DataConnection) (st : state) : state :=
  {| id := id st; peerId := peerId st; peerRef := peerRef st;
     connections := connections st; status := status st;
     connectionsRef := connectionsRef st; handled := c :: handled st |}.

Definition updateConnectionsList (st : state) : state :=
  set_connections (JSMap.keys (connectionsRef st)) st.

(** [newPeer.on('connection')]: [id < conn.peer] compares the strings,
    character by character (the identifiers are ASCII). *)
Definition on_connection (c : DataConnection) (st : state) : state * list effect :=
  match JSMap.get (peer c) (connectionsRef st) with
  | Some existingConn =>
      if String.ltb (id st) (peer c)
      then (st, [Close c])
      else (handleConnection c
              (set_connectionsRef (JSMap.delete (peer c) (connectionsRef st)) st),
            [Close existingConn])
  | None => (handleConnection c st, [])
  end.

(** [conn.on('open')]. *)
Definition conn_open (c : DataConnection) (st : state) : state :=
  set_status connected
    (updateConnectionsList
       (set_connectionsRef (JSMap.set (peer c) c (connectionsRef st)) st)).

(** [conn.on('close')]. *)
Definition conn_close (c : DataConnection) (st : state) : state :=
  let st1 :=
    updateConnectionsList
      (set_connectionsRef (JSMap.delete (peer c) (connectionsRef st)) st) in
  if Nat.eqb (JSMap.size (connectionsRef st1)) 0
  then set_status disconnected st1
  else st1.

(** [conn.on('error')]. *)
Definition conn_error (c : DataConnection) (st : state) : state :=
  set_status error st.

(** [connectToPeer]; [fresh] is the identity of the connection that
    [connect] returns. *)
Definition connectToPeer (remotePeerId : string) (fresh : nat) (st : state)
  : state * list effect :=
  if negb (peerRef st) then (st, [])
  else if JSMap.has remotePeerId (connectionsRef st) then (st, [])
  else if match peerId st with
          | Some own => String.eqb remotePeerId own
          | None => false
          end then (st, [])
  else
    let c := {| conn := fresh; peer := remotePeerId |} in
    (handleConnection c (set_status connecting st), [Connect c]).

Definition DataConnection_eqb (a b : DataConnection) : bool :=
  Nat.eqb (conn a) (conn b) && String.eqb (peer a) (peer b).

Definition closes (c : DataConnection) (es : list effect) : bool :=
  existsb (fun e => match e with
                    | Close c' => DataConnection_eqb c c'
                    | Connect _ => false
                    end) es.

Definition serves (c : DataConnection) (st : state) : bool :=
  existsb (DataConnection_eqb c) (handled st).

(** The tie-break as the specification words it, at an endpoint whose own
    attempt [out] is under way when [inc] comes in from the same peer: the
    smaller identifier keeps [out] and discards [inc], the larger one
    discards [out] in favour of [inc]. *)
Definition tie_break (st : state) (out inc : DataConnection) : Prop :=
  let r := on_connection inc st in
  if String.ltb (id st) (peer inc)
  then closes inc (snd r) = true /\ closes out (snd r) = false
       /\ serves out (fst r) = true /\ serves inc (fst r) = false
  else closes out (snd r) = true /\ closes inc (snd r) = false
       /\ serves inc (fst r) = true.

(** An endpoint that has just called [connectToPeer]: its attempt is
    connection [0] and is not open yet. *)
Definition dialing (own remote : string) : state :=
  fst (connectToPeer remote 0 (on_open own (initial own))).

(** An endpoint whose connection [0] to [remote] has opened. *)
Definition linked (own remote : string) : state :=
  conn_open {| conn := 0; peer := remote |} (dialing own remote).

End PeerJS.

(** ** The relay-signalled hook ([useWebRTC]) *)

Module WebRTC.

Inductive ConnectionStatus : Type := disconnected | connecting | connected | error.

(** [WebSocket.readyState]. *)
Inductive readyState : Type := CONNECTING | OPEN | CLOSING | CLOSED.

(** [RTCDataChannel.readyState]. *)
Inductive channelState : Type := ch_connecting | ch_open | ch_closing | ch_closed.

(** [RTCPeerConnection.iceConnectionState] and [connectionState]. *)
Inductive iceConnectionState : Type :=
| ice_new | ice_checking | ice_connected | ice_completed
| ice_failed | ice_disconnected | ice_closed.

Inductive connectionState : Type :=
| pc_new | pc_connecting | pc_connected | pc_disconnected | pc_failed | pc_closed.

(** A [File]: name, MIME type and bytes. *)
Record File : Type := { name : string; type : string; bytes : list Byte.byte }.

Definition file_size (f : File) : Z := Z.of_nat (length (bytes f)).

Record ReceivedFile : Type := {
  rf_name : json;
  rf_size : Z;
  rf_timestamp : Z
}.

(** What a data channel carries: a string (given by what [JSON.parse]
    makes of it, [None] when it throws), a [Blob], an [ArrayBuffer], or
    anything else. *)
Inductive data : Type :=
| DString (parsed : option json)
| DBlob (b : list Byte.byte)
| DArrayBuffer (b : list Byte.byte)
| DOther.

(** The signalling messages, as the hub sends them.  A payload that the
    sender left out is [None]. *)
Inductive signal : Type :=
| SigPeerId (peerId : string)
| SigOffer (fromPeerId : string) (offer : option json)
| SigAnswer (fromPeerId : string) (answer : option json)
| SigIceCandidate (fromPeerId : string) (candidate : option json)
| SigPeerDisconnected (peerId : string)
| SigError (message : option json)
| SigOther.

(** A [PeerConnection] object, with what the handlers read of its
    [RTCPeerConnection]: the two descriptions, set by the transport when
    the matching call resolves. *)
Record PeerConnection : Type := {
  remotePeerId : string;             (* closed over by its handlers *)
  isInitiator : bool;
  remoteDescription : option (option json);
  localDescription : option (option json);
  dataChannel : option nat;
  pendingIceCandidates : list (option json)
}.

(** An [RTCDataChannel] object and the [PeerConnection] its handlers
    close over. *)
Record DataChannel : Type := { owner : nat; ch_readyState : channelState }.

(** The calls made on the outside world.  [queued] tells an
    [addIceCandidate] of a flush loop from the one of the
    [ice-candidate] case. *)
Inductive effect : Type :=
| WsSend (payload : json)
| WsCloseCall
| CreateOffer (pc : nat)
| CreateAnswer (pc : nat)
| SetLocalDescription (pc : nat) (d : option json)
| SetRemoteDescription (pc : nat) (d : option json)
| AddIceCandidate (pc : nat) (candidate : option json) (queued : bool)
| ClosePeer (pc : nat)
| CloseChannel (ch : nat)
| ChannelSend (ch : nat) (d : data)
| DownloadFile (blob : list Byte.byte) (filename : json).

(** Which handler a flush loop belongs to. *)
Inductive flush_kind : Type :=
| InOffer (fromPeerId : string)
| InAnswer.

(** A suspended [async] handler: where it waits and what it closes over.
    A [for ... of] loop keeps what is left of the array it iterates: the
    array is not written while the loop runs, since a queue grows only
    while its connection has no remote description and the loop comes
    after it is set (lemmas [remoteDescription_stays] and
    [queue_grows_without_description]). *)
Inductive task : Type :=
| AwaitSetRemoteDescription (k : flush_kind) (pc : nat) (d : option json)
| AwaitAddIceCandidate (k : flush_kind) (pc : nat) (rest : list (option json))
| AwaitCreateAnswer (pc : nat) (fromPeerId : string)
| AwaitSetLocalAnswer (pc : nat) (fromPeerId : string) (answer : option json)
| AwaitCreateOffer (pc : nat) (remotePeerId : string)
| AwaitSetLocalOffer (pc : nat) (remotePeerId : string) (offer : option json)
| AwaitArrayBuffer (pc : nat) (buffer : list Byte.byte).

(** How an awaited promise settles. *)
Inductive outcome : Type :=
| Resolved (value : option json)
| Rejected.

Record state : Type := {
  peerId : option string;
  connections : list string;
  status : ConnectionStatus;
  receivedFiles : list ReceivedFile;
  wsRef : option readyState;                (* wsRef.current?.readyState *)
  peerConnectionsRef : JSMap.t nat;
  isInitialized : bool;
  fileMetadataRef : JSMap.t json;
  pcs : list PeerConnection;                (* the PeerConnection objects *)
  channels : list DataChannel;              (* the RTCDataChannel objects *)
  tasks : list (option task)                (* the suspended handlers *)
}.

Definition initial : state :=
  {| peerId := None; connections := []; status := disconnected;
     receivedFiles := []; wsRef := None; peerConnectionsRef := JSMap.empty;
     isInitialized := false; fileMetadataRef := JSMap.empty;
     pcs := []; channels := []; tasks := [] |}.

Definition set_peerId (x : option string) (st : state) : state :=
  {| peerId := x; connections := connections st; status := status st;
     receivedFiles := receivedFiles st; wsRef := wsRef st;
     peerConnectionsRef := peerConnectionsRef st; isInitialized := isInitialized st;
     fileMetadataRef := fileMetadataRef st; pcs := pcs st;
     channels := channels st; tasks := tasks st |}.

Definition setConnections (x : list string) (st : state) : state :=
  {| peerId := peerId st; connections := x; status := status st;
     receivedFiles := receivedFiles st; wsRef := wsRef st;
     peerConnectionsRef := peerConnectionsRef st; isInitialized := isInitialized st;
     fileMetadataRef := fileMetadataRef st; pcs := pcs st;
     channels := channels st; tasks := tasks st |}.

Definition setStatus (x : ConnectionStatus) (st : state) : state :=
  {| peerId := peerId st; connections := connections st; status := x;
     receivedFiles := receivedFiles st; wsRef := wsRef st;
     peerConnectionsRef := peerConnectionsRef st; isInitialized := isInitialized st;
     fileMetadataRef := fileMetadataRef st; pcs := pcs st;
     channels := channels st; tasks := tasks st |}.

Definition setReceivedFiles (x : list ReceivedFile) (st : state) : state :=
  {| peerId := peerId st; connections := connections st; status := status st;
     receivedFiles := x; wsRef := wsRef st;
     peerConnectionsRef := peerConnectionsRef st; isInitialized := isInitialized st;
     fileMetadataRef := fileMetadataRef st; pcs := pcs st;
     channels := channels st; tasks := tasks st |}.

Definition set_wsRef (x : option readyState) (st : state) : state :=
  {| peerId := peerId st; connections := connections st; status := status st;
     receivedFiles := receivedFiles st; wsRef := x;
     peerConnectionsRef := peerConnectionsRef st; isInitialized := isInitialized st;
     fileMetadataRef := fileMetadataRef st; pcs := pcs st;
     channels := channels st; tasks := tasks st |}.

Definition set_peerConnectionsRef (x : JSMap.t nat) (st : state) : state :=
  {| peerId := peerId st; connections := connections st; status := status st;
     receivedFiles := receivedFiles st; wsRef := wsRef st;
     peerConnectionsRef := x; isInitialized := isInitialized st;
     fileMetadataRef := fileMetadataRef st; pcs := pcs st;
     channels := channels st; tasks := tasks st |}.

Definition set_isInitialized (x : bool) (st : state) : state :=
  {| peerId := peerId st; connections := connections st; status := status st;
     receivedFiles := receivedFiles st; wsRef := wsRef st;
     peerConnectionsRef := peerConnectionsRef st; isInitialized := x;
     fileMetadataRef := fileMetadataRef st; pcs := pcs st;
     channels := channels st; tasks := tasks st |}.

Definition set_fileMetadataRef (x : JSMap.t json) (st : state) : state :=
  {| peerId := peerId st; connections := connections st; status := status st;
     receivedFiles := receivedFiles st; wsRef := wsRef st;
     peerConnectionsRef := peerConnectionsRef st; isInitialized := isInitialized st;
     fileMetadataRef := x; pcs := pcs st;
     channels := channels st; tasks := tasks st |}.

Definition set_pcs (x : list PeerConnection) (st : state) : state :=
  {| peerId := peerId st; connections := connections st; status := status st;
     receivedFiles := receivedFiles st; wsRef := wsRef st;
     peerConnectionsRef := peerConnectionsRef st; isInitialized := isInitialized st;
     fileMetadataRef := fileMetadataRef st; pcs := x;
     channels := channels st; tasks := tasks st |}.

Definition set_channels (x : list DataChannel) (st : state) : state :=
  {| peerId := peerId st; connections := connections st; status := status st;
     receivedFiles := receivedFiles st; wsRef := wsRef st;
     peerConnectionsRef := peerConnectionsRef st; isInitialized := isInitialized st;
     fileMetadataRef := fileMetadataRef st; pcs := pcs st;
     channels := x; tasks := tasks st |}.

Definition set_tasks (x : list (option task)) (st : state) : state :=
  {| peerId := peerId st; connections := connections st; status := status st;
     receivedFiles := receivedFiles st; wsRef := wsRef st;
     peerConnectionsRef := peerConnectionsRef st; isInitialized := isInitialized st;
     fileMetadataRef := fileMetadataRef st; pcs := pcs st;
     channels := channels st; tasks := x |}.

(** Updates of one object. *)
Definition with_remoteDescription (d : option (option json)) (p : PeerConnection)
  : PeerConnection :=
  {| remotePeerId := remotePeerId p; isInitiator := isInitiator p;
     remoteDescription := d; localDescription := localDescription p;
     dataChannel := dataChannel p; pendingIceCandidates := pendingIceCandidates p |}.

Definition with_localDescription (d : option (option json)) (p : PeerConnection)
  : PeerConnection :=
  {| remotePeerId := remotePeerId p; isInitiator := isInitiator p;
     remoteDescription := remoteDescription p; localDescription := d;
     dataChannel := dataChannel p; pendingIceCandidates := pendingIceCandidates p |}.

Definition with_dataChannel (ch : option nat) (p : PeerConnection) : PeerConnection :=
  {| remotePeerId := remotePeerId p; isInitiator := isInitiator p;
     remoteDescription := remoteDescription p; localDescription := localDescription p;
     dataChannel := ch; pendingIceCandidates := pendingIceCandidates p |}.

Definition with_pendingIceCandidates (q : list (option json)) (p : PeerConnection)
  : PeerConnection :=
  {| remotePeerId := remotePeerId p; isInitiator := isInitiator p;
     remoteDescription := remoteDescription p; localDescription := localDescription p;
     dataChannel := dataChannel p; pendingIceCandidates := q |}.

Definition update_pc (pc : nat) (f : PeerConnection -> PeerConnection) (st : state) : state :=
  match pcs st !! pc with
  | Some p => set_pcs (<[pc := f p]> (pcs st)) st
  | None => st
  end.

Definition set_channel_state (ch : nat) (s : channelState) (st : state) : state :=
  match channels st !! ch with
  | Some c => set_channels (<[ch := {| owner := owner c; ch_readyState := s |}]> (channels st)) st
  | None => st
  end.

(** [wsRef.current?.readyState === WebSocket.OPEN]. *)
Definition ws_open (st : state) : bool :=
  match wsRef st with
  | Some OPEN => true
  | _ => false
  end.

(** [pc?.dataChannel?.readyState === 'open'] for the object [pc]. *)
Definition channel_of (st : state) (pc : nat) : option nat :=
  match pcs st !! pc with
  | Some p => dataChannel p
  | None => None
  end.

Definition channel_is_open (st : state) (ch : nat) : bool :=
  match channels st !! ch with
  | Some {| ch_readyState := ch_open |} => true
  | _ => false
  end.

Definition dataChannel_open (st : state) (pc : nat) : bool :=
  match channel_of st pc with
  | Some ch => channel_is_open st ch
  | None => false
  end.

Section Handlers.

(** [new RTCIceCandidate(candidate)]: whether the constructor accepts the
    payload (it throws otherwise). *)
Variable candidate_ok : option json -> bool.

(** [updateConnectionsList]. *)
Definition updateConnectionsList (st : state) : state :=
  let connList :=
    List.filter
      (fun peerId =>
         match JSMap.get peerId (peerConnectionsRef st) with
         | Some pc => dataChannel_open st pc
         | None => false
         end)
      (JSMap.keys (peerConnectionsRef st)) in
  let st1 := setConnections connList st in
  if (0 <? length connList)%nat then setStatus connected st1
  else if ws_open st then setStatus disconnected st1
  else st1.

(** [createPeerConnection]: a new object, with a data channel of its own
    when it is the initiator, entered under [remotePeerId]. *)
Definition createPeerConnection (remotePeerId : string) (isInitiator : bool) (st : state)
  : nat * state :=
  let pc := length (pcs st) in
  let ch := length (channels st) in
  let peerConn :=
    {| remotePeerId := remotePeerId; isInitiator := isInitiator;
       remoteDescription := None; localDescription := None;
       dataChannel := if isInitiator then Some ch else None;
       pendingIceCandidates := [] |} in
  let st1 := set_pcs (pcs st ++ [peerConn]) st in
  let st2 :=
    if isInitiator
    then set_channels (channels st1 ++ [{| owner := pc; ch_readyState := ch_connecting |}]) st1
    else st1 in
  (pc, set_peerConnectionsRef (JSMap.set remotePeerId pc (peerConnectionsRef st2)) st2).

(** A handler reaches an [await]: it is suspended. *)
Definition suspend (t : task) (st : state) : state :=
  set_tasks (tasks st ++ [Some t]) st.

Definition ice_candidate_msg (target : string) (candidate : json) : json :=
  JObj [("type", JStr "ice-candidate"); ("targetPeerId", JStr target);
        ("candidate", candidate)].

Definition answer_msg (target : string) (answer : option json) : json :=
  JObj ([("type", JStr "answer"); ("targetPeerId", JStr target)] ++ JS.field "answer" answer).

Definition offer_msg (target : string) (offer : option json) : json :=
  JObj ([("type", JStr "offer"); ("targetPeerId", JStr target)] ++ JS.field "offer" offer).

Definition file_metadata (f : File) : json :=
  JObj [("type", JStr "file-metadata"); ("name", JStr (name f));
        ("size", JNum (file_size f)); ("mimeType", JStr (type f))].

(** [handleSignalingMessage], up to its first [await].  The [await] of the
    [ice-candidate] case is followed by nothing but a [catch] that logs: it
    leaves no task. *)
Definition handleSignalingMessage (message : signal) (st : state) : state * list effect :=
  match message with
  | SigPeerId id => (setStatus disconnected (set_peerId (Some id) st), [])
  | SigOffer fromPeerId offer =>
      if JSMap.has fromPeerId (peerConnectionsRef st) then (st, [])
      else
        let '(pc, st1) := createPeerConnection fromPeerId false st in
        (suspend (AwaitSetRemoteDescription (InOffer fromPeerId) pc offer) st1,
         [SetRemoteDescription pc offer])
  | SigAnswer fromPeerId answer =>
      match JSMap.get fromPeerId (peerConnectionsRef st) with
      | Some pc =>
          (suspend (AwaitSetRemoteDescription InAnswer pc answer) st,
           [SetRemoteDescription pc answer])
      | None => (st, [])
      end
  | SigIceCandidate fromPeerId candidate =>
      match JSMap.get fromPeerId (peerConnectionsRef st) with
      | Some pc =>
          match pcs st !! pc with
          | Some peerConn =>
              if negb (candidate_ok candidate) then (st, [])
              else
                match remoteDescription peerConn with
                | Some _ => (st, [AddIceCandidate pc candidate false])
                | None =>
                    (update_pc pc
                       (with_pendingIceCandidates
                          (pendingIceCandidates peerConn ++ [candidate])) st,
                     [])
                end
          | None => (st, [])
          end
      | None => (st, [])
      end
  | SigPeerDisconnected disconnectedPeerId =>
      match JSMap.get disconnectedPeerId (peerConnectionsRef st) with
      | Some pc =>
          (updateConnectionsList
             (set_peerConnectionsRef
                (JSMap.delete disconnectedPeerId (peerConnectionsRef st)) st),
           [ClosePeer pc])
      | None => (st, [])
      end
  | SigError _ => (setStatus error st, [])
  | SigOther => (st, [])
  end.

(** One turn of a flush loop: the next candidate is handed to the
    transport, or the loop is over, the queue is emptied and the handler
    goes on. *)
Definition flush (k : flush_kind) (pc : nat) (rest : list (option json)) (st : state)
  : state * list effect * option task :=
  match rest with
  | candidate :: rest' =>
      (st, [AddIceCandidate pc candidate true], Some (AwaitAddIceCandidate k pc rest'))
  | [] =>
      let st1 := update_pc pc (with_pendingIceCandidates []) st in
      match k with
      | InOffer fromPeerId => (st1, [CreateAnswer pc], Some (AwaitCreateAnswer pc fromPeerId))
      | InAnswer => (st1, [], None)
      end
  end.

Definition pending_of (st : state) (pc : nat) : list (option json) :=
  match pcs st !! pc with
  | Some p => pendingIceCandidates p
  | None => []
  end.

(** [wsRef.current.send] of [connectToPeer], which does not test the
    socket: a socket that is still connecting throws, a closing or closed
    one drops the message. *)
Definition ws_send_unguarded (payload : json) (st : state) : state * list effect :=
  match wsRef st with
  | Some OPEN => (st, [WsSend payload])
  | Some CONNECTING | None => (setStatus error st, [])
  | Some _ => (st, [])
  end.

(** A suspended handler goes on when the promise it awaits settles.  A
    rejection lands in the [catch] of the handler. *)
Definition resume (t : task) (o : outcome) (st : state)
  : state * list effect * option task :=
  match t, o with
  | AwaitSetRemoteDescription k pc d, Resolved _ =>
      let st1 := update_pc pc (with_remoteDescription (Some d)) st in
      flush k pc (pending_of st1 pc) st1
  | AwaitAddIceCandidate k pc rest, Resolved _ => flush k pc rest st
  | AwaitCreateAnswer pc fromPeerId, Resolved answer =>
      (st, [SetLocalDescription pc answer], Some (AwaitSetLocalAnswer pc fromPeerId answer))
  | AwaitSetLocalAnswer pc fromPeerId answer, Resolved _ =>
      let st1 := update_pc pc (with_localDescription (Some answer)) st in
      (st1, if ws_open st1 then [WsSend (answer_msg fromPeerId answer)] else [], None)
  | AwaitCreateOffer pc remotePeerId, Resolved offer =>
      (st, [SetLocalDescription pc offer], Some (AwaitSetLocalOffer pc remotePeerId offer))
  | AwaitSetLocalOffer pc remotePeerId offer, Resolved _ =>
      let st1 := update_pc pc (with_localDescription (Some offer)) st in
      let '(st2, out) := ws_send_unguarded (offer_msg remotePeerId offer) st1 in
      (st2, out, None)
  | AwaitArrayBuffer pc buffer, Resolved _ =>
      match channel_of st pc with
      | Some ch =>
          (st, if channel_is_open st ch then [ChannelSend ch (DArrayBuffer buffer)] else [], None)
      | None => (st, [], None)
      end
  | AwaitArrayBuffer _ _, Rejected => (st, [], None)
  | _, Rejected => (setStatus error st, [], None)
  end.

(** [connectToPeer], up to its first [await]. *)
Definition connectToPeer (remotePeerId : string) (st : state) : state * list effect :=
  if negb (ws_open st) then (st, [])
  else if JSMap.has remotePeerId (peerConnectionsRef st) then (st, [])
  else if match peerId st with
          | Some own => String.eqb remotePeerId own
          | None => false
          end then (st, [])
  else
    let '(pc, st1) := createPeerConnection remotePeerId true (setStatus connecting st) in
    (suspend (AwaitCreateOffer pc remotePeerId) st1, [CreateOffer pc]).

(** The name a received file is saved under:
    [metadata?.name || `file-${Date.now()}`]. *)
Definition filename_for (metadata : option json) (now : Z) : json :=
  let name :=
    match metadata with
    | Some m => JS.prop m "name"
    | None => None
    end in
  match name with
  | Some n => if JS.truthy name then n else JStr ("file-" +:+ JS.string_of_Z now)
  | None => JStr ("file-" +:+ JS.string_of_Z now)
  end.

Definition is_file_metadata (parsed : json) : bool :=
  match JS.prop parsed "type" with
  | Some (JStr s) => String.eqb s "file-metadata"
  | _ => false
  end.

(** The bytes of a binary message. *)
Definition is_binary (d : data) : option (list Byte.byte) :=
  match d with
  | DBlob b | DArrayBuffer b => Some b
  | _ => None
  end.

(** The [Blob] and [ArrayBuffer] branches of [handleIncomingData]. *)
Definition receive_file (b : list Byte.byte) (fromPeerId : string) (now stamp : Z)
    (st : state) : state * list effect :=
  let metadata := JSMap.get fromPeerId (fileMetadataRef st) in
  let filename := filename_for metadata now in
  (set_fileMetadataRef (JSMap.delete fromPeerId (fileMetadataRef st))
     (setReceivedFiles
        (receivedFiles st
         ++ [{| rf_name := filename; rf_size := Z.of_nat (length b);
                rf_timestamp := stamp |}]) st),
   [DownloadFile b filename]).

(** [handleIncomingData]; [now] is [Date.now()] and [stamp] is
    [new Date()]. *)
Definition handleIncomingData (d : data) (fromPeerId : string) (now stamp : Z)
    (st : state) : state * list effect :=
  match d with
  | DString (Some parsed) =>
      if is_file_metadata parsed
      then (set_fileMetadataRef (JSMap.set fromPeerId parsed (fileMetadataRef st)) st, [])
      else (st, [])
  | DString None => (st, [])
  | DBlob b => receive_file b fromPeerId now stamp st
  | DArrayBuffer b => receive_file b fromPeerId now stamp st
  | DOther => (st, [])
  end.

(** The connections [sendFile] sends to: the entries whose channel is
    open, with that channel. *)
Definition openConnections (st : state) : list (string * nat) :=
  List.filter (fun '(_, pc) => dataChannel_open st pc)
    (JSMap.entries (peerConnectionsRef st)).

Definition send_to (f : File) (pc : nat) (st : state) : state * list effect :=
  match channel_of st pc with
  | Some ch =>
      (suspend (AwaitArrayBuffer pc (bytes f)) st,
       [ChannelSend ch (DString (Some (file_metadata f)))])
  | None => (st, [])
  end.

(** [sendFile]: the value returned, the new state and the calls made. *)
Definition sendFile (f : File) (st : state) : bool * state * list effect :=
  match openConnections st with
  | [] => (false, st, [])
  | conns =>
      let '(st', out) :=
        fold_left
          (fun '(s, acc) '(_, pc) => let '(s', o) := send_to f pc s in (s', acc ++ o))
          conns (st, []) in
      (true, st', out)
  end.

(** [sendFileToPeer]. *)
Definition sendFileToPeer (f : File) (remotePeerId : string) (st : state)
  : bool * state * list effect :=
  match JSMap.get remotePeerId (peerConnectionsRef st) with
  | Some pc =>
      if dataChannel_open st pc
      then let '(st', out) := send_to f pc st in (true, st', out)
      else (false, st, [])
  | None => (false, st, [])
  end.

(** The cleanup of the effect. *)
Definition cleanup (st : state) : state * list effect :=
  if isInitialized st then
    (set_isInitialized false
       (set_wsRef (match wsRef st with
                   | Some OPEN | Some CONNECTING => Some CLOSING
                   | s => s
                   end)
          (set_peerConnectionsRef JSMap.empty st)),
     flat_map
       (fun '(_, pc) =>
          match channel_of st pc with
          | Some ch => [CloseChannel ch; ClosePeer pc]
          | None => [ClosePeer pc]
          end)
       (JSMap.entries (peerConnectionsRef st))
     ++ [WsCloseCall])
  else (st, []).

(** What can happen to the hook: the events of the socket, of the
    transport and of the channels, the settling of an awaited promise, and
    the calls of the component. *)
Inductive event : Type :=
| Mount
| Unmount
| WsOpen
| WsMessage (message : option signal)
| WsError
| WsClose
| OnIceCandidate (pc : nat) (candidate : option json)
| OnIceConnectionStateChange (pc : nat) (s : iceConnectionState)
| OnConnectionStateChange (pc : nat) (s : connectionState)
| OnDataChannel (pc : nat) (s : channelState)
| ChannelOpen (ch : nat)
| ChannelClose (ch : nat)
| ChannelError (ch : nat)
| ChannelMessage (ch : nat) (d : data) (now stamp : Z)
| Settle (t : nat) (o : outcome)
| CallConnectToPeer (remotePeerId : string)
| CallSendFile (f : File)
| CallSendFileToPeer (f : File) (remotePeerId : string).

Definition step (e : event) (st : state) : state * list effect :=
  match e with
  | Mount =>
      if isInitialized st then (st, [])
      else (set_wsRef (Some CONNECTING) (set_isInitialized true st), [])
  | Unmount => cleanup st
  | WsOpen => (setStatus disconnected (set_wsRef (Some OPEN) st), [])
  | WsMessage (Some message) => handleSignalingMessage message st
  | WsMessage None => (st, [])
  | WsError => (setStatus error st, [])
  | WsClose => (setStatus error (set_wsRef (Some CLOSED) st), [])
  | OnIceCandidate pc candidate =>
      match pcs st !! pc, candidate with
      | Some p, Some c =>
          (st, if ws_open st then [WsSend (ice_candidate_msg (remotePeerId p) c)] else [])
      | _, _ => (st, [])
      end
  | OnIceConnectionStateChange pc s =>
      match pcs st !! pc, s with
      | Some _, ice_failed => (setStatus error st, [])
      | _, _ => (st, [])
      end
  | OnConnectionStateChange pc s =>
      match pcs st !! pc, s with
      | Some _, pc_connected => (updateConnectionsList st, [])
      | Some p, pc_failed | Some p, pc_closed =>
          (updateConnectionsList
             (set_peerConnectionsRef
                (JSMap.delete (remotePeerId p) (peerConnectionsRef st)) st), [])
      | _, _ => (st, [])
      end
  | OnDataChannel pc s =>
      match pcs st !! pc with
      | Some p =>
          if isInitiator p then (st, [])
          else
            let ch := length (channels st) in
            (update_pc pc (with_dataChannel (Some ch))
               (set_channels (channels st ++ [{| owner := pc; ch_readyState := s |}]) st),
             [])
      | None => (st, [])
      end
  | ChannelOpen ch =>
      match channels st !! ch with
      | Some _ => (updateConnectionsList (set_channel_state ch ch_open st), [])
      | None => (st, [])
      end
  | ChannelClose ch =>
      match channels st !! ch with
      | Some _ => (updateConnectionsList (set_channel_state ch ch_closed st), [])
      | None => (st, [])
      end
  | ChannelError ch =>
      match channels st !! ch with
      | Some _ => (setStatus error st, [])
      | None => (st, [])
      end
  | ChannelMessage ch d now stamp =>
      match channels st !! ch with
      | Some c =>
          match pcs st !! owner c with
          | Some p => handleIncomingData d (remotePeerId p) now stamp st
          | None => (st, [])
          end
      | None => (st, [])
      end
  | Settle t o =>
      match tasks st !! t with
      | Some (Some k) =>
          let '(st', out, next) := resume k o st in
          (set_tasks (<[t := next]> (tasks st')) st', out)
      | _ => (st, [])
      end
  | CallConnectToPeer remotePeerId => connectToPeer remotePeerId st
  | CallSendFile f => let '(_, st', out) := sendFile f st in (st', out)
  | CallSendFileToPeer f remotePeerId =>
      let '(_, st', out) := sendFileToPeer f remotePeerId st in (st', out)
  end.

(** A run: the events one after the other, and all the calls made. *)
Fixpoint run (es : list event) (st : state) : state * list effect :=
  match es with
  | [] => (st, [])
  | e :: es' =>
      let '(st1, out1) := step e st in
      let '(st2, out2) := run es' st1 in
      (st2, out1 ++ out2)
  end.

(** The aggregate status as the specification words it: a function of the
    list of open connections and of the relay link. *)
Definition derived_status (connList : list string) (relay_open : bool) : ConnectionStatus :=
  match connList with
  | _ :: _ => connected
  | [] => if relay_open then disconnected else error
  end.

(** Whether the connection [pc] has a remote description. *)
Definition has_remoteDescription (st : state) (pc : nat) : bool :=
  match pcs st !! pc with
  | Some p => match remoteDescription p with Some _ => true | None => false end
  | None => false
  end.







(** The candidates handed to the transport by the flush loops, for the
    connection [pc]. *)
Definition flushed (pc : nat) (out : list effect) : list (option json) :=
  flat_map
    (fun e =>
       match e with
       | AddIceCandidate pc' c true => if Nat.eqb pc' pc then [c] else []
       | _ => []
       end) out.

End Handlers.

(** Scenarios.  Every payload makes a candidate. *)
Definition any_candidate (c : option json) : bool := true.

Definition candidate (ufrag : string) : option json :=
  Some (JObj [("candidate", JStr ufrag); ("sdpMid", JStr "0")]).

Definition sdp (kind : string) : option json :=
  Some (JObj [("type", JStr kind); ("sdp", JStr "v=0")]).

(** [alice] dials [bob] and her offer goes out. *)
Definition dial_bob : list event :=
  [Mount; WsOpen; WsMessage (Some (SigPeerId "alice")); CallConnectToPeer "bob";
   Settle 0 (Resolved (sdp "offer")); Settle 0 (Resolved None)].



(** The answer of [bob] arrives and is applied. *)
Definition negotiated : list event :=
  dial_bob ++ [WsMessage (Some (SigAnswer "bob" (sdp "answer"))); Settle 1 (Resolved None)].

(** The channel to [bob] opens and the relay link goes down. *)
Definition relay_lost : list event := negotiated ++ [ChannelOpen 0; WsClose].

(** The transport then reports the connection to [bob] as connected
    again, and later the channel closes. *)
Definition relay_lost_channel_closed : list event :=
  relay_lost ++ [OnConnectionStateChange 0 pc_connected; ChannelClose 0].

(** The channel to [bob] is open. *)
Definition bob_open : list event := negotiated ++ [ChannelOpen 0].

(** A candidate of [bob] arrives before any record for him. *)
Definition stray_candidate : list event :=
  [Mount; WsOpen; WsMessage (Some (SigPeerId "alice"));
   WsMessage (Some (SigIceCandidate "bob" (candidate "c0")));
   WsMessage (Some (SigOffer "bob" (sdp "offer"))); Settle 0 (Resolved None)].

Definition photo_png : File :=
  {| name := "photo.png"; type := "image/png"; bytes := [Byte.x89; Byte.x50; Byte.x4e; Byte.x47] |}.

End WebRTC.

(** ** The hook and the signalling server together *)

Module Relay.

Import WebRTC.

(** What the hook reads of a message of the server: [ws.onmessage] parses
    it and [handleSignalingMessage] takes the case of [message.type] with
    the fields that case destructures.  Identifiers are strings on the
    wire; a message whose identifier is not one is none of this
    protocol. *)
Definition decode (message : json) : option signal :=
  let identified (k : string) (f : string -> signal) : option signal :=
    match JS.prop message k with
    | Some (JStr id) => Some (f id)
    | _ => None
    end in
  match JS.prop message "type" with
  | Some (JStr ty) =>
      if String.eqb ty "peer-id" then identified "peerId" SigPeerId
      else if String.eqb ty "offer"
      then identified "fromPeerId" (fun id => SigOffer id (JS.prop message "offer"))
      else if String.eqb ty "answer"
      then identified "fromPeerId" (fun id => SigAnswer id (JS.prop message "answer"))
      else if String.eqb ty "ice-candidate"
      then identified "fromPeerId"
             (fun id => SigIceCandidate id (JS.prop message "candidate"))
      else if String.eqb ty "peer-disconnected" then identified "peerId" SigPeerDisconnected
      else if String.eqb ty "error" then Some (SigError (JS.prop message "message"))
      else Some SigOther
  | _ => Some SigOther
  end.

(** What the server makes of the messages that the hook of the endpoint
    registered as [peerId], on socket [ws], sends to it: for each
    [wsRef.current.send], the sockets the server sends to and what the
    hooks at those sockets read. *)
Definition through_hub (rs : Hub.socket -> Hub.readyState) (peers : Hub.registry)
    (peerId : string) (ws : Hub.socket) (out : list effect)
  : list (Hub.socket * option signal) :=
  flat_map
    (fun e =>
       match e with
       | WsSend payload =>
           map (fun '(Hub.Send w q) => (w, decode q))
             (snd (Hub.on_message rs peerId ws (Some payload) peers))
       | _ => []
       end) out.

(** What the hooks read of the server's notices when an endpoint leaves. *)
Definition departure (rs : Hub.socket -> Hub.readyState) (peers : Hub.registry)
    (peerId : string) : list (Hub.socket * option signal) :=
  map (fun '(Hub.Send w q) => (w, decode q)) (snd (Hub.on_close rs peerId peers)).

(** An endpoint whose hook has been given its identifier by the server. *)
Definition joined (id : string) : state :=
  fst (run any_candidate [Mount; WsOpen; WsMessage (Some (SigPeerId id))] initial).

End Relay.

(** * Properties *)

(** ** Chunked transfer *)

Section ChunkedTransfer.

Import Manual.
Local Open Scope Z_scope.

Lemma byteLength_nonneg (b : list Byte.byte) : 0 <= byteLength b.
Proof. unfold byteLength. lia. Qed.

Lemma byteLength_app (a b : list Byte.byte) :
  byteLength (a ++ b) = byteLength a + byteLength b.
Proof. unfold byteLength. rewrite length_app. lia. Qed.

(** Inside the file, a slice of [CHUNK_SIZE] bytes is the next
    [CHUNK_SIZE] bytes, or what is left of the file. *)
Lemma slice_at (b : list Byte.byte) (off : Z) :
  0 <= off <= byteLength b ->
  slice b off (off + CHUNK_SIZE)
  = firstn (Z.to_nat CHUNK_SIZE) (skipn (Z.to_nat off) b).
Proof.
  intros Hoff. unfold slice, CHUNK_SIZE in *.
  assert (H0 : (off <? 0) = false) by lia.
  assert (H1 : (off + 16384 <? 0) = false) by lia.
  rewrite H0, H1.
  replace (Z.min off (byteLength b)) with off by lia.
  set (rest := skipn (Z.to_nat off) b).
  assert (Hrest : byteLength rest = byteLength b - off).
  { unfold rest, byteLength in *. rewrite length_skipn. lia. }
  destruct (Z.le_gt_cases (off + 16384) (byteLength b)) as [Hle | Hgt].
  - f_equal. lia.
  - rewrite !firstn_all2; [reflexivity | |];
      unfold byteLength in *; lia.
Qed.

Lemma readSlice_length (f : File) (off : Z) :
  0 <= off <= file_size f ->
  byteLength (readSlice {| up_file := f; offset := off |})
  = Z.min CHUNK_SIZE (file_size f - off).
Proof.
  intros Hoff. unfold readSlice, file_size in *. simpl.
  rewrite slice_at by exact Hoff.
  unfold byteLength, CHUNK_SIZE in *.
  rewrite length_firstn, length_skipn. lia.
Qed.

Lemma readSlice_rest (f : File) (off : Z) :
  0 <= off <= file_size f ->
  readSlice {| up_file := f; offset := off |}
  ++ skipn (Z.to_nat (off + byteLength (readSlice {| up_file := f; offset := off |}))) (bytes f)
  = skipn (Z.to_nat off) (bytes f).
Proof.
  intros Hoff. rewrite readSlice_length by exact Hoff.
  unfold readSlice, file_size in *. simpl. rewrite slice_at by exact Hoff.
  set (rest := skipn (Z.to_nat off) (bytes f)).
  assert (Hrest : byteLength rest = byteLength (bytes f) - off).
  { unfold rest, byteLength in *. rewrite length_skipn. lia. }
  replace (Z.to_nat (off + Z.min CHUNK_SIZE (byteLength (bytes f) - off)))
    with (Z.to_nat (Z.min CHUNK_SIZE (byteLength (bytes f) - off)) + Z.to_nat off)%nat
    by (unfold CHUNK_SIZE; lia).
  rewrite <- skipn_skipn. fold rest.
  destruct (Z.le_gt_cases CHUNK_SIZE (byteLength (bytes f) - off)) as [Hle | Hgt].
  - replace (Z.min CHUNK_SIZE (byteLength (bytes f) - off)) with CHUNK_SIZE by lia.
    apply firstn_skipn.
  - rewrite firstn_all2 by (unfold byteLength, CHUNK_SIZE in *; lia).
    rewrite skipn_all2 by (unfold byteLength, CHUNK_SIZE in *; lia).
    apply app_nil_r.
Qed.

Lemma ceil_div_small (n : Z) : 0 < n <= CHUNK_SIZE -> ceil_div n CHUNK_SIZE = 1.
Proof.
  intros H. unfold ceil_div, CHUNK_SIZE in *.
  symmetry. apply (Z.div_unique _ _ 1 (n - 1)); lia.
Qed.

Lemma ceil_div_pos (n : Z) : 0 < n -> 0 < ceil_div n CHUNK_SIZE.
Proof.
  intros H. unfold ceil_div, CHUNK_SIZE. apply Z.div_str_pos. lia.
Qed.

Lemma ceil_div_step (n : Z) :
  CHUNK_SIZE < n -> ceil_div n CHUNK_SIZE = 1 + ceil_div (n - CHUNK_SIZE) CHUNK_SIZE.
Proof.
  intros H. unfold ceil_div, CHUNK_SIZE in *.
  replace (n + 16384 - 1) with ((n - 16384 + 16384 - 1) + 1 * 16384) by lia.
  rewrite Z.div_add by lia. lia.
Qed.

Lemma mod_step (n : Z) : (n - CHUNK_SIZE) mod CHUNK_SIZE = n mod CHUNK_SIZE.
Proof.
  unfold CHUNK_SIZE. replace (n - 16384) with (n + (-1) * 16384) by lia.
  apply Z.mod_add. lia.
Qed.

Ltac chunk_lia := unfold CHUNK_SIZE in *; lia.

(** The tail of a transfer, from any offset inside the file. *)
Lemma reader_loop_chunks (f : File) (fuel : nat) :
  forall (off : Z) (st : state),
    dataChannel st = Some ch_open ->
    0 <= off < file_size f ->
    file_size f - off <= Z.of_nat fuel ->
    exists st' chunks,
      reader_loop fuel {| up_file := f; offset := off |} st
      = Some (st', map Send (map ArrayBuffer chunks ++ [Text (Some (file_end f))]))
      /\ concat chunks = skipn (Z.to_nat off) (bytes f)
      /\ Z.of_nat (length chunks) = ceil_div (file_size f - off) CHUNK_SIZE
      /\ Forall (fun c => 0 < byteLength c <= CHUNK_SIZE) chunks
      /\ byteLength (List.last chunks [])
         = (if (file_size f - off) mod CHUNK_SIZE =? 0 then CHUNK_SIZE
            else (file_size f - off) mod CHUNK_SIZE).
Proof.
  induction fuel as [| fuel IH]; intros off st Hopen Hoff Hfuel; [lia |].
  pose proof (readSlice_length f off ltac:(chunk_lia)) as Hlen.
  pose proof (readSlice_rest f off ltac:(chunk_lia)) as Hrest.
  set (chunk := readSlice {| up_file := f; offset := off |}) in *.
  cbn [reader_loop]. unfold onload. rewrite Hopen. cbn [up_file offset].
  fold chunk.
  destruct (off + byteLength chunk <? file_size f) eqn:Hmore.
  - (* more to read *)
    apply Z.ltb_lt in Hmore.
    assert (Hfull : byteLength chunk = CHUNK_SIZE) by chunk_lia.
    match goal with
    | |- context [reader_loop fuel _ ?s] => set (st1 := s)
    end.
    destruct (IH (off + byteLength chunk) st1)
      as (st' & chunks & Hrun & Hcat & Hn & Hall & Hlast).
    + exact Hopen.
    + chunk_lia.
    + chunk_lia.
    + rewrite Hrun. exists st', (chunk :: chunks). repeat split.
      * cbn [concat]. rewrite Hcat. exact Hrest.
      * cbn [length]. rewrite Nat2Z.inj_succ, Hn, Hfull.
        rewrite (ceil_div_step (file_size f - off)) by chunk_lia.
        replace (file_size f - (off + CHUNK_SIZE))
          with (file_size f - off - CHUNK_SIZE) by lia.
        lia.
      * constructor; [chunk_lia | exact Hall].
      * destruct chunks as [| c cs].
        { exfalso. cbn [length] in Hn. rewrite Hfull in Hn.
          pose proof (ceil_div_pos (file_size f - (off + CHUNK_SIZE))) as Hp.
          chunk_lia. }
        change (List.last (chunk :: c :: cs) []) with (List.last (c :: cs) []).
        rewrite Hlast, Hfull.
        replace (file_size f - (off + CHUNK_SIZE)) with (file_size f - off - CHUNK_SIZE) by chunk_lia.
        rewrite mod_step. reflexivity.
  - (* the last chunk *)
    apply Z.ltb_ge in Hmore.
    assert (Hsmall : file_size f - off <= CHUNK_SIZE) by chunk_lia.
    eexists _, [chunk]. repeat split.
    + cbn [concat]. rewrite app_nil_r. rewrite <- Hrest.
      rewrite skipn_all2, app_nil_r; [reflexivity |].
      unfold file_size, byteLength in *. chunk_lia.
    + cbn [length]. rewrite ceil_div_small; chunk_lia.
    + constructor; [chunk_lia | constructor].
    + cbn [List.last]. rewrite Hlen.
      destruct (Z.eq_dec (file_size f - off) CHUNK_SIZE) as [Heq | Hne].
      * rewrite Heq. unfold CHUNK_SIZE. reflexivity.
      * rewrite Z.mod_small by chunk_lia.
        destruct (file_size f - off =? 0) eqn:Hz; chunk_lia.
Qed.


(** A transfer always comes to an end. *)
Lemma transfer_total (st : state) : transfer st <> None.
Proof.
  unfold transfer, sendFile.
  destruct (selectedFile st) as [f |] eqn:Hf; [| discriminate].
  destruct (dataChannel st) as [[| | |] |] eqn:Hch; try discriminate.
  cbn [up_file].
  destruct (Z.eq_dec (file_size f) 0) as [Hz | Hnz].
  - rewrite Hz. cbn [Z.to_nat reader_loop]. unfold onload. cbn [dataChannel set_fileTransfer].
    rewrite Hch. cbn [up_file offset].
    assert (Hempty : bytes f = []).
    { unfold file_size, byteLength in Hz. destruct (bytes f); [reflexivity | discriminate]. }
    unfold readSlice. cbn [up_file offset]. rewrite Hempty. cbn.
    unfold file_size, byteLength. rewrite Hempty. cbn. discriminate.
  - match goal with
    | |- context [reader_loop ?n _ ?s] =>
        destruct (reader_loop_chunks f n 0 s) as (st' & chunks & Hrun & _)
    end.
    + exact Hch.
    + pose proof (byteLength_nonneg (bytes f)). unfold file_size in *. lia.
    + lia.
    + rewrite Hrun. discriminate.
Qed.

Lemma deliver_text (bt : binaryType) (parsed : option json) :
  deliver bt (Text parsed) = Text parsed.
Proof. destruct bt; reflexivity. Qed.




End ChunkedTransfer.

(** ** Insertion-ordered maps: lookup after update *)

Section JSMapFacts.

Context {V : Type}.
Implicit Types (m : JSMap.t V) (k : string) (v : V).

Lemma get_set_eq m k v : JSMap.get k (JSMap.set k v m) = Some v.
Proof.
  induction m as [| [k' v'] m IH]; cbn.
  - rewrite String.eqb_refl. reflexivity.
  - destruct (String.eqb k k') eqn:E; cbn; rewrite ?String.eqb_refl, ?E; auto.
Qed.

Lemma get_set_ne m k k' v : k <> k' -> JSMap.get k' (JSMap.set k v m) = JSMap.get k' m.
Proof.
  intros Hne. induction m as [| [k0 v0] m IH]; cbn.
  - destruct (String.eqb_spec k' k); congruence.
  - destruct (String.eqb_spec k k0) as [-> | Hk]; cbn.
    + destruct (String.eqb_spec k' k0); congruence.
    + destruct (String.eqb_spec k' k0); auto.
Qed.

Lemma get_delete_eq m k : JSMap.get k (JSMap.delete k m) = None.
Proof.
  induction m as [| [k' v'] m IH]; cbn; [reflexivity |].
  destruct (String.eqb k k') eqn:E; cbn; rewrite ?E; auto.
Qed.

Lemma get_delete_ne m k k' : k <> k' -> JSMap.get k' (JSMap.delete k m) = JSMap.get k' m.
Proof.
  intros Hne. induction m as [| [k0 v0] m IH]; cbn; [reflexivity |].
  destruct (String.eqb_spec k k0) as [-> | Hk]; cbn.
  - destruct (String.eqb_spec k' k0); congruence.
  - destruct (String.eqb_spec k' k0); auto.
Qed.

Lemma delete_absent m k : JSMap.get k m = None -> JSMap.delete k m = m.
Proof.
  induction m as [| [k' v'] m IH]; cbn; [reflexivity |].
  destruct (String.eqb k k'); [discriminate |].
  intros H. rewrite IH by exact H. reflexivity.
Qed.

Lemma In_delete m k k' v :
  In (k', v) (JSMap.delete k m) <-> In (k', v) m /\ k' <> k.
Proof.
  induction m as [| [k0 v0] m IH]; cbn; [tauto |].
  destruct (String.eqb_spec k k0) as [-> | Hk]; cbn; rewrite IH.
  - split; [tauto |]. intros [[Heq | Hin] Hne]; [congruence | tauto].
  - split; [| tauto]. intros [Heq | [Hin Hne]]; [| tauto].
    split; [tauto | congruence].
Qed.

Lemma get_In m k v : JSMap.get k m = Some v -> In (k, v) m.
Proof.
  induction m as [| [k' v'] m IH]; cbn; [discriminate |].
  destruct (String.eqb_spec k k') as [-> | Hk]; [intros [= ->]; auto | auto].
Qed.

Lemma In_get m k v : NoDup (JSMap.keys m) -> In (k, v) m -> JSMap.get k m = Some v.
Proof.
  induction m as [| [k' v'] m IH]; cbn; [tauto |].
  intros Hnd [Heq | Hin].
  - injection Heq as -> ->. rewrite String.eqb_refl. reflexivity.
  - apply NoDup_cons in Hnd as [Hnotin Hnd].
    destruct (String.eqb_spec k k') as [-> | Hk]; [| auto].
    exfalso. apply Hnotin. apply list_elem_of_In.
    change k' with (fst (k', v)). apply in_map. exact Hin.
Qed.


Lemma In_map_delete {B : Type} (g : string * V -> B) m k (y : B) :
  In y (map g (JSMap.delete k m)) -> In y (map g m).
Proof.
  induction m as [| [k' v'] m IH]; cbn; [tauto |].
  destruct (String.eqb k k'); cbn; tauto.
Qed.

Lemma NoDup_map_delete {B : Type} (g : string * V -> B) m k :
  NoDup (map g m) -> NoDup (map g (JSMap.delete k m)).
Proof.
  induction m as [| [k' v'] m IH]; cbn; [auto |].
  intros Hnd. apply NoDup_cons in Hnd as [Hnotin Hnd].
  destruct (String.eqb k k'); cbn; [auto |].
  apply NoDup_cons. split; [| auto].
  rewrite list_elem_of_In in *. intros Hin. apply Hnotin.
  eapply In_map_delete. exact Hin.
Qed.

Lemma NoDup_keys_delete m k : NoDup (JSMap.keys m) -> NoDup (JSMap.keys (JSMap.delete k m)).
Proof. apply NoDup_map_delete. Qed.

Lemma keys_set_absent m k v :
  JSMap.get k m = None -> JSMap.keys (JSMap.set k v m) = JSMap.keys m ++ [k].
Proof.
  unfold JSMap.keys. induction m as [| [k' v'] m IH]; cbn; [reflexivity |].
  destruct (String.eqb k k'); [discriminate |].
  intros H. cbn. rewrite IH by exact H. reflexivity.
Qed.

Lemma keys_set_present m k v :
  JSMap.get k m <> None -> JSMap.keys (JSMap.set k v m) = JSMap.keys m.
Proof.
  unfold JSMap.keys. induction m as [| [k' v'] m IH]; cbn; [congruence |].
  destruct (String.eqb_spec k k') as [-> | Hk]; [reflexivity |].
  intros H. cbn. rewrite IH by exact H. reflexivity.
Qed.

Lemma get_None_keys m k : JSMap.get k m = None <-> ~ In k (JSMap.keys m).
Proof.
  unfold JSMap.keys. induction m as [| [k' v'] m IH]; cbn; [tauto |].
  destruct (String.eqb_spec k k') as [-> | Hk].
  - split; [discriminate | tauto].
  - rewrite IH. split; [intros H [E | Hin]; [congruence | tauto] | tauto].
Qed.

Lemma NoDup_keys_set m k v : NoDup (JSMap.keys m) -> NoDup (JSMap.keys (JSMap.set k v m)).
Proof.
  intros Hnd. destruct (JSMap.get k m) eqn:E.
  - rewrite keys_set_present by congruence. exact Hnd.
  - rewrite keys_set_absent by exact E.
    apply NoDup_app. split; [exact Hnd |]. split.
    + intros x Hx Hk. apply list_elem_of_In in Hx. apply list_elem_of_In in Hk.
      cbn in Hk. destruct Hk as [<- | []].
      apply get_None_keys in E. contradiction.
    + apply NoDup_singleton.
Qed.

End JSMapFacts.

(** ** The signalling server *)

Section HubFacts.

Variable rs : Hub.socket -> Hub.readyState.

Lemma readyState_eqb_eq (a b : Hub.readyState) : Hub.readyState_eqb a b = true <-> a = b.
Proof. destruct a, b; cbn; split; congruence. Qed.


(** No message changes the registry. *)
Lemma on_message_registry (peerId : string) (ws : Hub.socket) (message : option json)
    (peers : Hub.registry) :
  fst (Hub.on_message rs peerId ws message peers) = peers.
Proof.
  unfold Hub.on_message.
  repeat (match goal with
          | |- context [match ?x with _ => _ end] => destruct x
          end; try reflexivity).
Qed.






Lemma NoDup_sockets_set (peers : Hub.registry) (peerId : string) (ws : Hub.socket) :
  ~ In ws (map snd peers) -> NoDup (map snd peers) ->
  NoDup (map snd (JSMap.set peerId ws peers)).
Proof.
  induction peers as [| [p w] m IH]; cbn; intros Hfresh Hnd.
  - apply NoDup_cons. split; [rewrite list_elem_of_In; tauto | exact Hnd].
  - apply NoDup_cons in Hnd as [Hnotin Hnd]. rewrite list_elem_of_In in Hnotin.
    destruct (String.eqb peerId p); cbn; apply NoDup_cons;
      rewrite list_elem_of_In.
    + split; [tauto | exact Hnd].
    + split; [| apply IH; tauto].
      intros Hin. apply in_map_iff in Hin as ([p' w'] & Hw & Hin). cbn in Hw. subst w'.
      assert (Hcases : (peerId, ws) = (p', w) \/ In (p', w) m).
      { clear - Hin. induction m as [| [q v] m IHm]; cbn in *.
        - tauto.
        - destruct (String.eqb peerId q); cbn in Hin; intuition. }
      destruct Hcases as [[= _ <-] | Hold]; [tauto |].
      apply Hnotin. change w with (snd (p', w)). apply in_map. exact Hold.
Qed.

(** The registry stays well formed: a new connection brings a socket of
    its own, and no handler enters a socket anywhere else. *)
Lemma wf_preserved (peers : Hub.registry) (peerId : string) (ws : Hub.socket)
    (message : option json) :
  Hub.wf peers ->
  (~ In ws (map snd peers) -> Hub.wf (fst (Hub.on_connection peerId ws peers)))
  /\ Hub.wf (fst (Hub.on_message rs peerId ws message peers))
  /\ Hub.wf (fst (Hub.on_close rs peerId peers)).
Proof.
  intros [Hkeys Hsockets]. split; [| split].
  - intros Hfresh. split; cbn [fst Hub.on_connection].
    + apply NoDup_keys_set. exact Hkeys.
    + apply NoDup_sockets_set; assumption.
  - rewrite on_message_registry. split; assumption.
  - split; cbn [fst Hub.on_close].
    + apply NoDup_keys_delete. exact Hkeys.
    + apply NoDup_map_delete. exact Hsockets.
Qed.



End HubFacts.

(** ** The relay-signalled hook: offers, sending, status, received files *)

Section WebRTCFacts.

Import WebRTC.

Variable candidate_ok : option json -> bool.

(** An offer from an identifier that has a record is dropped. *)
Lemma offer_with_record (st : state) (fromPeerId : string) (offer : option json) :
  JSMap.has fromPeerId (peerConnectionsRef st) = true ->
  handleSignalingMessage candidate_ok (SigOffer fromPeerId offer) st = (st, []).
Proof. intros H. cbn. rewrite H. reflexivity. Qed.

(** After an offer, its source has a record. *)
Lemma offer_leaves_record (st : state) (fromPeerId : string) (offer : option json) :
  JSMap.has fromPeerId
    (peerConnectionsRef (fst (handleSignalingMessage candidate_ok (SigOffer fromPeerId offer) st)))
  = true.
Proof.
  cbn. destruct (JSMap.has fromPeerId (peerConnectionsRef st)) eqn:E; cbn.
  - exact E.
  - unfold JSMap.has. rewrite get_set_eq. reflexivity.
Qed.

(** C5. An offer from a source that already has a connection record
    changes nothing: the state, with its records, is the same afterwards,
    nothing is sent and no handler is left waiting.  So a second offer from
    the same source, after a first one, is without effect. *)
Theorem duplicate_offer_noop (st : state) (fromPeerId : string) (offer : option json) :
  (JSMap.has fromPeerId (peerConnectionsRef st) = true ->
   step candidate_ok (WsMessage (Some (SigOffer fromPeerId offer))) st = (st, []))
  /\ (forall offer',
        let st1 := fst (step candidate_ok (WsMessage (Some (SigOffer fromPeerId offer))) st) in
        step candidate_ok (WsMessage (Some (SigOffer fromPeerId offer'))) st1 = (st1, [])).
Proof.
  split.
  - intros H. cbn [step]. apply offer_with_record. exact H.
  - intros offer'. cbn zeta. cbn [step]. apply offer_with_record.
    apply offer_leaves_record.
Qed.

Lemma openConnections_nil (st : state) :
  openConnections st = []
  <-> (forall id pc, In (id, pc) (peerConnectionsRef st) -> dataChannel_open st pc = false).
Proof.
  unfold openConnections, JSMap.entries.
  induction (peerConnectionsRef st) as [| [id pc] m IH]; cbn.
  - split; [intros _ ? ? [] | reflexivity].
  - destruct (dataChannel_open st pc) eqn:E.
    + split; [discriminate |]. intros H. specialize (H id pc (or_introl eq_refl)). congruence.
    + rewrite IH. split.
      * intros H id' pc' [Heq | Hin]; [congruence | eauto].
      * intros H id' pc' Hin. eauto.
Qed.

(** C7. [sendFileToPeer] to an identifier without a record, or whose data
    channel is not open, returns [false], makes no call and leaves no
    handler waiting; so does [sendFile] when no record has an open channel.
    With an open channel both return [true]. *)
Theorem send_needs_open_channel (f : File) (st : state) :
  ((forall id pc, In (id, pc) (peerConnectionsRef st) -> dataChannel_open st pc = false) ->
   sendFile f st = (false, st, []))
  /\ ((exists id pc, In (id, pc) (peerConnectionsRef st) /\ dataChannel_open st pc = true) ->
      fst (fst (sendFile f st)) = true)
  /\ (forall remotePeerId,
        JSMap.get remotePeerId (peerConnectionsRef st) = None ->
        sendFileToPeer f remotePeerId st = (false, st, []))
  /\ (forall remotePeerId pc,
        JSMap.get remotePeerId (peerConnectionsRef st) = Some pc ->
        dataChannel_open st pc = false ->
        sendFileToPeer f remotePeerId st = (false, st, []))
  /\ (forall remotePeerId pc,
        JSMap.get remotePeerId (peerConnectionsRef st) = Some pc ->
        dataChannel_open st pc = true ->
        fst (fst (sendFileToPeer f remotePeerId st)) = true).
Proof.
  repeat split.
  - intros H. unfold sendFile.
    rewrite (proj2 (openConnections_nil st) H). reflexivity.
  - intros (id & pc & Hin & Hopen). unfold sendFile.
    destruct (openConnections st) as [| c conns] eqn:E.
    + pose proof (proj1 (openConnections_nil st) E id pc Hin) as Hclosed.
      congruence.
    + destruct (fold_left _ _ _). reflexivity.
  - intros remotePeerId H. unfold sendFileToPeer. rewrite H. reflexivity.
  - intros remotePeerId pc H Hclosed. unfold sendFileToPeer. rewrite H, Hclosed. reflexivity.
  - intros remotePeerId pc H Hopen. unfold sendFileToPeer. rewrite H, Hopen.
    destruct (send_to f pc st). reflexivity.
Qed.

(** [updateConnectionsList] touches the two state variables only. *)
Lemma updateConnectionsList_refs (st : state) :
  peerConnectionsRef (updateConnectionsList st) = peerConnectionsRef st
  /\ wsRef (updateConnectionsList st) = wsRef st
  /\ pcs (updateConnectionsList st) = pcs st
  /\ channels (updateConnectionsList st) = channels st
  /\ tasks (updateConnectionsList st) = tasks st.
Proof.
  unfold updateConnectionsList. cbn zeta.
  destruct (0 <? length _)%nat; [| destruct (ws_open st)]; cbn; auto.
Qed.

Lemma updateConnectionsList_connections (st : state) :
  connections (updateConnectionsList st)
  = List.filter
      (fun peerId =>
         match JSMap.get peerId (peerConnectionsRef st) with
         | Some pc => dataChannel_open st pc
         | None => false
         end)
      (JSMap.keys (peerConnectionsRef st)).
Proof.
  unfold updateConnectionsList. cbn zeta.
  destruct (0 <? length _)%nat; [| destruct (ws_open st)]; reflexivity.
Qed.

(** C8, as the code has it.  After [updateConnectionsList] the list of
    connections is the identifiers of the registry whose data channel is
    open, in insertion order; the status is [connected] when that list is
    not empty, else [disconnected] when the relay socket is open, and else
    it is left as it was.  [error] is what the close and error handlers of
    the socket set; the recomputation yields [connecting] only when the
    status was [connecting] already. *)
Theorem connections_and_status (st : state) :
  let st' := updateConnectionsList st in
  connections st'
  = List.filter
      (fun peerId =>
         match JSMap.get peerId (peerConnectionsRef st) with
         | Some pc => dataChannel_open st pc
         | None => false
         end)
      (JSMap.keys (peerConnectionsRef st))
  /\ (forall peerId,
        In peerId (connections st')
        <-> exists pc, JSMap.get peerId (peerConnectionsRef st) = Some pc
                       /\ dataChannel_open st pc = true)
  /\ (connections st' <> [] -> status st' = connected)
  /\ (connections st' = [] -> ws_open st = true -> status st' = disconnected)
  /\ (connections st' = [] -> ws_open st = false -> status st' = status st)
  /\ (status st' = connecting -> status st = connecting)
  /\ status (fst (step candidate_ok WsClose st)) = error
  /\ status (fst (step candidate_ok WsError st)) = error.
Proof.
  cbn zeta. split; [apply updateConnectionsList_connections |].
  split.
  { intros peerId. rewrite updateConnectionsList_connections, filter_In. split.
    - intros [Hin Hopen].
      destruct (JSMap.get peerId (peerConnectionsRef st)) as [pc |]; [eauto | discriminate].
    - intros (pc & Hget & Hopen). rewrite Hget. split; [| exact Hopen].
      destruct (in_dec string_dec peerId (JSMap.keys (peerConnectionsRef st))) as [Hin | Hnotin];
        [exact Hin |].
      apply get_None_keys in Hnotin. congruence. }
  rewrite updateConnectionsList_connections.
  unfold updateConnectionsList. cbn zeta.
  destruct (List.filter _ _) as [| c l]; cbn.
  - destruct (ws_open st); cbn; repeat split; congruence.
  - repeat split; congruence.
Qed.

Lemma receive_binary_data (d : data) (b : list Byte.byte) (fromPeerId : string)
    (now stamp : Z) (st : state) :
  is_binary d = Some b ->
  handleIncomingData d fromPeerId now stamp st = receive_file b fromPeerId now stamp st.
Proof. destruct d; cbn; intros [= ->]; reflexivity. Qed.

(** C10. A [Blob] or [ArrayBuffer] from a sender is saved under the name
    of the metadata stored for that sender when it has a non-empty one,
    entered in the list of received files, and the metadata of that sender
    is deleted, that of other senders being kept.  A second binary message
    from the same sender, with no metadata in between, is saved and listed
    as well, under [file-] followed by the clock. *)
Theorem metadata_consumed_once (d1 d2 : data) (b1 b2 : list Byte.byte)
    (fromPeerId : string) (now1 stamp1 now2 stamp2 : Z) (st : state) :
  is_binary d1 = Some b1 ->
  is_binary d2 = Some b2 ->
  let st1 := fst (handleIncomingData d1 fromPeerId now1 stamp1 st) in
  let out1 := snd (handleIncomingData d1 fromPeerId now1 stamp1 st) in
  let st2 := fst (handleIncomingData d2 fromPeerId now2 stamp2 st1) in
  let out2 := snd (handleIncomingData d2 fromPeerId now2 stamp2 st1) in
  let name1 := filename_for (JSMap.get fromPeerId (fileMetadataRef st)) now1 in
  let name2 := JStr ("file-" +:+ JS.string_of_Z now2) in
  out1 = [DownloadFile b1 name1]
  /\ (forall fields n,
        JSMap.get fromPeerId (fileMetadataRef st) = Some (JObj fields) ->
        JSMap.get "name" fields = Some (JStr n) -> n <> "" ->
        name1 = JStr n)
  /\ JSMap.get fromPeerId (fileMetadataRef st1) = None
  /\ (forall other, other <> fromPeerId ->
        JSMap.get other (fileMetadataRef st1) = JSMap.get other (fileMetadataRef st))
  /\ out2 = [DownloadFile b2 name2]
  /\ JSMap.get fromPeerId (fileMetadataRef st2) = None
  /\ receivedFiles st2
     = receivedFiles st
       ++ [ {| rf_name := name1; rf_size := Z.of_nat (length b1); rf_timestamp := stamp1 |};
            {| rf_name := name2; rf_size := Z.of_nat (length b2); rf_timestamp := stamp2 |} ].
Proof.
  intros H1 H2. cbn zeta.
  rewrite (receive_binary_data d1 b1) by exact H1.
  rewrite (receive_binary_data d2 b2) by exact H2.
  unfold receive_file. cbn [fst snd fileMetadataRef set_fileMetadataRef setReceivedFiles
                             receivedFiles].
  rewrite !get_delete_eq.
  repeat split.
  - intros fields n Hmeta Hname Hne. unfold filename_for. rewrite Hmeta. cbn.
    rewrite Hname. cbn. destruct (String.eqb_spec n ""); [contradiction | reflexivity].
  - intros other Hne. apply get_delete_ne. congruence.
  - rewrite <- app_assoc. reflexivity.
Qed.

(** *** Buffered candidates *)

Lemma pcs_update_pc_ne (st : state) (pc pc' : nat) (f : PeerConnection -> PeerConnection) :
  pc <> pc' -> pcs (update_pc pc f st) !! pc' = pcs st !! pc'.
Proof.
  intros Hne. unfold update_pc. destruct (pcs st !! pc) eqn:E; [| reflexivity].
  cbn. apply list_lookup_insert_ne. exact Hne.
Qed.

Lemma pcs_update_pc_eq (st : state) (pc : nat) (f : PeerConnection -> PeerConnection)
    (p : PeerConnection) :
  pcs st !! pc = Some p -> pcs (update_pc pc f st) !! pc = Some (f p).
Proof.
  intros E. unfold update_pc. rewrite E. cbn.
  apply list_lookup_insert_eq. eapply lookup_lt_Some. exact E.
Qed.

Lemma tasks_update_pc (st : state) (pc : nat) (f : PeerConnection -> PeerConnection) :
  tasks (update_pc pc f st) = tasks st.
Proof. unfold update_pc. destruct (pcs st !! pc); reflexivity. Qed.


Lemma run_fst (e : event) (es : list event) (st : state) :
  fst (run candidate_ok (e :: es) st)
  = fst (run candidate_ok es (fst (step candidate_ok e st))).
Proof.
  cbn [run]. destruct (step candidate_ok e st) as [st1 out1]. cbn [fst].
  destruct (run candidate_ok es st1). reflexivity.
Qed.



(** A candidate that arrives adds no task and goes through no flush loop;
    it leaves alone every connection that has its remote description. *)
Lemma candidate_frame (st : state) (fromPeerId : string) (c : option json) (pc : nat) :
  let r := handleSignalingMessage candidate_ok (SigIceCandidate fromPeerId c) st in
  tasks (fst r) = tasks st
  /\ flushed pc (snd r) = []
  /\ (has_remoteDescription st pc = true ->
      has_remoteDescription (fst r) pc = true
      /\ pending_of (fst r) pc = pending_of st pc).
Proof.
  cbn zeta. cbn [handleSignalingMessage].
  destruct (JSMap.get fromPeerId (peerConnectionsRef st)) as [pc0 |]; [| cbn; auto].
  destruct (pcs st !! pc0) as [p0 |] eqn:E0; [| cbn; auto].
  destruct (candidate_ok c); [| cbn; auto]. cbn [negb].
  destruct (remoteDescription p0) as [d |] eqn:Ed; cbn [fst snd].
  - cbn. auto.
  - rewrite tasks_update_pc. split; [reflexivity |]. split; [reflexivity |].
    intros Hpc. unfold has_remoteDescription, pending_of in *.
    destruct (Nat.eq_dec pc0 pc) as [<- | Hne].
    + rewrite E0, Ed in Hpc. discriminate.
    + rewrite pcs_update_pc_ne by exact Hne. auto.
Qed.

Lemma has_remoteDescription_Some (st : state) (pc : nat) :
  has_remoteDescription st pc = true -> exists p, pcs st !! pc = Some p.
Proof.
  unfold has_remoteDescription. destruct (pcs st !! pc) as [p |]; [eauto | discriminate].
Qed.









Lemma peerConnectionsRef_update_pc (st : state) (pc : nat)
    (f : PeerConnection -> PeerConnection) :
  peerConnectionsRef (update_pc pc f st) = peerConnectionsRef st.
Proof. unfold update_pc. destruct (pcs st !! pc); reflexivity. Qed.



(** *** The remote description, once set, stays

    This is what lets a flush loop be followed by what is left of the
    queue it started on: the queue of a connection only grows while the
    connection has no remote description, and no handler takes a remote
    description away. *)

Lemma updateConnectionsList_pcs (st : state) : pcs (updateConnectionsList st) = pcs st.
Proof. apply updateConnectionsList_refs. Qed.

Lemma has_remoteDescription_pcs (st st' : state) (pc : nat) :
  pcs st' = pcs st -> has_remoteDescription st' pc = has_remoteDescription st pc.
Proof. unfold has_remoteDescription. intros ->. reflexivity. Qed.

Lemma has_remoteDescription_update_pc (st : state) (pc pc' : nat)
    (f : PeerConnection -> PeerConnection) :
  (forall p, remoteDescription p <> None -> remoteDescription (f p) <> None) ->
  has_remoteDescription st pc = true ->
  has_remoteDescription (update_pc pc' f st) pc = true.
Proof.
  intros Hf H. unfold has_remoteDescription in *.
  destruct (Nat.eq_dec pc' pc) as [-> | Hne].
  - destruct (pcs st !! pc) as [p |] eqn:E; [| discriminate].
    rewrite (pcs_update_pc_eq st pc f p E).
    specialize (Hf p). destruct (remoteDescription p); [| discriminate].
    destruct (remoteDescription (f p)); [reflexivity |].
    exfalso. apply Hf; congruence.
  - rewrite pcs_update_pc_ne by exact Hne. exact H.
Qed.

Lemma has_remoteDescription_new (st : state) (pc : nat) (l : list PeerConnection) :
  has_remoteDescription st pc = true ->
  has_remoteDescription (set_pcs (pcs st ++ l) st) pc = true.
Proof.
  intros H. destruct (has_remoteDescription_Some st pc H) as [p E].
  unfold has_remoteDescription in *. cbn [pcs set_pcs].
  rewrite lookup_app_l by (eapply lookup_lt_Some; exact E). exact H.
Qed.

Lemma createPeerConnection_pcs (st : state) (remote : string) (initiator : bool) :
  exists p, pcs (snd (createPeerConnection remote initiator st)) = pcs st ++ [p].
Proof. destruct initiator; eexists; reflexivity. Qed.

Lemma createPeerConnection_keeps (st : state) (remote : string) (initiator : bool)
    (pc : nat) :
  has_remoteDescription st pc = true ->
  has_remoteDescription (snd (createPeerConnection remote initiator st)) pc = true.
Proof.
  intros H. destruct (createPeerConnection_pcs st remote initiator) as [p Hp].
  rewrite (has_remoteDescription_pcs (set_pcs (pcs st ++ [p]) st)) by exact Hp.
  apply has_remoteDescription_new. exact H.
Qed.

Lemma send_to_pcs (f : File) (pc : nat) (st : state) :
  pcs (fst (send_to f pc st)) = pcs st.
Proof. unfold send_to. destruct (channel_of st pc); reflexivity. Qed.

Lemma sendFile_pcs (f : File) (st : state) : pcs (snd (fst (sendFile f st))) = pcs st.
Proof.
  unfold sendFile. destruct (openConnections st) as [| c conns]; [reflexivity |].
  assert (Hfold : forall l s acc,
             pcs (fst (fold_left
                         (fun '((s, acc) : state * list effect)
                              '((_, pc) : string * nat) =>
                            let '(s', o) := send_to f pc s in (s', acc ++ o))
                         l (s, acc))) = pcs s).
  { induction l as [| [id pc] l IH]; intros s acc; [reflexivity |].
    cbn [fold_left]. pose proof (send_to_pcs f pc s) as Hs.
    destruct (send_to f pc s) as [s' o]. rewrite IH. exact Hs. }
  specialize (Hfold (c :: conns) st []).
  destruct (fold_left _ _ _) as [st' out]. exact Hfold.
Qed.

Lemma sendFileToPeer_pcs (f : File) (remotePeerId : string) (st : state) :
  pcs (snd (fst (sendFileToPeer f remotePeerId st))) = pcs st.
Proof.
  unfold sendFileToPeer.
  destruct (JSMap.get remotePeerId (peerConnectionsRef st)) as [pc |]; [| reflexivity].
  destruct (dataChannel_open st pc); [| reflexivity].
  pose proof (send_to_pcs f pc st) as Hs. destruct (send_to f pc st). exact Hs.
Qed.

Lemma resume_keeps (t : task) (o : outcome) (st : state) (pc : nat) :
  has_remoteDescription st pc = true ->
  has_remoteDescription (fst (fst (resume t o st))) pc = true.
Proof.
  intros H.
  assert (Hflush : forall k pc' rest s,
             has_remoteDescription s pc = true ->
             has_remoteDescription (fst (fst (flush k pc' rest s))) pc = true).
  { intros k pc' rest s Hs. destruct rest as [| c rest']; [| exact Hs].
    cbn [flush].
    assert (Hs' : has_remoteDescription
                    (update_pc pc' (with_pendingIceCandidates []) s) pc = true)
      by (apply has_remoteDescription_update_pc; [intros p Hp; exact Hp | exact Hs]).
    destruct k; exact Hs'. }
  destruct t, o; cbn [resume fst]; try exact H.
  - apply Hflush. apply has_remoteDescription_update_pc; [| exact H].
    intros p _. cbn. discriminate.
  - apply Hflush. exact H.
  - apply has_remoteDescription_update_pc; [intros p Hp; exact Hp | exact H].
  - assert (H' : has_remoteDescription
                   (update_pc pc0 (with_localDescription (Some offer)) st) pc = true)
      by (apply has_remoteDescription_update_pc; [intros p Hp; exact Hp | exact H]).
    unfold ws_send_unguarded.
    destruct (wsRef _) as [[| | |] |]; exact H'.
  - destruct (channel_of st pc0); exact H.
Qed.

Lemma remoteDescription_stays (e : event) (st : state) (pc : nat) :
  has_remoteDescription st pc = true ->
  has_remoteDescription (fst (step candidate_ok e st)) pc = true.
Proof.
  intros H.
  destruct e as [| | | [m |] | | | pc' c | pc' s | pc' s | pc' s | ch | ch | ch
                 | ch d now stamp | t o | remote | f | f remote]; cbn [step].
  - destruct (isInitialized st); exact H.
  - unfold cleanup. destruct (isInitialized st); exact H.
  - exact H.
  - destruct m as [id | from offer | from answer | from c | id | msg |];
      cbn [handleSignalingMessage]; try exact H.
    + destruct (JSMap.has from (peerConnectionsRef st)); [exact H |].
      pose proof (createPeerConnection_keeps st from false pc H) as Hc.
      destruct (createPeerConnection from false st) as [pc' st1]. exact Hc.
    + destruct (JSMap.get from (peerConnectionsRef st)); exact H.
    + apply (candidate_frame st from c pc). exact H.
    + destruct (JSMap.get id (peerConnectionsRef st)); [| exact H].
      cbn [fst]. erewrite has_remoteDescription_pcs; [exact H |].
      rewrite updateConnectionsList_pcs. reflexivity.
  - exact H.
  - exact H.
  - exact H.
  - destruct (pcs st !! pc'), c; exact H.
  - destruct (pcs st !! pc'), s; exact H.
  - destruct (pcs st !! pc') as [p |]; [| exact H].
    destruct s; try exact H; cbn [fst];
      (erewrite has_remoteDescription_pcs;
       [exact H | rewrite updateConnectionsList_pcs; reflexivity]).
  - destruct (pcs st !! pc') as [p |]; [| exact H].
    destruct (isInitiator p); [exact H |]. cbn [fst].
    apply has_remoteDescription_update_pc; [intros q Hq; exact Hq | exact H].
  - destruct (channels st !! ch); [| exact H]. cbn [fst].
    erewrite has_remoteDescription_pcs; [exact H |].
    rewrite updateConnectionsList_pcs.
    unfold set_channel_state. destruct (channels st !! ch); reflexivity.
  - destruct (channels st !! ch); [| exact H]. cbn [fst].
    erewrite has_remoteDescription_pcs; [exact H |].
    rewrite updateConnectionsList_pcs.
    unfold set_channel_state. destruct (channels st !! ch); reflexivity.
  - destruct (channels st !! ch); exact H.
  - destruct (channels st !! ch) as [c |]; [| exact H].
    destruct (pcs st !! owner c) as [p |]; [| exact H].
    destruct d as [[parsed |] | b | b |]; cbn [handleIncomingData]; try exact H.
    destruct (is_file_metadata parsed); exact H.
  - destruct (tasks st !! t) as [[k |] |]; try exact H.
    pose proof (resume_keeps k o st pc H) as Hr.
    destruct (resume k o st) as [[st' out] next]. exact Hr.
  - unfold connectToPeer. destruct (negb (ws_open st)); [exact H |].
    destruct (JSMap.has remote (peerConnectionsRef st)); [exact H |].
    destruct (match peerId st with Some own => String.eqb remote own | None => false end);
      [exact H |].
    pose proof (createPeerConnection_keeps (setStatus connecting st) remote true pc H) as Hc.
    destruct (createPeerConnection remote true (setStatus connecting st)) as [pc' st1].
    exact Hc.
  - pose proof (sendFile_pcs f st) as Hs. destruct (sendFile f st) as [[b st'] out].
    cbn [fst snd] in *. erewrite has_remoteDescription_pcs; [exact H | exact Hs].
  - pose proof (sendFileToPeer_pcs f remote st) as Hs.
    destruct (sendFileToPeer f remote st) as [[b st'] out].
    cbn [fst snd] in *. erewrite has_remoteDescription_pcs; [exact H | exact Hs].
Qed.

(** A queue grows only while its connection has no remote description. *)
Lemma queue_grows_without_description (e : event) (st : state) (pc : nat) :
  has_remoteDescription st pc = true ->
  pending_of (fst (step candidate_ok e st)) pc = pending_of st pc
  \/ pending_of (fst (step candidate_ok e st)) pc = [].
Proof.
  intros H.
  assert (Hsame : forall st', pcs st' = pcs st -> pending_of st' pc = pending_of st pc)
    by (intros st' E; unfold pending_of; rewrite E; reflexivity).
  assert (Hupd : forall pc' f s,
             (forall p, pendingIceCandidates (f p) = pendingIceCandidates p) ->
             pending_of (update_pc pc' f s) pc = pending_of s pc).
  { intros pc' f s Hf. unfold pending_of.
    destruct (Nat.eq_dec pc' pc) as [-> | Hne].
    - destruct (pcs s !! pc) as [p |] eqn:E.
      + rewrite (pcs_update_pc_eq s pc f p E). apply Hf.
      + unfold update_pc. rewrite E, E. reflexivity.
    - rewrite pcs_update_pc_ne by exact Hne. reflexivity. }
  assert (Hclear : forall pc' s,
             pending_of (update_pc pc' (with_pendingIceCandidates []) s) pc = pending_of s pc
             \/ pending_of (update_pc pc' (with_pendingIceCandidates []) s) pc = []).
  { intros pc' s. unfold pending_of.
    destruct (Nat.eq_dec pc' pc) as [-> | Hne].
    - destruct (pcs s !! pc) as [p |] eqn:E.
      + rewrite (pcs_update_pc_eq s pc _ p E). right. reflexivity.
      + unfold update_pc. rewrite E, E. left. reflexivity.
    - rewrite pcs_update_pc_ne by exact Hne. left. reflexivity. }
  assert (Hnew : forall s l, is_Some (pcs s !! pc) ->
             pending_of (set_pcs (pcs s ++ l) s) pc = pending_of s pc).
  { intros s l [p E]. unfold pending_of. cbn [pcs set_pcs].
    rewrite lookup_app_l by (eapply lookup_lt_Some; exact E). reflexivity. }
  pose proof (has_remoteDescription_Some st pc H) as [p0 Hp0].
  destruct e as [| | | [m |] | | | pc' c | pc' s | pc' s | pc' s | ch | ch | ch
                 | ch d now stamp | t o | remote | f | f remote]; cbn [step];
    try (left; reflexivity).
  - destruct (isInitialized st); left; reflexivity.
  - unfold cleanup. destruct (isInitialized st); left; reflexivity.
  - destruct m as [id | from offer | from answer | from c | id | msg |];
      cbn [handleSignalingMessage]; try (left; reflexivity).
    + destruct (JSMap.has from (peerConnectionsRef st)); [left; reflexivity |].
      left. destruct (createPeerConnection_pcs st from false) as [p Hp].
      destruct (createPeerConnection from false st) as [pc' st1]. cbn [fst snd] in *.
      unfold pending_of. cbn [pcs suspend set_tasks]. rewrite Hp.
      rewrite lookup_app_l by (eapply lookup_lt_Some; exact Hp0). reflexivity.
    + destruct (JSMap.get from (peerConnectionsRef st)); left; reflexivity.
    + left. apply (candidate_frame st from c pc). exact H.
    + destruct (JSMap.get id (peerConnectionsRef st)); left; [| reflexivity].
      cbn [fst]. apply Hsame. rewrite updateConnectionsList_pcs. reflexivity.
  - destruct (pcs st !! pc'), c; left; reflexivity.
  - destruct (pcs st !! pc'), s; left; reflexivity.
  - destruct (pcs st !! pc') as [p |]; [| left; reflexivity].
    destruct s; left; try reflexivity; cbn [fst]; apply Hsame;
      rewrite updateConnectionsList_pcs; reflexivity.
  - destruct (pcs st !! pc') as [p |]; [| left; reflexivity].
    destruct (isInitiator p); left; [reflexivity |]. cbn [fst].
    rewrite Hupd by reflexivity. reflexivity.
  - destruct (channels st !! ch); left; [| reflexivity]. cbn [fst]. apply Hsame.
    rewrite updateConnectionsList_pcs.
    unfold set_channel_state. destruct (channels st !! ch); reflexivity.
  - destruct (channels st !! ch); left; [| reflexivity]. cbn [fst]. apply Hsame.
    rewrite updateConnectionsList_pcs.
    unfold set_channel_state. destruct (channels st !! ch); reflexivity.
  - destruct (channels st !! ch); left; reflexivity.
  - destruct (channels st !! ch) as [c |]; [| left; reflexivity].
    destruct (pcs st !! owner c) as [p |]; [| left; reflexivity].
    destruct d as [[parsed |] | b | b |]; cbn [handleIncomingData]; left; try reflexivity.
    destruct (is_file_metadata parsed); reflexivity.
  - destruct (tasks st !! t) as [[k |] |]; try (left; reflexivity).
    assert (Hflush : forall kind pc' rest s,
               pending_of (fst (fst (flush kind pc' rest s))) pc = pending_of s pc
               \/ pending_of (fst (fst (flush kind pc' rest s))) pc = []).
    { intros kind pc' rest s. destruct rest as [| c rest']; [| left; reflexivity].
      cbn [flush]. destruct kind; cbn [fst]; apply Hclear. }
    assert (Hres : pending_of (fst (fst (resume k o st))) pc = pending_of st pc
                   \/ pending_of (fst (fst (resume k o st))) pc = []).
    { destruct k, o; cbn [resume fst]; try (left; reflexivity).
      - destruct (Hflush k pc0 (pending_of
                    (update_pc pc0 (with_remoteDescription (Some d)) st) pc0)
                    (update_pc pc0 (with_remoteDescription (Some d)) st)) as [E | E].
        + left. rewrite E. apply Hupd. reflexivity.
        + right. exact E.
      - apply Hflush.
      - left. apply Hupd. reflexivity.
      - left. unfold ws_send_unguarded.
        destruct (wsRef _) as [[| | |] |]; cbn [fst]; apply Hupd; reflexivity.
      - destruct (channel_of st pc0); left; reflexivity. }
    destruct (resume k o st) as [[st' out] next]. exact Hres.
  - unfold connectToPeer. destruct (negb (ws_open st)); [left; reflexivity |].
    destruct (JSMap.has remote (peerConnectionsRef st)); [left; reflexivity |].
    destruct (match peerId st with Some own => String.eqb remote own | None => false end);
      [left; reflexivity |].
    left. destruct (createPeerConnection_pcs (setStatus connecting st) remote true)
      as [p Hp].
    destruct (createPeerConnection remote true (setStatus connecting st)) as [pc' st1].
    cbn [fst snd] in *. unfold pending_of. cbn [pcs suspend set_tasks]. rewrite Hp.
    cbn [pcs setStatus].
    rewrite lookup_app_l by (eapply lookup_lt_Some; exact Hp0). reflexivity.
  - left. pose proof (sendFile_pcs f st) as Hs. destruct (sendFile f st) as [[b st'] out].
    cbn [fst snd] in *. apply Hsame. exact Hs.
  - left. pose proof (sendFileToPeer_pcs f remote st) as Hs.
    destruct (sendFileToPeer f remote st) as [[b st'] out].
    cbn [fst snd] in *. apply Hsame. exact Hs.
Qed.

End WebRTCFacts.

(** ** Simultaneous connection attempts *)

Section TieBreak.

Import PeerJS.

Lemma DataConnection_eqb_eq (a b : DataConnection) :
  DataConnection_eqb a b = true <-> a = b.
Proof.
  unfold DataConnection_eqb. destruct a as [ca pa], b as [cb pb]. cbn.
  rewrite andb_true_iff, Nat.eqb_eq, String.eqb_eq.
  split; [intros [-> ->]; reflexivity | intros [= -> ->]; auto].
Qed.

Lemma DataConnection_eqb_refl (a : DataConnection) : DataConnection_eqb a a = true.
Proof. apply DataConnection_eqb_eq. reflexivity. Qed.

Lemma connectionsRef_conn_open (c : DataConnection) (st : state) :
  connectionsRef (conn_open c st) = JSMap.set (peer c) c (connectionsRef st).
Proof. reflexivity. Qed.

(** C2, as the code has it.  In the PeerJS hook, when a connection comes
    in from a peer that already has a connection in the registry, the
    identifiers alone decide: the endpoint whose identifier is the smaller
    closes the one that comes in and keeps the registered one; the other
    endpoint closes the registered one, takes it out of the registry and
    serves the one that comes in, which is entered when it opens.  The
    registry never has two records for one identifier.  In the
    relay-signalled hook an offer from a peer that has a record is dropped,
    whatever the order of the identifiers. *)
Theorem duplicate_connection_resolved (candidate_ok : option json -> bool)
    (st : state) (out inc : DataConnection)
    (wst : WebRTC.state) (fromPeerId : string) (offer : option json) :
  JSMap.get (peer inc) (connectionsRef st) = Some out ->
  serves out st = true ->
  serves inc st = false ->
  tie_break st out inc
  /\ (NoDup (JSMap.keys (connectionsRef st)) ->
      NoDup (JSMap.keys (connectionsRef (fst (on_connection inc st))))
      /\ NoDup (JSMap.keys (connectionsRef (conn_open inc (fst (on_connection inc st))))))
  /\ (String.ltb (id st) (peer inc) = true ->
      JSMap.get (peer inc) (connectionsRef (fst (on_connection inc st))) = Some out)
  /\ (String.ltb (id st) (peer inc) = false ->
      JSMap.get (peer inc) (connectionsRef (fst (on_connection inc st))) = None
      /\ JSMap.get (peer inc)
           (connectionsRef (conn_open inc (fst (on_connection inc st)))) = Some inc)
  /\ (JSMap.has fromPeerId (WebRTC.peerConnectionsRef wst) = true ->
      WebRTC.handleSignalingMessage candidate_ok (WebRTC.SigOffer fromPeerId offer) wst
      = (wst, [])).
Proof.
  intros Hget Hout Hinc.
  assert (Hne : DataConnection_eqb out inc = false).
  { destruct (DataConnection_eqb out inc) eqn:E; [| reflexivity].
    apply DataConnection_eqb_eq in E. subst. congruence. }
  assert (Hne' : DataConnection_eqb inc out = false).
  { destruct (DataConnection_eqb inc out) eqn:E; [| reflexivity].
    apply DataConnection_eqb_eq in E. subst. congruence. }
  unfold tie_break, on_connection. rewrite Hget.
  destruct (String.ltb (id st) (peer inc)) eqn:Hlt; cbn [fst snd].
  - split; [| split; [| split; [| split]]].
    + unfold closes. cbn [existsb]. rewrite DataConnection_eqb_refl, Hne.
      repeat split; assumption.
    + intros Hnd. split; [exact Hnd |].
      rewrite connectionsRef_conn_open. apply NoDup_keys_set. exact Hnd.
    + intros _. exact Hget.
    + discriminate.
    + apply offer_with_record.
  - split; [| split; [| split; [| split]]].
    + unfold closes, serves. cbn [existsb handled handleConnection].
      rewrite !DataConnection_eqb_refl, Hne'. repeat split.
    + intros Hnd. rewrite connectionsRef_conn_open.
      change (connectionsRef (handleConnection inc (set_connectionsRef ?m st))) with m.
      split.
      * apply NoDup_keys_delete. exact Hnd.
      * apply NoDup_keys_set, NoDup_keys_delete. exact Hnd.
    + discriminate.
    + intros _. rewrite connectionsRef_conn_open.
      change (connectionsRef (handleConnection inc (set_connectionsRef ?m st))) with m.
      split; [apply get_delete_eq | apply get_set_eq].
    + apply offer_with_record.
Qed.

(** The tie-break does not hold whatever the timing.  When the attempts
    cross before either has opened, neither [B] nor [A] closes anything
    when the other's connection comes in, and once both connections have
    opened the endpoint serves the two of them.  In the relay-signalled
    hook [bob], whose identifier is the larger, keeps his own record when
    the offer of [alice] comes in. *)
Lemma crossed_attempts_unresolved :
  ~ tie_break (dialing "B" "A") {| conn := 0; peer := "A" |} {| conn := 1; peer := "A" |}
  /\ ~ tie_break (dialing "A" "B") {| conn := 0; peer := "B" |} {| conn := 1; peer := "B" |}
  /\ (let st := conn_open {| conn := 0; peer := "A" |}
                  (conn_open {| conn := 1; peer := "A" |}
                     (fst (on_connection {| conn := 1; peer := "A" |} (dialing "B" "A")))) in
      serves {| conn := 0; peer := "A" |} st = true
      /\ serves {| conn := 1; peer := "A" |} st = true
      /\ snd (on_connection {| conn := 1; peer := "A" |} (dialing "B" "A")) = [])
  /\ (let bob := fst (WebRTC.run WebRTC.any_candidate
                        [WebRTC.Mount; WebRTC.WsOpen;
                         WebRTC.WsMessage (Some (WebRTC.SigPeerId "bob"));
                         WebRTC.CallConnectToPeer "alice"] WebRTC.initial) in
      String.ltb "bob" "alice" = false
      /\ WebRTC.step WebRTC.any_candidate
           (WebRTC.WsMessage (Some (WebRTC.SigOffer "alice" (WebRTC.sdp "offer")))) bob
         = (bob, [])
      /\ JSMap.get "alice" (WebRTC.peerConnectionsRef bob) = Some 0%nat).
Proof.
  split; [| split; [| split]].
  - unfold tie_break. vm_compute. intros (H & _). discriminate H.
  - unfold tie_break. vm_compute. intros (H & _). discriminate H.
  - vm_compute. auto.
  - vm_compute. auto.
Qed.

Lemma duplicate_connection_resolved_witness :
  JSMap.get "A" (connectionsRef (linked "B" "A")) = Some {| conn := 0; peer := "A" |}
  /\ tie_break (linked "B" "A") {| conn := 0; peer := "A" |} {| conn := 1; peer := "A" |}.
Proof.
  split; [reflexivity |].
  apply (duplicate_connection_resolved WebRTC.any_candidate
           (linked "B" "A") {| conn := 0; peer := "A" |} {| conn := 1; peer := "A" |}
           WebRTC.initial "A" None); reflexivity.
Defined.

End TieBreak.

(** ** The properties on concrete runs *)

Section Scenarios.

(** [report.pdf], 40000 bytes: the metadata, frames of 16384, 16384 and
    7232 bytes, the end marker; 40000 bytes are put together. *)
Example report_pdf_transfer :
  option_map (fun r => Manual.sent (snd r)) (Manual.transfer (Manual.ready Manual.report_pdf))
  = Some (Manual.Text
            (Some (JObj [("type", JStr "file-meta"); ("name", JStr "report.pdf");
                         ("size", JNum 40000%Z)]))
          :: map Manual.ArrayBuffer
               [repeat Byte.x25 (Z.to_nat 16384%Z); repeat Byte.x25 (Z.to_nat 16384%Z);
                repeat Byte.x25 (Z.to_nat 7232%Z)]
          ++ [Manual.Text
                (Some (JObj [("type", JStr "file-end"); ("name", JStr "report.pdf")]))])
  /\ option_map
       (fun r => option_map (fun f => Manual.byteLength (snd f))
                   (Manual.receivedFile
                      (Manual.receive Manual.blob (Manual.sent (snd r)) Manual.idle)))
       (Manual.transfer (Manual.ready Manual.report_pdf))
     = Some (Some 40000%Z).
Proof. split; vm_compute; reflexivity. Qed.


(** An offer to [ghost], who is not registered. *)
Example offer_to_ghost :
  Hub.on_message Hub.carol_closing "alice" 0 (Some (JObj (Hub.offer_to "ghost")))
    Hub.three_peers
  = (Hub.three_peers,
     [Hub.Send 0 (JObj [("type", JStr "error");
                        ("message", JStr "Peer ghost not available")])]).
Proof. reflexivity. Qed.


Lemma three_peers_wf : Hub.wf Hub.three_peers.
Proof.
  split; cbn; repeat (apply NoDup_cons; split; [rewrite list_elem_of_In; cbn; intuition congruence |]);
    apply NoDup_nil; exact I.
Defined.


(** Endpoint [alice] leaves: [bob] is told once, [carol], whose socket is
    closing, is not. *)
Example alice_leaves :
  Hub.on_close Hub.carol_closing "alice" Hub.three_peers
  = ([("bob", 1); ("carol", 2)],
     [Hub.Send 1 (JObj [("type", JStr "peer-disconnected"); ("peerId", JStr "alice")])]).
Proof. reflexivity. Qed.

Import WebRTC.



(** The status is not a function of the list and of the relay link.  The
    relay link goes down while the channel to [bob] is open: the status is
    [error] with a connection in the list.  The transport reports the
    connection as connected, which recomputes the status to [connected];
    the channel then closes, and the recomputation leaves [connected] with
    an empty list and the relay link down, where the derivation of the
    specification gives [error]. *)
Lemma status_not_rederived :
  let down := fst (run any_candidate relay_lost initial) in
  let st := fst (run any_candidate relay_lost_channel_closed initial) in
  (connections down = ["bob"] /\ status down = error)
  /\ connections st = []
  /\ ws_open st = false
  /\ status st = connected
  /\ status (updateConnectionsList st) = connected
  /\ derived_status (connections (updateConnectionsList st)) (ws_open st) = error
  /\ status (updateConnectionsList st)
     <> derived_status (connections (updateConnectionsList st)) (ws_open st).
Proof. vm_compute. repeat split; try reflexivity. discriminate. Qed.

(** With the relay link up the same events end in [disconnected]. *)
Example status_with_relay :
  status (fst (run any_candidate (negotiated ++ [ChannelOpen 0; ChannelClose 0]) initial))
  = disconnected
  /\ connections (fst (run any_candidate bob_open initial)) = ["bob"]
  /\ status (fst (run any_candidate bob_open initial)) = connected.
Proof. vm_compute. auto. Qed.

Lemma duplicate_offer_noop_witness :
  let st := fst (run any_candidate dial_bob initial) in
  JSMap.has "bob" (peerConnectionsRef st) = true
  /\ step any_candidate (WsMessage (Some (SigOffer "bob" (sdp "offer")))) st = (st, []).
Proof.
  cbn zeta. split; [reflexivity |].
  destruct (duplicate_offer_noop any_candidate
              (fst (run any_candidate dial_bob initial)) "bob" (sdp "offer"))
    as [Hdrop _].
  apply Hdrop. reflexivity.
Defined.

Lemma send_needs_open_channel_witness :
  let st := fst (run any_candidate dial_bob initial) in
  dataChannel_open st 0 = false
  /\ sendFile photo_png st = (false, st, [])
  /\ sendFileToPeer photo_png "bob" st = (false, st, [])
  /\ sendFileToPeer photo_png "carol" st = (false, st, []).
Proof.
  cbn zeta. split; [reflexivity |].
  destruct (send_needs_open_channel photo_png (fst (run any_candidate dial_bob initial)))
    as (Hall & _ & Hnone & Hclosed & _).
  split; [| split].
  - apply Hall. intros id pc [[= <- <-] | []]. reflexivity.
  - apply (Hclosed "bob" 0); reflexivity.
  - apply Hnone. reflexivity.
Defined.

(** With the channel to [bob] open, [sendFile] returns [true] and the
    metadata goes out at once; the bytes follow when they have been read. *)
Example send_to_bob :
  let st := fst (run any_candidate bob_open initial) in
  fst (fst (sendFile photo_png st)) = true
  /\ snd (sendFile photo_png st)
     = [ChannelSend 0 (DString (Some (file_metadata photo_png)))]
  /\ snd (run any_candidate [CallSendFile photo_png; Settle 2 (Resolved None)] st)
     = [ChannelSend 0 (DString (Some (file_metadata photo_png)));
        ChannelSend 0 (DArrayBuffer (bytes photo_png))].
Proof. vm_compute. auto. Qed.

Lemma metadata_consumed_once_witness :
  let st := fst (handleIncomingData (DString (Some (file_metadata photo_png)))
                   "bob" 0%Z 0%Z initial) in
  JSMap.get "bob" (fileMetadataRef st) = Some (file_metadata photo_png)
  /\ snd (handleIncomingData (DArrayBuffer (bytes photo_png)) "bob" 1700000000000%Z 1%Z st)
     = [DownloadFile (bytes photo_png) (JStr "photo.png")]
  /\ snd (handleIncomingData (DBlob (bytes photo_png)) "bob" 1700000000001%Z 2%Z
            (fst (handleIncomingData (DArrayBuffer (bytes photo_png)) "bob"
                    1700000000000%Z 1%Z st)))
     = [DownloadFile (bytes photo_png) (JStr "file-1700000000001")].
Proof.
  cbn zeta. split; [reflexivity |].
  destruct (metadata_consumed_once
              (DArrayBuffer (bytes photo_png)) (DBlob (bytes photo_png))
              (bytes photo_png) (bytes photo_png) "bob"
              1700000000000%Z 1%Z 1700000000001%Z 2%Z
              (fst (handleIncomingData (DString (Some (file_metadata photo_png)))
                      "bob" 0%Z 0%Z initial))
              eq_refl eq_refl) as (Hout1 & Hname & _ & _ & Hout2 & _).
  split.
  - rewrite Hout1.
    rewrite (Hname [("type", JStr "file-metadata"); ("name", JStr "photo.png");
                    ("size", JNum 4%Z); ("mimeType", JStr "image/png")] "photo.png"
               eq_refl eq_refl);
      [reflexivity | discriminate].
  - exact Hout2.
Defined.

End Scenarios.

(** * Further properties *)

(** ** The signalling server: the other messages *)

Section HubMore.

Variable rs : Hub.socket -> Hub.readyState.

(** Sends decided entry by entry, as the two [forEach] loops do. *)
Lemma sends_absent (cond : string -> Hub.socket -> bool) (msg : json)
    (m : Hub.registry) (w : Hub.socket) :
  (forall p, In (p, w) m -> cond p w = false) ->
  Hub.sent_to w
    (flat_map (fun '(p, w') => if cond p w' then [Hub.Send w' msg] else []) m) = [].
Proof.
  induction m as [| [p w'] m IH]; cbn; [reflexivity |].
  intros Hcond. destruct (cond p w') eqn:E; cbn.
  - destruct (Nat.eqb_spec w' w) as [-> | Hne].
    + rewrite (Hcond p (or_introl eq_refl)) in E. discriminate.
    + cbn. apply IH. intros q Hq. apply Hcond. right. exact Hq.
  - apply IH. intros q Hq. apply Hcond. right. exact Hq.
Qed.

Lemma sends_once (cond : string -> Hub.socket -> bool) (msg : json)
    (m : Hub.registry) (p : string) (w : Hub.socket) :
  NoDup (map snd m) -> In (p, w) m -> cond p w = true ->
  Hub.sent_to w
    (flat_map (fun '(p, w') => if cond p w' then [Hub.Send w' msg] else []) m) = [msg].
Proof.
  intros Hnd Hin Hcond. induction m as [| [p' w'] m IH]; [destruct Hin |].
  cbn in Hnd. apply NoDup_cons in Hnd as [Hnotin Hnd]. rewrite list_elem_of_In in Hnotin.
  cbn [flat_map]. unfold Hub.sent_to in *. rewrite flat_map_app.
  destruct Hin as [Heq | Hin].
  - injection Heq as -> ->. rewrite Hcond. cbn. rewrite Nat.eqb_refl. cbn. f_equal.
    apply (sends_absent cond msg m w). intros q Hq. exfalso. apply Hnotin.
    change w with (snd (q, w)). apply in_map. exact Hq.
  - assert (Hne : w' <> w).
    { intros ->. apply Hnotin. change w with (snd (p, w)). apply in_map. exact Hin. }
    rewrite (IH Hnd Hin).
    destruct (cond p' w'); cbn; [| reflexivity].
    destruct (Nat.eqb_spec w' w); [contradiction | reflexivity].
Qed.

Lemma sends_In (cond : string -> Hub.socket -> bool) (msg : json)
    (m : Hub.registry) (w : Hub.socket) (payload : json) :
  In (Hub.Send w payload)
    (flat_map (fun '(p, w') => if cond p w' then [Hub.Send w' msg] else []) m) ->
  payload = msg /\ exists p, In (p, w) m /\ cond p w = true.
Proof.
  intros H. apply in_flat_map in H as ([p w'] & Hin & Hsend).
  destruct (cond p w') eqn:E; [| destruct Hsend].
  destruct Hsend as [Heq | []]. injection Heq as <- <-. eauto.
Qed.

(** X1. A [list-peers] request is answered with one [peer-list] message,
    sent to the requester and to nobody else.  It lists, in registration
    order, the registered identifiers other than the requester's own: the
    requester is never in its own list, and no identifier is listed twice.
    The registry is not changed. *)
Theorem list_peers_reply (peerId : string) (ws : Hub.socket)
    (fields : list (string * json)) (peers : Hub.registry) :
  JSMap.get "type" fields = Some (JStr "list-peers") ->
  exists ids,
    Hub.on_message rs peerId ws (Some (JObj fields)) peers
    = (peers, [Hub.Send ws (Hub.peer_list_msg ids)])
    /\ ids = List.filter (fun id => negb (String.eqb id peerId)) (JSMap.keys peers)
    /\ (forall id, In id ids <-> id <> peerId /\ JSMap.get id peers <> None)
    /\ ~ In peerId ids
    /\ (NoDup (JSMap.keys peers) -> NoDup ids).
Proof.
  intros Hty. eexists. split; [| split; [reflexivity |]].
  - unfold Hub.on_message. rewrite Hty. reflexivity.
  - split; [| split].
    + intros id. rewrite filter_In, negb_true_iff, String.eqb_neq.
      split.
      * intros [Hin Hne]. split; [exact Hne |]. intros Hnone.
        apply get_None_keys in Hnone. contradiction.
      * intros [Hne Hsome]. split; [| exact Hne].
        destruct (in_dec string_dec id (JSMap.keys peers)) as [Hin | Hnotin];
          [exact Hin |].
        exfalso. apply Hsome. apply get_None_keys. exact Hnotin.
    + rewrite filter_In, String.eqb_refl. intros [_ H]. discriminate H.
    + intros Hnd. apply NoDup_ListNoDup, List.NoDup_filter, NoDup_ListNoDup. exact Hnd.
Qed.

(** X2. A [broadcast] from a registered endpoint reaches every other
    registered endpoint whose socket is open exactly once, as a
    [broadcast] message tagged with the sender's identifier and carrying
    the sender's [data]; the sender itself and the endpoints whose socket
    is not open are sent nothing, and the registry is not changed. *)
Theorem broadcast_reaches_others (peerId : string) (ws : Hub.socket)
    (fields : list (string * json)) (peers : Hub.registry) :
  Hub.wf peers ->
  JSMap.get peerId peers = Some ws ->
  JSMap.get "type" fields = Some (JStr "broadcast") ->
  let r := Hub.on_message rs peerId ws (Some (JObj fields)) peers in
  let msg := Hub.broadcast_msg peerId (JSMap.get "data" fields) in
  fst r = peers
  /\ (forall p w, p <> peerId -> JSMap.get p peers = Some w -> rs w = Hub.OPEN ->
        Hub.sent_to w (snd r) = [msg])
  /\ (forall w, rs w <> Hub.OPEN -> Hub.sent_to w (snd r) = [])
  /\ Hub.sent_to ws (snd r) = []
  /\ (forall w payload, In (Hub.Send w payload) (snd r) ->
        payload = msg
        /\ rs w = Hub.OPEN
        /\ exists p, p <> peerId /\ JSMap.get p peers = Some w).
Proof.
  intros [Hkeys Hsockets] Hself Hty. cbn zeta.
  assert (Hrun : Hub.on_message rs peerId ws (Some (JObj fields)) peers
                 = (peers,
                    flat_map
                      (fun '(p, w') =>
                         if negb (String.eqb p peerId)
                            && Hub.readyState_eqb (rs w') Hub.OPEN
                         then [Hub.Send w' (Hub.broadcast_msg peerId (JSMap.get "data" fields))]
                         else [])
                      peers)).
  { unfold Hub.on_message. rewrite Hty. reflexivity. }
  rewrite Hrun. cbn [fst snd]. split; [reflexivity |].
  assert (Hown : forall p w, In (p, w) peers -> In (peerId, w) peers -> p = peerId).
  { intros p w Hp Hq. pose proof (In_get peers p w Hkeys Hp) as Gp.
    clear - Hsockets Hp Hq. induction peers as [| [q v] m IH]; [destruct Hp |].
    cbn in Hsockets. apply NoDup_cons in Hsockets as [Hnotin Hnd].
    rewrite list_elem_of_In in Hnotin.
    destruct Hp as [E1 | Hp], Hq as [E2 | Hq].
    - congruence.
    - injection E1 as -> ->. exfalso. apply Hnotin.
      change w with (snd (peerId, w)). apply in_map. exact Hq.
    - injection E2 as -> ->. exfalso. apply Hnotin.
      change w with (snd (p, w)). apply in_map. exact Hp.
    - auto. }
  split; [| split; [| split]].
  - intros p w Hp Hget Hopen.
    apply (sends_once (fun p w' => negb (String.eqb p peerId)
                                   && Hub.readyState_eqb (rs w') Hub.OPEN) _ peers p w).
    + exact Hsockets.
    + apply get_In. exact Hget.
    + rewrite Hopen. cbn. rewrite andb_true_r, negb_true_iff, String.eqb_neq. exact Hp.
  - intros w Hclosed.
    apply (sends_absent (fun p w' => negb (String.eqb p peerId)
                                     && Hub.readyState_eqb (rs w') Hub.OPEN)).
    intros p _. apply andb_false_iff. right.
    destruct (rs w); cbn; congruence.
  - apply (sends_absent (fun p w' => negb (String.eqb p peerId)
                                     && Hub.readyState_eqb (rs w') Hub.OPEN)).
    intros p Hp. apply andb_false_iff. left.
    rewrite (Hown p ws Hp (get_In peers peerId ws Hself)), String.eqb_refl. reflexivity.
  - intros w payload Hin.
    apply (sends_In (fun p w' => negb (String.eqb p peerId)
                                 && Hub.readyState_eqb (rs w') Hub.OPEN)) in Hin
      as (Hpayload & p & Hp & Hcond).
    apply andb_true_iff in Hcond as [Hne Hopen].
    rewrite negb_true_iff, String.eqb_neq in Hne.
    split; [exact Hpayload |]. split.
    + destruct (rs w); cbn in Hopen; congruence.
    + exists p. split; [exact Hne | apply In_get; assumption].
Qed.


(** X4. The hub writes to open sockets only, the sender's own apart:
    whatever the message, each send it causes goes to the sender or to a
    registered socket that is open; the notices of a disconnect go to
    registered open sockets of other identifiers. *)
Theorem hub_sends_to_open_or_sender (peerId : string) (ws : Hub.socket)
    (peers : Hub.registry) :
  (forall message w payload,
     In (Hub.Send w payload) (snd (Hub.on_message rs peerId ws message peers)) ->
     w = ws \/ (rs w = Hub.OPEN /\ exists p, In (p, w) peers))
  /\ (forall w payload,
        In (Hub.Send w payload) (snd (Hub.on_close rs peerId peers)) ->
        rs w = Hub.OPEN /\ exists p, p <> peerId /\ In (p, w) peers).
Proof.
  split.
  - intros message w payload Hin. unfold Hub.on_message in Hin.
    destruct message as [[| b | n | s | l | fields] |]; cbn in Hin;
      try (destruct Hin as [[= <- _] | []]; left; reflexivity); try (destruct Hin).
    destruct (JSMap.get "type" fields) as [[| b | n | ty | l | o] |];
      try (destruct Hin).
    destruct (String.eqb ty "offer" || String.eqb ty "answer"
              || String.eqb ty "ice-candidate").
    + cbn [snd] in Hin. unfold Hub.forward in Hin.
      destruct (Hub.lookup_target _ peers) as [t |] eqn:Ht.
      * destruct (Hub.readyState_eqb (rs t) Hub.OPEN) eqn:Eo;
          destruct Hin as [[= <- _] | []]; [right | left; reflexivity].
        split; [apply readyState_eqb_eq; exact Eo |].
        unfold Hub.lookup_target in Ht.
        destruct (JSMap.get "targetPeerId" fields) as [[| | | s | |] |]; try discriminate.
        exists s. apply get_In. exact Ht.
      * destruct Hin as [[= <- _] | []]. left. reflexivity.
    + destruct (String.eqb ty "list-peers").
      * destruct Hin as [[= <- _] | []]. left. reflexivity.
      * destruct (String.eqb ty "broadcast"); [| destruct Hin].
        cbn [snd] in Hin. unfold Hub.broadcast, JSMap.entries in Hin.
        apply (sends_In (fun p w' => negb (String.eqb p peerId)
                                     && Hub.readyState_eqb (rs w') Hub.OPEN)) in Hin
          as (_ & p & Hp & Hcond).
        apply andb_true_iff in Hcond as [_ Hopen]. right.
        split; [apply readyState_eqb_eq; exact Hopen | eauto].
  - intros w payload Hin. cbn [snd Hub.on_close] in Hin.
    unfold Hub.notices, JSMap.entries in Hin.
    apply (sends_In (fun _ w' => Hub.readyState_eqb (rs w') Hub.OPEN)) in Hin
      as (_ & p & Hp & Hopen).
    apply In_delete in Hp as [Hp Hne].
    split; [apply readyState_eqb_eq; exact Hopen | eauto].
Qed.

Lemma delete_set_absent {V : Type} (m : JSMap.t V) (k : string) (v : V) :
  JSMap.get k m = None -> JSMap.delete k (JSMap.set k v m) = m.
Proof.
  induction m as [| [k' v'] m IH]; cbn.
  - rewrite String.eqb_refl. reflexivity.
  - destruct (String.eqb k k') eqn:E; [discriminate |].
    intros H. cbn. rewrite E, IH by exact H. reflexivity.
Qed.

(** X5. An endpoint that connects under an identifier not yet in use is
    entered last in the registry with its socket, is sent its [peer-id]
    and nothing else, and no other entry changes; when it then
    disconnects the registry is what it was before, and the notices go to
    the open sockets that were there. *)
Theorem connect_then_close (peerId : string) (ws : Hub.socket) (peers : Hub.registry) :
  JSMap.get peerId peers = None ->
  let joined := fst (Hub.on_connection peerId ws peers) in
  snd (Hub.on_connection peerId ws peers) = [Hub.Send ws (Hub.peer_id_msg peerId)]
  /\ JSMap.get peerId joined = Some ws
  /\ (forall p, p <> peerId -> JSMap.get p joined = JSMap.get p peers)
  /\ JSMap.keys joined = JSMap.keys peers ++ [peerId]
  /\ Hub.on_close rs peerId joined = (peers, Hub.notices rs peerId peers).
Proof.
  intros Hfresh. cbn zeta. cbn [fst snd Hub.on_connection].
  split; [reflexivity |]. split; [apply get_set_eq |]. split; [| split].
  - intros p Hp. apply get_set_ne. congruence.
  - apply keys_set_absent. exact Hfresh.
  - unfold Hub.on_close. rewrite delete_set_absent by exact Hfresh. reflexivity.
Qed.

(** X6. The registry stays well formed, with one entry per identifier and
    one identifier per socket, through every handler: a connection that
    brings a socket of its own, any message, any disconnect.  Should two
    connections be given the same identifier, the later one takes the
    entry over: the identifier then leads to the later socket only, and
    the number of entries does not grow. *)
Theorem registry_well_formed (peers : Hub.registry) (peerId : string) (ws : Hub.socket)
    (message : option json) :
  Hub.wf peers ->
  (~ In ws (map snd peers) -> Hub.wf (fst (Hub.on_connection peerId ws peers)))
  /\ Hub.wf (fst (Hub.on_message rs peerId ws message peers))
  /\ Hub.wf (fst (Hub.on_close rs peerId peers))
  /\ (JSMap.get peerId peers <> None ->
      JSMap.get peerId (fst (Hub.on_connection peerId ws peers)) = Some ws
      /\ JSMap.keys (fst (Hub.on_connection peerId ws peers)) = JSMap.keys peers).
Proof.
  intros Hwf. destruct (wf_preserved rs peers peerId ws message Hwf) as (H1 & H2 & H3).
  split; [exact H1 |]. split; [exact H2 |]. split; [exact H3 |].
  intros Hused. cbn [fst Hub.on_connection].
  split; [apply get_set_eq | apply keys_set_present; exact Hused].
Qed.

End HubMore.

Section HubMoreScenarios.

Lemma list_peers_reply_witness :
  Hub.on_message Hub.carol_closing "bob" 1
    (Some (JObj [("type", JStr "list-peers")])) Hub.three_peers
  = (Hub.three_peers, [Hub.Send 1 (Hub.peer_list_msg ["alice"; "carol"])]).
Proof.
  destruct (list_peers_reply Hub.carol_closing "bob" 1 [("type", JStr "list-peers")]
              Hub.three_peers eq_refl) as (ids & Hrun & Hids & _).
  rewrite Hrun, Hids. reflexivity.
Defined.

Lemma broadcast_reaches_others_witness :
  let r := Hub.on_message Hub.carol_closing "alice" 0
             (Some (JObj [("type", JStr "broadcast"); ("data", JStr "hello")]))
             Hub.three_peers in
  Hub.sent_to 1 (snd r) = [Hub.broadcast_msg "alice" (Some (JStr "hello"))]
  /\ Hub.sent_to 2 (snd r) = []
  /\ Hub.sent_to 0 (snd r) = [].
Proof.
  destruct (broadcast_reaches_others Hub.carol_closing "alice" 0
              [("type", JStr "broadcast"); ("data", JStr "hello")]
              Hub.three_peers three_peers_wf eq_refl eq_refl)
    as (_ & Hopen & Hclosed & Hself & _).
  split; [| split].
  - apply (Hopen "bob" 1); [discriminate | reflexivity | reflexivity].
  - apply Hclosed. discriminate.
  - exact Hself.
Defined.


Lemma connect_then_close_witness :
  Hub.on_close Hub.carol_closing "dave"
    (fst (Hub.on_connection "dave" 3 Hub.three_peers))
  = (Hub.three_peers, Hub.notices Hub.carol_closing "dave" Hub.three_peers).
Proof.
  destruct (connect_then_close Hub.carol_closing "dave" 3 Hub.three_peers eq_refl)
    as (_ & _ & _ & _ & H).
  exact H.
Defined.

Lemma registry_well_formed_witness :
  Hub.wf (fst (Hub.on_connection "dave" 3 Hub.three_peers))
  /\ Hub.wf (fst (Hub.on_close Hub.carol_closing "bob" Hub.three_peers)).
Proof.
  destruct (registry_well_formed Hub.carol_closing Hub.three_peers "dave" 3 None
              three_peers_wf) as (Hjoin & _ & _ & _).
  destruct (registry_well_formed Hub.carol_closing Hub.three_peers "bob" 1 None
              three_peers_wf) as (_ & _ & Hleave & _).
  split; [| exact Hleave].
  apply Hjoin. cbn. intuition discriminate.
Defined.

End HubMoreScenarios.

(** ** The copy-and-paste application: edge cases of a transfer *)

Section ManualMore.

Import Manual.
Local Open Scope Z_scope.

Lemma receive_app (bt : binaryType) (a b : list data) (st : state) :
  receive bt (a ++ b) st = receive bt b (receive bt a st).
Proof. unfold receive. apply fold_left_app. Qed.

(** What a [file-meta] message does to any state. *)
Lemma onmessage_meta (m : json) (st : state) :
  is_type m "file-meta" = true ->
  onmessage (Text (Some m)) st
  = set_fileTransfer
      (Some {| ft_name := JS.prop m "name"; ft_size := JS.prop m "size";
               received := Some 0 |})
      (set_receivedBuffer [] st).
Proof.
  intros H. destruct m; try discriminate H. cbn [onmessage]. rewrite H. reflexivity.
Qed.

(** What a [file-end] message does to any state. *)
Lemma onmessage_end (e : json) (st : state) :
  is_type e "file-end" = true ->
  onmessage (Text (Some e)) st
  = set_receivedBuffer []
      (set_fileTransfer None
         (set_receivedFile (Some (JS.prop e "name", concat (receivedBuffer st))) st)).
Proof.
  intros H. destruct e; try discriminate H. cbn [onmessage].
  assert (Hmeta : is_type (JObj l) "file-meta" = false).
  { unfold is_type in *. destruct (JS.prop (JObj l) "type") as [[| | | s | |] |];
      try discriminate H.
    apply String.eqb_eq in H. subst s. reflexivity. }
  rewrite Hmeta, H. reflexivity.
Qed.

(** Binary frames are pushed whatever the state, and they open no
    transfer. *)
Lemma receive_frames (bt : binaryType) (chunks : list (list Byte.byte)) :
  forall st : state,
    receivedBuffer (receive bt (map ArrayBuffer chunks) st) = receivedBuffer st ++ chunks
    /\ receivedFile (receive bt (map ArrayBuffer chunks) st) = receivedFile st
    /\ (fileTransfer st = None ->
        fileTransfer (receive bt (map ArrayBuffer chunks) st) = None).
Proof.
  induction chunks as [| c cs IH]; intros st.
  - cbn. rewrite app_nil_r. auto.
  - change (receive bt (map ArrayBuffer (c :: cs)) st)
      with (receive bt (map ArrayBuffer cs) (onmessage (deliver bt (ArrayBuffer c)) st)).
    destruct (IH (onmessage (deliver bt (ArrayBuffer c)) st)) as (Hbuf & Hfile & Hft).
    rewrite Hbuf, Hfile. split; [| split].
    + destruct bt; cbn; rewrite <- app_assoc; reflexivity.
    + destruct bt; reflexivity.
    + intros Hnone. apply Hft. destruct bt; cbn; rewrite Hnone; reflexivity.
Qed.

(** An announced transfer, as the receiver sees it from any state. *)
Lemma receive_announced (bt : binaryType) (m e : json) (chunks : list (list Byte.byte))
    (st : state) :
  is_type m "file-meta" = true ->
  is_type e "file-end" = true ->
  let st' := receive bt (Text (Some m) :: map ArrayBuffer chunks ++ [Text (Some e)]) st in
  receivedFile st' = Some (JS.prop e "name", concat chunks)
  /\ receivedBuffer st' = []
  /\ fileTransfer st' = None.
Proof.
  intros Hm He. cbn zeta.
  change (receive bt (Text (Some m) :: map ArrayBuffer chunks ++ [Text (Some e)]) st)
    with (receive bt (map ArrayBuffer chunks ++ [Text (Some e)])
            (onmessage (deliver bt (Text (Some m))) st)).
  rewrite receive_app, deliver_text, (onmessage_meta m st Hm).
  set (st1 := set_fileTransfer _ _).
  destruct (receive_frames bt chunks st1) as (Hbuf & _).
  change (receive bt [Text (Some e)] ?s) with (onmessage (deliver bt (Text (Some e))) s).
  rewrite deliver_text, onmessage_end by exact He.
  cbn [receivedFile receivedBuffer fileTransfer set_receivedBuffer set_fileTransfer
       set_receivedFile].
  rewrite Hbuf. auto.
Qed.

(** X7. A [file-meta] message starts afresh whatever came before it: the
    frames buffered until then, of a transfer that was given up or of no
    transfer at all, are dropped, and the file made at the next
    [file-end] holds the frames received since that [file-meta], in
    order, under the name the [file-end] gives.  The buffer is then empty
    and no transfer is shown. *)
Theorem metadata_resets_receiver (bt : binaryType) (before : list data) (m e : json)
    (chunks : list (list Byte.byte)) (st : state) :
  is_type m "file-meta" = true ->
  is_type e "file-end" = true ->
  let st' := receive bt (before ++ Text (Some m) :: map ArrayBuffer chunks
                         ++ [Text (Some e)]) st in
  receivedFile st' = Some (JS.prop e "name", concat chunks)
  /\ receivedBuffer st' = []
  /\ fileTransfer st' = None.
Proof.
  intros Hm He. cbn zeta. rewrite receive_app.
  exact (receive_announced bt m e chunks (receive bt before st) Hm He).
Qed.

(** X8. Binary frames that arrive when no transfer has been announced are
    not dropped: they are buffered, with no transfer shown, and the next
    [file-end] makes a file of everything buffered, these frames
    included. *)
Theorem frames_without_metadata (bt : binaryType) (chunks : list (list Byte.byte))
    (e : json) (st : state) :
  fileTransfer st = None ->
  is_type e "file-end" = true ->
  let st1 := receive bt (map ArrayBuffer chunks) st in
  receivedBuffer st1 = receivedBuffer st ++ chunks
  /\ fileTransfer st1 = None
  /\ receivedFile st1 = receivedFile st
  /\ receivedFile (receive bt [Text (Some e)] st1)
     = Some (JS.prop e "name", concat (receivedBuffer st ++ chunks)).
Proof.
  intros Hnone He. cbn zeta.
  destruct (receive_frames bt chunks st) as (Hbuf & Hfile & Hft).
  split; [exact Hbuf |]. split; [exact (Hft Hnone) |]. split; [exact Hfile |].
  change (receive bt [Text (Some e)] ?s) with (onmessage (deliver bt (Text (Some e))) s).
  rewrite deliver_text, onmessage_end by exact He.
  cbn [receivedFile set_receivedBuffer set_fileTransfer set_receivedFile].
  rewrite Hbuf. reflexivity.
Qed.

(** The count of received bytes after some frames. *)
Lemma received_after_frames (chunks : list (list Byte.byte)) :
  forall (st : state) (prev : FileTransfer),
    fileTransfer st = Some prev ->
    fileTransfer (receive arraybuffer (map ArrayBuffer chunks) st)
    = Some {| ft_name := ft_name prev; ft_size := ft_size prev;
              received := option_map (fun r => r + byteLength (concat chunks))
                            (received prev) |}.
Proof.
  induction chunks as [| c cs IH]; intros st prev Hprev.
  - cbn. rewrite Hprev. destruct prev as [n s [r |]]; cbn; [| reflexivity].
    rewrite Z.add_0_r. reflexivity.
  - change (receive arraybuffer (map ArrayBuffer (c :: cs)) st)
      with (receive arraybuffer (map ArrayBuffer cs) (onmessage (ArrayBuffer c) st)).
    erewrite IH; [| cbn; rewrite Hprev; reflexivity].
    cbn [ft_name ft_size received concat]. f_equal. f_equal.
    rewrite byteLength_app. destruct (received prev); cbn; [| reflexivity].
    f_equal. lia.
Qed.

Lemma received_after_blobs (chunks : list (list Byte.byte)) :
  forall (st : state) (prev : FileTransfer),
    fileTransfer st = Some prev ->
    chunks <> [] ->
    fileTransfer (receive blob (map ArrayBuffer chunks) st)
    = Some {| ft_name := ft_name prev; ft_size := ft_size prev; received := None |}.
Proof.
  induction chunks as [| c cs IH]; intros st prev Hprev Hne; [contradiction |].
  change (receive blob (map ArrayBuffer (c :: cs)) st)
    with (receive blob (map ArrayBuffer cs) (onmessage (Blob c) st)).
  destruct cs as [| c' cs'].
  - cbn. rewrite Hprev. reflexivity.
  - rewrite (IH (onmessage (Blob c) st)
               {| ft_name := ft_name prev; ft_size := ft_size prev; received := None |});
      [reflexivity | cbn; rewrite Hprev; reflexivity | discriminate].
Qed.

(** X9. The count of bytes shown for an incoming transfer starts at zero
    with the [file-meta] message and, when the frames come as
    [ArrayBuffer]s, is the number of bytes received since; when they come
    as [Blob]s, which have no [byteLength], the count is NaN from the
    first frame on.  The name and size shown are those of the
    [file-meta] message. *)
Theorem receiver_progress (m : json) (chunks : list (list Byte.byte)) (st : state) :
  is_type m "file-meta" = true ->
  fileTransfer (receive arraybuffer (Text (Some m) :: map ArrayBuffer chunks) st)
  = Some {| ft_name := JS.prop m "name"; ft_size := JS.prop m "size";
            received := Some (byteLength (concat chunks)) |}
  /\ (chunks <> [] ->
      fileTransfer (receive blob (Text (Some m) :: map ArrayBuffer chunks) st)
      = Some {| ft_name := JS.prop m "name"; ft_size := JS.prop m "size";
                received := None |}).
Proof.
  intros Hm. split.
  - change (receive arraybuffer (Text (Some m) :: map ArrayBuffer chunks) st)
      with (receive arraybuffer (map ArrayBuffer chunks) (onmessage (Text (Some m)) st)).
    rewrite (onmessage_meta m st Hm).
    rewrite (received_after_frames chunks _
               {| ft_name := JS.prop m "name"; ft_size := JS.prop m "size";
                  received := Some 0 |}); reflexivity.
  - intros Hne.
    change (receive blob (Text (Some m) :: map ArrayBuffer chunks) st)
      with (receive blob (map ArrayBuffer chunks) (onmessage (Text (Some m)) st)).
    rewrite (onmessage_meta m st Hm).
    rewrite (received_after_blobs chunks _
               {| ft_name := JS.prop m "name"; ft_size := JS.prop m "size";
                  received := Some 0 |}); [reflexivity | reflexivity | exact Hne].
Qed.

(** X10. An empty file is sent as the [file-meta] message, one empty
    binary frame and the [file-end] message: one frame, where a file of
    [S > 0] bytes takes [ceil (S / 16384)].  The receiver makes an empty
    file of it. *)
Theorem empty_file_transfer (f : File) (st rx : state) (bt : binaryType) :
  selectedFile st = Some f ->
  dataChannel st = Some ch_open ->
  bytes f = [] ->
  (exists st',
     transfer st
     = Some (st', map Send [Text (Some (file_meta f)); ArrayBuffer [];
                            Text (Some (file_end f))]))
  /\ receivedFile
       (receive bt [Text (Some (file_meta f)); ArrayBuffer []; Text (Some (file_end f))] rx)
     = Some (Some (JStr (name f)), []).
Proof.
  intros Hf Hopen Hempty. split.
  - unfold transfer, sendFile. rewrite Hf, Hopen. cbn [up_file].
    unfold file_size, byteLength. rewrite Hempty. cbn [length Z.of_nat Z.to_nat reader_loop].
    unfold onload, readSlice. cbn [dataChannel set_fileTransfer up_file offset].
    rewrite Hopen, Hempty. unfold file_size, byteLength. rewrite Hempty. cbn.
    eexists. reflexivity.
  - destruct bt; reflexivity.
Qed.



(** Where a run of reads ends, on a channel that stays open. *)
Lemma reader_loop_final (fuel : nat) :
  forall (u : upload) (st st' : state) (out : list effect),
    reader_loop fuel u st = Some (st', out) ->
    dataChannel st = Some ch_open ->
    selectedFile st' = None /\ fileTransfer st' = None
    /\ dataChannel st' = Some ch_open
    /\ receivedFile st' = receivedFile st
    /\ receivedBuffer st' = receivedBuffer st
    /\ List.last out (Alert "") = Send (Text (Some (file_end (up_file u)))).
Proof.
  induction fuel as [| fuel IH]; intros u st st' out Hrun Hopen; [discriminate |].
  cbn [reader_loop] in Hrun. unfold onload in Hrun. rewrite Hopen in Hrun.
  destruct (offset u + byteLength (readSlice u) <? file_size (up_file u)).
  - match type of Hrun with
    | context [reader_loop fuel ?u1 ?s1] =>
        destruct (reader_loop fuel u1 s1) as [[st2 out2] |] eqn:E; [| discriminate];
        injection Hrun as <- <-;
        destruct (IH u1 s1 st2 out2 E Hopen) as (H1 & H2 & H3 & H4 & H5 & H6)
    end.
    repeat split; try assumption.
    cbn [app]. destruct out2 as [| e out2]; [discriminate H6 |]. exact H6.
  - injection Hrun as <- <-. repeat split. exact Hopen.
Qed.

(** X12. When a file has been sent in full, of whatever size, the last
    message that went out is its [file-end], the selection is cleared and
    no transfer is shown any more; the channel, the received file and the
    receive buffer of the sender are as they were. *)
Theorem transfer_resets_sender (f : File) (st : state) :
  selectedFile st = Some f ->
  dataChannel st = Some ch_open ->
  exists st' out,
    transfer st = Some (st', out)
    /\ List.last out (Alert "") = Send (Text (Some (file_end f)))
    /\ selectedFile st' = None
    /\ fileTransfer st' = None
    /\ dataChannel st' = Some ch_open
    /\ receivedFile st' = receivedFile st
    /\ receivedBuffer st' = receivedBuffer st.
Proof.
  intros Hf Hopen. pose proof (transfer_total st) as Htotal.
  unfold transfer, sendFile in *. rewrite Hf, Hopen in *. cbn [up_file] in *.
  match type of Htotal with
  | context [reader_loop ?n ?u ?s] =>
      destruct (reader_loop n u s) as [[st' out] |] eqn:E; [| contradiction];
      destruct (reader_loop_final n u s st' out E Hopen) as (H1 & H2 & H3 & H4 & H5 & H6)
  end.
  exists st'. eexists. split; [reflexivity |].
  repeat split; try assumption.
  cbn [app up_file] in *. destruct out as [| e out]; [discriminate H6 | exact H6].
Qed.

Lemma sent_map_Send (l : list data) : sent (map Send l) = l.
Proof. induction l as [| d l IH]; [reflexivity |]. cbn. f_equal. exact IH. Qed.

(** X28. Round trip.  A file of any size, empty or not, sent on an open
    channel arrives whole: whatever the receiver had buffered or shown
    before, the frames sent make it hold a file with the same name and
    exactly the same bytes, with an empty buffer and no transfer shown. *)
Theorem transfer_round_trip (f : File) (st rx : state) (bt : binaryType) :
  selectedFile st = Some f ->
  dataChannel st = Some ch_open ->
  exists st' out,
    transfer st = Some (st', out)
    /\ receivedFile (receive bt (sent out) rx) = Some (Some (JStr (name f)), bytes f)
    /\ receivedBuffer (receive bt (sent out) rx) = []
    /\ fileTransfer (receive bt (sent out) rx) = None.
Proof.
  intros Hf Hopen.
  assert (Hframes : exists st' chunks,
            transfer st
            = Some (st', map Send (Text (Some (file_meta f))
                                   :: map ArrayBuffer chunks ++ [Text (Some (file_end f))]))
            /\ concat chunks = bytes f).
  { unfold transfer, sendFile. rewrite Hf, Hopen. cbn [up_file].
    destruct (Z.eq_dec (file_size f) 0) as [Hz | Hnz].
    - assert (Hempty : bytes f = []).
      { unfold file_size, byteLength in Hz. destruct (bytes f); [reflexivity | discriminate]. }
      rewrite Hz. cbn [Z.to_nat reader_loop]. unfold onload, readSlice.
      cbn [dataChannel set_fileTransfer up_file offset]. rewrite Hopen, Hempty.
      unfold file_size, byteLength. rewrite Hempty. cbn.
      eexists _, [[]]. split; reflexivity.
    - match goal with
      | |- context [reader_loop ?n _ ?s] =>
          destruct (reader_loop_chunks f n 0 s) as (st' & chunks & Hrun & Hcat & _)
      end.
      + exact Hopen.
      + pose proof (byteLength_nonneg (bytes f)). unfold file_size in *. lia.
      + lia.
      + rewrite Hrun. exists st', chunks. split; [reflexivity |]. exact Hcat. }
  destruct Hframes as (st' & chunks & Hrun & Hcat).
  eexists _, _. split; [exact Hrun |].
  rewrite sent_map_Send.
  destruct (receive_announced bt (file_meta f) (file_end f) chunks rx eq_refl eq_refl)
    as (Hfile & Hbuf & Hft).
  rewrite Hfile, Hcat. auto.
Qed.

Lemma metadata_resets_receiver_witness :
  is_type (file_meta note_txt) "file-meta" = true
  /\ receivedFile
       (receive blob
          ([ArrayBuffer [Byte.x00]; Text (Some (file_meta report_pdf)); ArrayBuffer [Byte.x01]]
           ++ Text (Some (file_meta note_txt)) :: map ArrayBuffer [bytes note_txt]
           ++ [Text (Some (file_end note_txt))]) idle)
     = Some (Some (JStr "note.txt"), bytes note_txt).
Proof.
  split; [reflexivity |].
  destruct (metadata_resets_receiver blob
              [ArrayBuffer [Byte.x00]; Text (Some (file_meta report_pdf));
               ArrayBuffer [Byte.x01]]
              (file_meta note_txt) (file_end note_txt) [bytes note_txt] idle
              eq_refl eq_refl) as (H & _).
  exact H.
Defined.

Lemma frames_without_metadata_witness :
  fileTransfer idle = None
  /\ receivedFile
       (receive arraybuffer [Text (Some (file_end note_txt))]
          (receive arraybuffer (map ArrayBuffer [[Byte.x00]; [Byte.x01]]) idle))
     = Some (Some (JStr "note.txt"), [Byte.x00; Byte.x01]).
Proof.
  split; [reflexivity |].
  destruct (frames_without_metadata arraybuffer [[Byte.x00]; [Byte.x01]]
              (file_end note_txt) idle eq_refl eq_refl) as (_ & _ & _ & H).
  exact H.
Defined.

Lemma receiver_progress_witness :
  fileTransfer
    (receive arraybuffer
       (Text (Some (file_meta note_txt)) :: map ArrayBuffer [[Byte.x68; Byte.x69]; [Byte.x0a]])
       idle)
  = Some {| ft_name := Some (JStr "note.txt"); ft_size := Some (JNum 3);
            received := Some 3 |}.
Proof.
  destruct (receiver_progress (file_meta note_txt) [[Byte.x68; Byte.x69]; [Byte.x0a]] idle
              eq_refl) as (H & _).
  exact H.
Defined.

Lemma empty_file_transfer_witness :
  exists st',
    transfer (ready {| name := "empty.bin"; bytes := [] |})
    = Some (st', map Send [Text (Some (file_meta {| name := "empty.bin"; bytes := [] |}));
                           ArrayBuffer [];
                           Text (Some (file_end {| name := "empty.bin"; bytes := [] |}))]).
Proof.
  destruct (empty_file_transfer {| name := "empty.bin"; bytes := [] |}
              (ready {| name := "empty.bin"; bytes := [] |}) idle arraybuffer
              eq_refl eq_refl eq_refl) as (H & _).
  exact H.
Defined.


Lemma transfer_resets_sender_witness :
  exists st' out,
    transfer (ready note_txt) = Some (st', out)
    /\ List.last out (Alert "") = Send (Text (Some (file_end note_txt)))
    /\ selectedFile st' = None.
Proof.
  destruct (transfer_resets_sender note_txt (ready note_txt) eq_refl eq_refl)
    as (st' & out & H1 & H2 & H3 & _).
  exists st', out. auto.
Defined.

Lemma transfer_round_trip_witness :
  exists st' out,
    transfer (ready report_pdf) = Some (st', out)
    /\ receivedFile (receive blob (sent out) idle)
       = Some (Some (JStr "report.pdf"), bytes report_pdf).
Proof.
  destruct (transfer_round_trip report_pdf (ready report_pdf) idle blob eq_refl eq_refl)
    as (st' & out & Hrun & Hfile & _).
  exists st', out. split; [exact Hrun | exact Hfile].
Defined.

End ManualMore.

(** ** The PeerJS hook: dialling and closing *)

Section PeerJSMore.

Import PeerJS.

(** X13. The close handler of a connection removes the registry entry of
    its remote identifier, whichever connection is registered there: when
    the connection that closes is not the registered one (it was replaced
    by a newer one to the same peer), the newer one is taken out of the
    registry and of the connections list all the same.  The other entries
    are kept; the status becomes disconnected when the registry is left
    empty and is unchanged otherwise. *)
Theorem close_removes_by_identifier (c live : DataConnection) (st : state) :
  peer c = peer live ->
  JSMap.get (peer live) (connectionsRef st) = Some live ->
  let st' := conn_close c st in
  JSMap.get (peer live) (connectionsRef st') = None
  /\ ~ In (peer live) (connections st')
  /\ connections st' = JSMap.keys (connectionsRef st')
  /\ (forall p, p <> peer c ->
        JSMap.get p (connectionsRef st') = JSMap.get p (connectionsRef st))
  /\ (connections st' = [] -> status st' = disconnected)
  /\ (connections st' <> [] -> status st' = status st).
Proof.
  intros Hpeer Hget. cbn zeta. unfold conn_close.
  set (m := JSMap.delete (peer c) (connectionsRef st)).
  set (st1 := updateConnectionsList (set_connectionsRef m st)).
  assert (Hreg : forall s, connectionsRef (if Nat.eqb (JSMap.size (connectionsRef st1)) 0
                                           then set_status s st1 else st1) = m).
  { intros s. destruct (Nat.eqb _ 0); reflexivity. }
  assert (Hlist : forall s, connections (if Nat.eqb (JSMap.size (connectionsRef st1)) 0
                                         then set_status s st1 else st1) = JSMap.keys m).
  { intros s. destruct (Nat.eqb _ 0); reflexivity. }
  rewrite Hreg, Hlist.
  split; [| split; [| split; [| split; [| split]]]].
  - subst m. rewrite Hpeer. apply get_delete_eq.
  - apply get_None_keys. subst m. rewrite Hpeer. apply get_delete_eq.
  - reflexivity.
  - intros p Hp. subst m. apply get_delete_ne. congruence.
  - intros Hnil.
    change (connectionsRef st1) with m. unfold JSMap.size.
    assert (Hm : m = []).
    { unfold JSMap.keys in Hnil. destruct m; [reflexivity | discriminate]. }
    rewrite Hm. reflexivity.
  - intros Hne.
    change (connectionsRef st1) with m. unfold JSMap.size.
    destruct m as [| e m']; [contradiction Hne; reflexivity | reflexivity].
Qed.

(** X14. Dialling is only guarded by the registry, and a connection enters
    the registry when it opens.  So, for a peer that is neither
    registered nor the endpoint itself, every call of [connectToPeer]
    made before a connection to that peer has opened starts a connection
    of its own, all of them served; once one has opened, a further call
    does nothing.  Dialling the endpoint's own identifier never does
    anything. *)
Theorem dial_guarded_by_open_connections (remote : string) (c1 c2 c3 : nat) (st : state) :
  peerRef st = true ->
  JSMap.has remote (connectionsRef st) = false ->
  peerId st <> Some remote ->
  let first := {| conn := c1; peer := remote |} in
  let second := {| conn := c2; peer := remote |} in
  let r1 := connectToPeer remote c1 st in
  let r2 := connectToPeer remote c2 (fst r1) in
  let opened := conn_open first (fst r2) in
  snd r1 = [Connect first]
  /\ snd r2 = [Connect second]
  /\ status (fst r2) = connecting
  /\ connectionsRef (fst r2) = connectionsRef st
  /\ serves first (fst r2) = true
  /\ serves second (fst r2) = true
  /\ connectToPeer remote c3 opened = (opened, [])
  /\ (forall own, peerId st = Some own -> connectToPeer own c3 st = (st, [])).
Proof.
  intros Href Hhas Hself. cbn zeta.
  assert (Hne : match peerId st with
                | Some own => String.eqb remote own
                | None => false
                end = false).
  { destruct (peerId st) as [own |]; [| reflexivity].
    apply String.eqb_neq. congruence. }
  assert (H1 : connectToPeer remote c1 st
               = (handleConnection {| conn := c1; peer := remote |}
                    (set_status connecting st),
                  [Connect {| conn := c1; peer := remote |}])).
  { unfold connectToPeer. rewrite Href, Hhas, Hne. reflexivity. }
  rewrite H1. cbn [fst snd].
  assert (H2 : connectToPeer remote c2
                 (handleConnection {| conn := c1; peer := remote |}
                    (set_status connecting st))
               = (handleConnection {| conn := c2; peer := remote |}
                    (set_status connecting
                       (handleConnection {| conn := c1; peer := remote |}
                          (set_status connecting st))),
                  [Connect {| conn := c2; peer := remote |}])).
  { unfold connectToPeer. cbn [peerRef connectionsRef peerId handleConnection set_status].
    rewrite Href, Hhas, Hne. reflexivity. }
  rewrite H2. cbn [fst snd].
  split; [reflexivity |]. split; [reflexivity |]. split; [reflexivity |].
  split; [reflexivity |].
  split.
  { unfold serves. cbn [handled handleConnection set_status existsb].
    rewrite DataConnection_eqb_refl. apply orb_true_r. }
  split.
  { unfold serves. cbn [handled handleConnection set_status existsb].
    rewrite DataConnection_eqb_refl. reflexivity. }
  split.
  { unfold connectToPeer.
    cbn [peerRef connectionsRef conn_open set_status updateConnectionsList set_connections
         set_connectionsRef handleConnection peer].
    rewrite Href. cbn [negb].
    assert (Hnow : JSMap.has remote
                     (JSMap.set remote {| conn := c1; peer := remote |} (connectionsRef st))
                   = true).
    { unfold JSMap.has. rewrite get_set_eq. reflexivity. }
    rewrite Hnow. reflexivity. }
  intros own Hown. unfold connectToPeer. rewrite Hown, String.eqb_refl.
  destruct (negb (peerRef st)); [reflexivity |].
  destruct (JSMap.has own (connectionsRef st)); reflexivity.
Qed.

Lemma close_removes_by_identifier_witness :
  let replaced :=
    conn_open {| conn := 1; peer := "A" |}
      (fst (on_connection {| conn := 1; peer := "A" |} (linked "B" "A"))) in
  JSMap.get "A" (connectionsRef replaced) = Some {| conn := 1; peer := "A" |}
  /\ serves {| conn := 1; peer := "A" |} replaced = true
  /\ JSMap.get "A" (connectionsRef (conn_close {| conn := 0; peer := "A" |} replaced)) = None
  /\ status (conn_close {| conn := 0; peer := "A" |} replaced) = disconnected.
Proof.
  cbn zeta.
  destruct (close_removes_by_identifier {| conn := 0; peer := "A" |}
              {| conn := 1; peer := "A" |}
              (conn_open {| conn := 1; peer := "A" |}
                 (fst (on_connection {| conn := 1; peer := "A" |} (linked "B" "A"))))
              eq_refl eq_refl) as (Hgone & _ & _ & _ & Hempty & _).
  split; [reflexivity |]. split; [reflexivity |].
  split; [exact Hgone |]. apply Hempty. reflexivity.
Defined.

Lemma dial_guarded_by_open_connections_witness :
  let twice := fst (connectToPeer "B" 1 (dialing "A" "B")) in
  snd (connectToPeer "B" 1 (dialing "A" "B")) = [Connect {| conn := 1; peer := "B" |}]
  /\ connectToPeer "B" 2 (conn_open {| conn := 0; peer := "B" |} twice)
     = (conn_open {| conn := 0; peer := "B" |} twice, []).
Proof.
  assert (Hself : peerId (on_open "A" (initial "A")) <> Some "B") by discriminate.
  destruct (dial_guarded_by_open_connections "B" 0 1 2 (on_open "A" (initial "A"))
              eq_refl eq_refl Hself) as (_ & H2 & _ & _ & _ & _ & H3 & _).
  split; [exact H2 | exact H3].
Defined.

End PeerJSMore.

(** ** The relay-signalled hook: negotiation, teardown and files *)

Section WebRTCMore.

Import WebRTC.

Variable candidate_ok : option json -> bool.

(** Lists that grow at the end: the objects and the suspended handlers. *)
Lemma lookup_snoc {A : Type} (l : list A) (x : A) : (l ++ [x]) !! length l = Some x.
Proof. induction l; [reflexivity | exact IHl]. Qed.

Lemma insert_snoc {A : Type} (l : list A) (x y : A) : <[length l := y]> (l ++ [x]) = l ++ [y].
Proof. induction l as [| a l IH]; [reflexivity |]. cbn. f_equal. exact IH. Qed.

(** A settled promise resumes the handler that awaits it. *)
Lemma settle_task (t : nat) (k : task) (o : outcome) (st : state) :
  tasks st !! t = Some (Some k) ->
  step candidate_ok (Settle t o) st
  = (set_tasks (<[t := snd (resume k o st)]> (tasks (fst (fst (resume k o st)))))
       (fst (fst (resume k o st))),
     snd (fst (resume k o st))).
Proof.
  intros H. cbn [step]. rewrite H. destruct (resume k o st) as [[st' out] next]. reflexivity.
Qed.

Lemma run_cons (e : event) (es : list event) (st : state) :
  run candidate_ok (e :: es) st
  = (fst (run candidate_ok es (fst (step candidate_ok e st))),
     snd (step candidate_ok e st) ++ snd (run candidate_ok es (fst (step candidate_ok e st)))).
Proof.
  cbn [run]. destruct (step candidate_ok e st) as [st1 out1]. cbn [fst snd].
  destruct (run candidate_ok es st1) as [st2 out2]. reflexivity.
Qed.

Ltac state_norm :=
  cbn [peerId connections status receivedFiles wsRef peerConnectionsRef isInitialized
       fileMetadataRef pcs channels tasks
       set_peerId setConnections setStatus setReceivedFiles set_wsRef set_peerConnectionsRef
       set_isInitialized set_fileMetadataRef set_pcs set_channels set_tasks suspend
       fst snd].

Lemma update_pc_last (l : list PeerConnection) (p : PeerConnection)
    (f : PeerConnection -> PeerConnection) (st : state) :
  pcs st = l ++ [p] -> update_pc (length l) f st = set_pcs (l ++ [f p]) st.
Proof.
  intros H. unfold update_pc. rewrite H, lookup_snoc, insert_snoc. reflexivity.
Qed.

Lemma ws_open_wsRef (st : state) : ws_open st = true -> wsRef st = Some OPEN.
Proof. unfold ws_open. destruct (wsRef st) as [[| | |] |]; congruence. Qed.

(** The run of a dial, and of an answer, in full. *)
Lemma dial_run (remote : string) (offer v : option json) (st : state) :
  ws_open st = true ->
  JSMap.has remote (peerConnectionsRef st) = false ->
  peerId st <> Some remote ->
  let pc := length (pcs st) in
  let t := length (tasks st) in
  run candidate_ok
    [CallConnectToPeer remote; Settle t (Resolved offer); Settle t (Resolved v)] st
  = ({| peerId := peerId st; connections := connections st; status := connecting;
        receivedFiles := receivedFiles st; wsRef := wsRef st;
        peerConnectionsRef := JSMap.set remote pc (peerConnectionsRef st);
        isInitialized := isInitialized st; fileMetadataRef := fileMetadataRef st;
        pcs := pcs st
               ++ [{| remotePeerId := remote; isInitiator := true;
                      remoteDescription := None; localDescription := Some offer;
                      dataChannel := Some (length (channels st));
                      pendingIceCandidates := [] |}];
        channels := channels st ++ [{| owner := pc; ch_readyState := ch_connecting |}];
        tasks := tasks st ++ [None] |},
     [CreateOffer pc; SetLocalDescription pc offer; WsSend (offer_msg remote offer)]).
Proof.
  intros Hws Hhas Hself. cbn zeta.
  assert (Hne : match peerId st with
                | Some own => String.eqb remote own
                | None => false
                end = false).
  { destruct (peerId st) as [own |]; [| reflexivity].
    apply String.eqb_neq. congruence. }
  match goal with |- _ = ?rhs => set (expected := rhs) end.
  rewrite run_cons. cbn [step]. unfold connectToPeer. rewrite Hws, Hhas, Hne.
  cbn [negb]. unfold createPeerConnection. state_norm.
  rewrite run_cons, (settle_task _ (AwaitCreateOffer (length (pcs st)) remote));
    [| apply lookup_snoc].
  cbn [resume]. state_norm. rewrite insert_snoc.
  rewrite run_cons, (settle_task _ (AwaitSetLocalOffer (length (pcs st)) remote offer));
    [| apply lookup_snoc].
  cbn [resume]. erewrite update_pc_last; [| reflexivity].
  unfold ws_send_unguarded. state_norm. rewrite (ws_open_wsRef st Hws). state_norm.
  rewrite insert_snoc. cbn [run app]. state_norm. subst expected.
  reflexivity.
Qed.

(** [connectToPeer] past its guards. *)
Lemma call_connect (remote : string) (st : state) :
  ws_open st = true ->
  JSMap.has remote (peerConnectionsRef st) = false ->
  peerId st <> Some remote ->
  step candidate_ok (CallConnectToPeer remote) st
  = ({| peerId := peerId st; connections := connections st; status := connecting;
        receivedFiles := receivedFiles st; wsRef := wsRef st;
        peerConnectionsRef := JSMap.set remote (length (pcs st)) (peerConnectionsRef st);
        isInitialized := isInitialized st; fileMetadataRef := fileMetadataRef st;
        pcs := pcs st
               ++ [{| remotePeerId := remote; isInitiator := true;
                      remoteDescription := None; localDescription := None;
                      dataChannel := Some (length (channels st));
                      pendingIceCandidates := [] |}];
        channels := channels st
                    ++ [{| owner := length (pcs st); ch_readyState := ch_connecting |}];
        tasks := tasks st ++ [Some (AwaitCreateOffer (length (pcs st)) remote)] |},
     [CreateOffer (length (pcs st))]).
Proof.
  intros Hws Hhas Hself.
  assert (Hne : match peerId st with
                | Some own => String.eqb remote own
                | None => false
                end = false).
  { destruct (peerId st) as [own |]; [| reflexivity].
    apply String.eqb_neq. congruence. }
  cbn [step]. unfold connectToPeer. rewrite Hws, Hhas, Hne. reflexivity.
Qed.

Lemma redial_noop (remote : string) (pc : nat) (st : state) :
  JSMap.get remote (peerConnectionsRef st) = Some pc ->
  step candidate_ok (CallConnectToPeer remote) st = (st, []).
Proof.
  intros H. cbn [step]. unfold connectToPeer, JSMap.has. rewrite H.
  destruct (negb (ws_open st)); reflexivity.
Qed.

Lemma answer_run (fromPeerId : string) (offer answer v1 v2 : option json) (st : state) :
  JSMap.has fromPeerId (peerConnectionsRef st) = false ->
  let pc := length (pcs st) in
  let t := length (tasks st) in
  run candidate_ok
    [WsMessage (Some (SigOffer fromPeerId offer)); Settle t (Resolved v1);
     Settle t (Resolved answer); Settle t (Resolved v2)] st
  = ({| peerId := peerId st; connections := connections st; status := status st;
        receivedFiles := receivedFiles st; wsRef := wsRef st;
        peerConnectionsRef := JSMap.set fromPeerId pc (peerConnectionsRef st);
        isInitialized := isInitialized st; fileMetadataRef := fileMetadataRef st;
        pcs := pcs st
               ++ [{| remotePeerId := fromPeerId; isInitiator := false;
                      remoteDescription := Some offer; localDescription := Some answer;
                      dataChannel := None; pendingIceCandidates := [] |}];
        channels := channels st;
        tasks := tasks st ++ [None] |},
     [SetRemoteDescription pc offer; CreateAnswer pc; SetLocalDescription pc answer]
     ++ (if ws_open st then [WsSend (answer_msg fromPeerId answer)] else [])).
Proof.
  intros Hhas. cbn zeta.
  match goal with |- _ = ?rhs => set (expected := rhs) end.
  rewrite run_cons. cbn [step handleSignalingMessage]. rewrite Hhas.
  unfold createPeerConnection. state_norm.
  rewrite run_cons,
    (settle_task _ (AwaitSetRemoteDescription (InOffer fromPeerId) (length (pcs st)) offer));
    [| apply lookup_snoc].
  cbn [resume]. erewrite update_pc_last; [| reflexivity].
  unfold pending_of. state_norm. rewrite lookup_snoc.
  cbn [with_remoteDescription pendingIceCandidates flush].
  erewrite update_pc_last; [| reflexivity]. state_norm. rewrite insert_snoc.
  rewrite run_cons, (settle_task _ (AwaitCreateAnswer (length (pcs st)) fromPeerId));
    [| apply lookup_snoc].
  cbn [resume]. state_norm. rewrite insert_snoc.
  rewrite run_cons,
    (settle_task _ (AwaitSetLocalAnswer (length (pcs st)) fromPeerId answer));
    [| apply lookup_snoc].
  cbn [resume]. erewrite update_pc_last; [| reflexivity]. state_norm.
  rewrite insert_snoc. cbn [run app]. state_norm. rewrite app_nil_r.
  subst expected. reflexivity.
Qed.

(** Who is in the connections list after a recomputation. *)
Lemma not_listed (p : string) (st : state) :
  JSMap.get p (peerConnectionsRef st) = None -> ~ In p (connections (updateConnectionsList st)).
Proof.
  intros Hnone Hin. rewrite updateConnectionsList_connections in Hin.
  apply List.filter_In in Hin. destruct Hin as [_ Hin]. rewrite Hnone in Hin. discriminate.
Qed.

Lemma listed_iff (p : string) (pc : nat) (st : state) :
  JSMap.get p (peerConnectionsRef st) = Some pc ->
  (In p (connections (updateConnectionsList st)) <-> dataChannel_open st pc = true).
Proof.
  intros Hget. rewrite updateConnectionsList_connections, List.filter_In, Hget.
  split; [tauto |]. intros H. split; [| exact H].
  destruct (in_dec string_dec p (JSMap.keys (peerConnectionsRef st))) as [Hin | Hout];
    [exact Hin |].
  apply get_None_keys in Hout. congruence.
Qed.

Lemma listed_status (p : string) (st : state) :
  In p (connections (updateConnectionsList st)) -> status (updateConnectionsList st) = connected.
Proof.
  intros Hin. rewrite updateConnectionsList_connections in Hin. unfold updateConnectionsList.
  destruct (List.filter _ _) as [| x l]; [destruct Hin | reflexivity].
Qed.

Lemma channel_is_open_Some (st : state) (ch : nat) :
  channel_is_open st ch = true -> exists c, channels st !! ch = Some c.
Proof. unfold channel_is_open. destruct (channels st !! ch); [eauto | discriminate]. Qed.

(** [sendFileToPeer] past its guard. *)
Lemma call_sendFileToPeer (f : File) (p : string) (pc ch : nat) (st : state) :
  JSMap.get p (peerConnectionsRef st) = Some pc ->
  channel_of st pc = Some ch ->
  channel_is_open st ch = true ->
  step candidate_ok (CallSendFileToPeer f p) st
  = (set_tasks (tasks st ++ [Some (AwaitArrayBuffer pc (bytes f))]) st,
     [ChannelSend ch (DString (Some (file_metadata f)))]).
Proof.
  intros Hget Hof Hopen. cbn [step]. unfold sendFileToPeer, dataChannel_open, send_to.
  rewrite Hget, Hof, Hopen. reflexivity.
Qed.

Lemma set_tasks_same (st : state) : set_tasks (tasks st) st = st.
Proof. destruct st. reflexivity. Qed.

(** The [forEach] of [sendFile], in closed form. *)
Lemma send_fold (f : File) (conns : list (string * nat)) :
  forall (st : state) (acc : list effect),
    (forall p pc, In (p, pc) conns -> dataChannel_open st pc = true) ->
    fold_left
      (fun '((s, acc) : state * list effect) '((_, pc) : string * nat) =>
         let '(s', o) := send_to f pc s in (s', acc ++ o))
      conns (st, acc)
    = (set_tasks (tasks st
                  ++ map (fun '(_, pc) => Some (AwaitArrayBuffer pc (bytes f))) conns) st,
       acc ++ flat_map
                (fun '(_, pc) =>
                   match channel_of st pc with
                   | Some ch => [ChannelSend ch (DString (Some (file_metadata f)))]
                   | None => []
                   end) conns).
Proof.
  induction conns as [| [p pc] conns IH]; intros st acc Hopen.
  - cbn. rewrite !app_nil_r, set_tasks_same. reflexivity.
  - cbn [fold_left map flat_map].
    assert (Hpc : dataChannel_open st pc = true) by (apply (Hopen p); left; reflexivity).
    unfold dataChannel_open in Hpc. unfold send_to at 2.
    destruct (channel_of st pc) as [ch |] eqn:Hof; [| discriminate].
    rewrite IH.
    + cbn [tasks suspend set_tasks]. rewrite <- !app_assoc. reflexivity.
    + intros p' pc' Hin. apply (Hopen p' pc'). right. exact Hin.
Qed.

Lemma metadata_count (f : File) (st : state) (l : list (string * nat)) :
  (forall p pc, In (p, pc) l -> dataChannel_open st pc = true) ->
  length (flat_map
            (fun '(_, pc) =>
               match channel_of st pc with
               | Some ch => [ChannelSend ch (DString (Some (file_metadata f)))]
               | None => []
               end) l) = length l.
Proof.
  induction l as [| [p pc] l IH]; intros Hall; [reflexivity |].
  cbn [flat_map]. rewrite length_app, IH.
  - assert (H := Hall p pc (or_introl eq_refl)). unfold dataChannel_open in H.
    destruct (channel_of st pc); [reflexivity | discriminate].
  - intros p' pc' H. apply (Hall p' pc'). right. exact H.
Qed.

(** The server forwards a message of the hook to an open target. *)
Lemma hub_forwards (rs : Hub.socket -> Hub.readyState) (peers : Hub.registry)
    (a b : string) (wa wb : Hub.socket) (ty : string) (rest : list (string * json)) :
  JSMap.get b peers = Some wb ->
  rs wb = Hub.OPEN ->
  ty = "offer" \/ ty = "answer" \/ ty = "ice-candidate" ->
  Hub.on_message rs a wa
    (Some (JObj (("type", JStr ty) :: ("targetPeerId", JStr b) :: rest))) peers
  = (peers,
     [Hub.Send wb
        (JObj (JSMap.set "fromPeerId" (JStr a)
                 (("type", JStr ty) :: ("targetPeerId", JStr b) :: rest)))]).
Proof.
  intros Hb Hopen Hty.
  destruct Hty as [-> | [-> | ->]]; cbn; unfold Hub.forward; cbn; rewrite Hb, Hopen;
    reflexivity.
Qed.

Lemma relayed_offer (rs : Hub.socket -> Hub.readyState) (peers : Hub.registry)
    (a b : string) (wa wb : Hub.socket) (offer : option json) :
  JSMap.get b peers = Some wb ->
  rs wb = Hub.OPEN ->
  Relay.through_hub rs peers a wa [WsSend (offer_msg b offer)]
  = [(wb, Some (SigOffer a offer))].
Proof.
  intros Hb Hopen. unfold Relay.through_hub, offer_msg. cbn [flat_map app].
  rewrite (hub_forwards rs peers a b wa wb "offer" _ Hb Hopen) by auto.
  destruct offer; reflexivity.
Qed.

Lemma relayed_answer (rs : Hub.socket -> Hub.readyState) (peers : Hub.registry)
    (a b : string) (wa wb : Hub.socket) (answer : option json) :
  JSMap.get b peers = Some wb ->
  rs wb = Hub.OPEN ->
  Relay.through_hub rs peers a wa [WsSend (answer_msg b answer)]
  = [(wb, Some (SigAnswer a answer))].
Proof.
  intros Hb Hopen. unfold Relay.through_hub, answer_msg. cbn [flat_map app].
  rewrite (hub_forwards rs peers a b wa wb "answer" _ Hb Hopen) by auto.
  destruct answer; reflexivity.
Qed.

(** X15. Dialling.  With the relay link open, for a peer that has no
    record and is not the endpoint itself, [connectToPeer] followed by the
    two resolutions it awaits makes exactly three calls, in order:
    [createOffer], [setLocalDescription] of that offer, and the send of
    [{type:'offer', targetPeerId, offer}] to the relay.  The peer then has
    a record, entered after the existing ones, that holds the offer as its
    local description, no remote description, an empty queue and a data
    channel of its own that is still connecting; the status is
    [connecting], the connections list is untouched and a second
    [connectToPeer] to that peer does nothing. *)
Theorem dial_sends_offer (remote : string) (offer v : option json) (st : state) :
  ws_open st = true ->
  JSMap.has remote (peerConnectionsRef st) = false ->
  peerId st <> Some remote ->
  let pc := length (pcs st) in
  let ch := length (channels st) in
  let t := length (tasks st) in
  let r := run candidate_ok
             [CallConnectToPeer remote; Settle t (Resolved offer); Settle t (Resolved v)] st in
  snd r = [CreateOffer pc; SetLocalDescription pc offer; WsSend (offer_msg remote offer)]
  /\ JSMap.get remote (peerConnectionsRef (fst r)) = Some pc
  /\ (forall q, q <> remote ->
        JSMap.get q (peerConnectionsRef (fst r)) = JSMap.get q (peerConnectionsRef st))
  /\ pcs (fst r) !! pc
     = Some {| remotePeerId := remote; isInitiator := true;
               remoteDescription := None; localDescription := Some offer;
               dataChannel := Some ch; pendingIceCandidates := [] |}
  /\ channels (fst r) !! ch = Some {| owner := pc; ch_readyState := ch_connecting |}
  /\ status (fst r) = connecting
  /\ connections (fst r) = connections st
  /\ tasks (fst r) = tasks st ++ [None]
  /\ step candidate_ok (CallConnectToPeer remote) (fst r) = (fst r, []).
Proof.
  intros Hws Hhas Hself. cbn zeta.
  rewrite (dial_run remote offer v st Hws Hhas Hself). cbn [fst snd]. state_norm.
  split; [reflexivity |].
  split; [apply get_set_eq |].
  split; [intros q Hq; apply get_set_ne; congruence |].
  split; [apply lookup_snoc |]. split; [apply lookup_snoc |].
  split; [reflexivity |]. split; [reflexivity |]. split; [reflexivity |].
  apply (redial_noop remote (length (pcs st))). state_norm. apply get_set_eq.
Qed.

(** X16. A dial that fails cannot be repeated.  When [createOffer] or
    [setLocalDescription] rejects, nothing is sent to the relay and the
    status becomes [error], but the record made for the peer stays in the
    registry: a further [connectToPeer] to that peer returns at the
    "already connected" guard, and an offer coming from that peer is
    dropped as a duplicate. *)
Theorem failed_dial_blocks_redial (remote : string) (offer : option json) (st : state) :
  ws_open st = true ->
  JSMap.has remote (peerConnectionsRef st) = false ->
  peerId st <> Some remote ->
  let pc := length (pcs st) in
  let t := length (tasks st) in
  forall es,
    es = [CallConnectToPeer remote; Settle t Rejected]
    \/ es = [CallConnectToPeer remote; Settle t (Resolved offer); Settle t Rejected] ->
    let r := run candidate_ok es st in
    status (fst r) = error
    /\ (forall payload, ~ In (WsSend payload) (snd r))
    /\ JSMap.get remote (peerConnectionsRef (fst r)) = Some pc
    /\ tasks (fst r) !! t = Some None
    /\ step candidate_ok (CallConnectToPeer remote) (fst r) = (fst r, [])
    /\ (forall o, step candidate_ok (WsMessage (Some (SigOffer remote o))) (fst r)
                  = (fst r, [])).
Proof.
  intros Hws Hhas Hself. cbn zeta. intros es Hes.
  set (pc := length (pcs st)).
  assert (Hrun : exists st' out,
             run candidate_ok es st = (st', out)
             /\ status st' = error
             /\ (forall payload, ~ In (WsSend payload) out)
             /\ peerConnectionsRef st' = JSMap.set remote pc (peerConnectionsRef st)
             /\ tasks st' = tasks st ++ [None]).
  { destruct Hes as [-> | ->].
    - rewrite run_cons, (call_connect remote st Hws Hhas Hself). cbn [fst snd].
      rewrite run_cons, (settle_task _ (AwaitCreateOffer (length (pcs st)) remote));
        [| apply lookup_snoc].
      cbn [resume]. state_norm. rewrite insert_snoc. cbn [run app]. state_norm.
      eexists _, _. split; [reflexivity |].
      split; [reflexivity |]. split; [| split; reflexivity].
      intros payload [H | []]. discriminate H.
    - rewrite run_cons, (call_connect remote st Hws Hhas Hself). cbn [fst snd].
      rewrite run_cons, (settle_task _ (AwaitCreateOffer (length (pcs st)) remote));
        [| apply lookup_snoc].
      cbn [resume]. state_norm. rewrite insert_snoc.
      rewrite run_cons,
        (settle_task _ (AwaitSetLocalOffer (length (pcs st)) remote offer));
        [| apply lookup_snoc].
      cbn [resume]. state_norm. rewrite insert_snoc. cbn [run app]. state_norm.
      eexists _, _. split; [reflexivity |].
      split; [reflexivity |]. split; [| split; reflexivity].
      intros payload [H | [H | []]]; discriminate H. }
  destruct Hrun as (st' & out & -> & Hstatus & Hout & Hreg & Htasks). cbn [fst snd].
  assert (Hget : JSMap.get remote (peerConnectionsRef st') = Some pc).
  { rewrite Hreg. apply get_set_eq. }
  split; [exact Hstatus |]. split; [exact Hout |]. split; [exact Hget |].
  split; [rewrite Htasks; apply lookup_snoc |].
  split; [exact (redial_noop remote pc st' Hget) |].
  intros o. cbn [step]. apply offer_with_record. unfold JSMap.has. rewrite Hget. reflexivity.
Qed.

(** X17. Answering.  An offer from a peer that has no record, followed by
    the three resolutions its handler awaits, makes in order
    [setRemoteDescription] of the offer, [createAnswer],
    [setLocalDescription] of the answer and, when the relay link is open,
    the send of [{type:'answer', targetPeerId, answer}].  The peer then has
    a record that holds the offer as remote and the answer as local
    description, with no data channel yet; the status and the connections
    list are as they were. *)
Theorem offer_answered (fromPeerId : string) (offer answer v1 v2 : option json)
    (st : state) :
  JSMap.has fromPeerId (peerConnectionsRef st) = false ->
  let pc := length (pcs st) in
  let t := length (tasks st) in
  let r := run candidate_ok
             [WsMessage (Some (SigOffer fromPeerId offer)); Settle t (Resolved v1);
              Settle t (Resolved answer); Settle t (Resolved v2)] st in
  snd r
  = [SetRemoteDescription pc offer; CreateAnswer pc; SetLocalDescription pc answer]
    ++ (if ws_open st then [WsSend (answer_msg fromPeerId answer)] else [])
  /\ JSMap.get fromPeerId (peerConnectionsRef (fst r)) = Some pc
  /\ (forall q, q <> fromPeerId ->
        JSMap.get q (peerConnectionsRef (fst r)) = JSMap.get q (peerConnectionsRef st))
  /\ pcs (fst r) !! pc
     = Some {| remotePeerId := fromPeerId; isInitiator := false;
               remoteDescription := Some offer; localDescription := Some answer;
               dataChannel := None; pendingIceCandidates := [] |}
  /\ channels (fst r) = channels st
  /\ status (fst r) = status st
  /\ connections (fst r) = connections st
  /\ tasks (fst r) = tasks st ++ [None]
  /\ step candidate_ok (CallConnectToPeer fromPeerId) (fst r) = (fst r, []).
Proof.
  intros Hhas. cbn zeta.
  rewrite (answer_run fromPeerId offer answer v1 v2 st Hhas). cbn [fst snd]. state_norm.
  split; [reflexivity |].
  split; [apply get_set_eq |].
  split; [intros q Hq; apply get_set_ne; congruence |].
  split; [apply lookup_snoc |].
  split; [reflexivity |]. split; [reflexivity |]. split; [reflexivity |].
  split; [reflexivity |].
  apply (redial_noop fromPeerId (length (pcs st))). state_norm. apply get_set_eq.
Qed.

(** X18. The hook and the server agree on the messages.  What the hook of
    the endpoint registered as [a] sends for a peer [b] whose socket is
    open (an offer, an answer, a candidate) reaches the socket of [b]
    alone, once, and the hook there reads it as the offer, answer or
    candidate of [a] with the same payload.  The greeting of the server
    is read as the endpoint's identifier, and the notices of a departure
    are read, by the hooks on open sockets only, as the disconnection of
    the identifier that left. *)
Theorem relay_agreement (rs : Hub.socket -> Hub.readyState) (peers : Hub.registry)
    (a b : string) (wa wb : Hub.socket) (offer answer : option json) (c : json) :
  JSMap.get b peers = Some wb ->
  rs wb = Hub.OPEN ->
  Relay.through_hub rs peers a wa [WsSend (offer_msg b offer)]
  = [(wb, Some (SigOffer a offer))]
  /\ Relay.through_hub rs peers a wa [WsSend (answer_msg b answer)]
     = [(wb, Some (SigAnswer a answer))]
  /\ Relay.through_hub rs peers a wa [WsSend (ice_candidate_msg b c)]
     = [(wb, Some (SigIceCandidate a (Some c)))]
  /\ Relay.decode (Hub.peer_id_msg a) = Some (SigPeerId a)
  /\ (forall w m, In (w, m) (Relay.departure rs peers a) ->
        m = Some (SigPeerDisconnected a) /\ rs w = Hub.OPEN).
Proof.
  intros Hb Hopen.
  split; [| split; [| split; [| split]]].
  - exact (relayed_offer rs peers a b wa wb offer Hb Hopen).
  - exact (relayed_answer rs peers a b wa wb answer Hb Hopen).
  - unfold Relay.through_hub, ice_candidate_msg. cbn [flat_map app].
    rewrite (hub_forwards rs peers a b wa wb "ice-candidate" _ Hb Hopen) by auto.
    reflexivity.
  - reflexivity.
  - intros w m Hin. unfold Relay.departure, Hub.on_close in Hin. cbn [snd] in Hin.
    apply in_map_iff in Hin. destruct Hin as [[w' q] [Heq Hin]].
    injection Heq as Hw Hm. subst w m.
    unfold Hub.notices in Hin. apply in_flat_map in Hin.
    destruct Hin as [[p' w''] [_ Hin]].
    destruct (Hub.readyState_eqb (rs w'') Hub.OPEN) eqn:E; [| destruct Hin].
    destruct Hin as [Hin | []]. injection Hin as Hw Hq. subst w' q.
    split; [reflexivity |].
    destruct (rs w''); try discriminate E. reflexivity.
Qed.

(** X19. A whole negotiation through the server.  [a] dials [b]; the
    offer reaches [b] alone, whose hook answers; the answer reaches [a]
    alone, whose hook applies it.  Each end then has one record, for the
    other end, in which the description it made is the local one and the
    description the other end made is the remote one.  The dialler shows
    [connecting] and the answerer [disconnected] until a channel opens. *)
Theorem handshake_through_relay (rs : Hub.socket -> Hub.readyState) (peers : Hub.registry)
    (a b : string) (wa wb : Hub.socket) (offer answer : option json) :
  a <> b ->
  JSMap.get a peers = Some wa ->
  JSMap.get b peers = Some wb ->
  rs wa = Hub.OPEN ->
  rs wb = Hub.OPEN ->
  let alice1 :=
    run candidate_ok
      [CallConnectToPeer b; Settle 0 (Resolved offer); Settle 0 (Resolved None)]
      (Relay.joined a) in
  let bob1 :=
    run candidate_ok
      [WsMessage (Some (SigOffer a offer)); Settle 0 (Resolved None);
       Settle 0 (Resolved answer); Settle 0 (Resolved None)]
      (Relay.joined b) in
  let alice2 :=
    run candidate_ok
      [WsMessage (Some (SigAnswer b answer)); Settle 1 (Resolved None)] (fst alice1) in
  Relay.through_hub rs peers a wa (snd alice1) = [(wb, Some (SigOffer a offer))]
  /\ Relay.through_hub rs peers b wb (snd bob1) = [(wa, Some (SigAnswer b answer))]
  /\ snd alice2 = [SetRemoteDescription 0 answer]
  /\ peerConnectionsRef (fst alice2) = [(b, 0)]
  /\ pcs (fst alice2)
     = [{| remotePeerId := b; isInitiator := true;
           remoteDescription := Some answer; localDescription := Some offer;
           dataChannel := Some 0; pendingIceCandidates := [] |}]
  /\ peerConnectionsRef (fst bob1) = [(a, 0)]
  /\ pcs (fst bob1)
     = [{| remotePeerId := a; isInitiator := false;
           remoteDescription := Some offer; localDescription := Some answer;
           dataChannel := None; pendingIceCandidates := [] |}]
  /\ status (fst alice2) = connecting
  /\ status (fst bob1) = disconnected.
Proof.
  intros Hab Ha Hb Hoa Hob. cbn zeta.
  assert (Hself : peerId (Relay.joined a) <> Some b).
  { change (peerId (Relay.joined a)) with (Some a). congruence. }
  assert (Hd := dial_run b offer None (Relay.joined a) eq_refl eq_refl Hself).
  assert (Hr := answer_run a offer answer None None (Relay.joined b) eq_refl).
  cbn zeta in Hd, Hr.
  change (length (tasks (Relay.joined a))) with 0 in Hd.
  change (length (tasks (Relay.joined b))) with 0 in Hr.
  rewrite Hd, Hr. clear Hd Hr. cbn [fst snd].
  assert (Hoffer := relayed_offer rs peers a b wa wb offer Hb Hob).
  assert (Hanswer := relayed_answer rs peers b a wb wa answer Ha Hoa).
  split.
  { change (length (pcs (Relay.joined a))) with 0.
    unfold Relay.through_hub in *. cbn [flat_map app] in *.
    rewrite ?app_nil_r in *. exact Hoffer. }
  split.
  { change (ws_open (Relay.joined b)) with true. cbn iota.
    change (length (pcs (Relay.joined b))) with 0.
    unfold Relay.through_hub in *. cbn [flat_map app] in *.
    rewrite ?app_nil_r in *. exact Hanswer. }
  rewrite run_cons. cbn [step handleSignalingMessage]. state_norm.
  change (pcs (Relay.joined a)) with (@nil PeerConnection).
  change (channels (Relay.joined a)) with (@nil DataChannel).
  change (tasks (Relay.joined a)) with (@nil (option task)).
  change (peerConnectionsRef (Relay.joined a)) with (@nil (string * nat)).
  change (pcs (Relay.joined b)) with (@nil PeerConnection).
  change (peerConnectionsRef (Relay.joined b)) with (@nil (string * nat)).
  cbn [app length JSMap.set JSMap.get]. rewrite String.eqb_refl.
  state_norm. cbn [app].
  rewrite run_cons, (settle_task _ (AwaitSetRemoteDescription InAnswer 0 answer));
    [| reflexivity].
  cbn. repeat split.
Qed.

(** X20. Dialling a peer that the server does not have, or whose socket
    there is not open: the offer the hook sends comes back from the server
    as the error message, to the dialler alone; the hook then shows
    [error], keeps the record it made for that peer, and so ignores a
    further [connectToPeer] to it. *)
Theorem absent_peer_dial (rs : Hub.socket -> Hub.readyState) (peers : Hub.registry)
    (a b : string) (wa : Hub.socket) (offer v : option json) (st : state) :
  ws_open st = true ->
  JSMap.has b (peerConnectionsRef st) = false ->
  peerId st <> Some b ->
  JSMap.get b peers = None
  \/ (exists wb, JSMap.get b peers = Some wb /\ rs wb <> Hub.OPEN) ->
  let t := length (tasks st) in
  let r := run candidate_ok
             [CallConnectToPeer b; Settle t (Resolved offer); Settle t (Resolved v)] st in
  let reply := SigError (Some (JStr ("Peer " +:+ b +:+ " not available"))) in
  let st' := fst (step candidate_ok (WsMessage (Some reply)) (fst r)) in
  Relay.through_hub rs peers a wa (snd r) = [(wa, Some reply)]
  /\ status st' = error
  /\ JSMap.get b (peerConnectionsRef st') = Some (length (pcs st))
  /\ step candidate_ok (CallConnectToPeer b) st' = (st', []).
Proof.
  intros Hws Hhas Hself Habsent. cbn zeta.
  rewrite (dial_run b offer v st Hws Hhas Hself). cbn [fst snd step handleSignalingMessage].
  state_norm.
  split.
  { unfold Relay.through_hub, offer_msg. cbn [flat_map app]. rewrite app_nil_r.
    assert (Hhub : forall rest,
              snd (Hub.on_message rs a wa
                     (Some (JObj (("type", JStr "offer") :: ("targetPeerId", JStr b) :: rest)))
                     peers)
              = [Hub.Send wa (Hub.error_msg ("Peer " +:+ b +:+ " not available"))]).
    { intros rest. cbn. unfold Hub.forward. cbn.
      destruct Habsent as [-> | (wb & -> & Hclosed)]; [reflexivity |].
      destruct (rs wb); try reflexivity. contradiction. }
    cbn [app]. rewrite Hhub. reflexivity. }
  split; [reflexivity |].
  assert (Hget : JSMap.get b (JSMap.set b (length (pcs st)) (peerConnectionsRef st))
                 = Some (length (pcs st))) by apply get_set_eq.
  split; [exact Hget |].
  apply (redial_noop b (length (pcs st))). exact Hget.
Qed.

(** X21. On [peer-disconnected] for a peer that has a record, the
    connection of that record is closed, the record is taken out of the
    registry (the others are kept) and the peer leaves the connections
    list; a file can no longer be sent to it.  The metadata stored for
    that peer and the handlers that are suspended are left as they are.
    A later offer from the same identifier is accepted as a new
    connection. *)
Theorem peer_disconnected_forgets (p : string) (pc : nat) (st : state) :
  JSMap.get p (peerConnectionsRef st) = Some pc ->
  let r := step candidate_ok (WsMessage (Some (SigPeerDisconnected p))) st in
  snd r = [ClosePeer pc]
  /\ JSMap.get p (peerConnectionsRef (fst r)) = None
  /\ (forall q, q <> p ->
        JSMap.get q (peerConnectionsRef (fst r)) = JSMap.get q (peerConnectionsRef st))
  /\ ~ In p (connections (fst r))
  /\ pcs (fst r) = pcs st /\ channels (fst r) = channels st /\ tasks (fst r) = tasks st
  /\ fileMetadataRef (fst r) = fileMetadataRef st
  /\ (forall f, sendFileToPeer f p (fst r) = (false, fst r, []))
  /\ (forall offer,
        snd (step candidate_ok (WsMessage (Some (SigOffer p offer))) (fst r))
        = [SetRemoteDescription (length (pcs st)) offer]).
Proof.
  intros Hget. cbn zeta. cbn [step handleSignalingMessage]. rewrite Hget. cbn [fst snd].
  set (st1 := set_peerConnectionsRef (JSMap.delete p (peerConnectionsRef st)) st).
  destruct (updateConnectionsList_refs st1) as (Hreg & _ & Hpcs & Hch & Htasks).
  assert (Hnone : JSMap.get p (peerConnectionsRef st1) = None) by apply get_delete_eq.
  rewrite Hreg, Hpcs, Hch, Htasks.
  split; [reflexivity |]. split; [exact Hnone |].
  split; [intros q Hq; apply get_delete_ne; congruence |].
  split; [apply not_listed; exact Hnone |].
  split; [reflexivity |]. split; [reflexivity |]. split; [reflexivity |].
  split.
  { unfold updateConnectionsList.
    destruct (0 <? _)%nat; [reflexivity |]. destruct (ws_open st1); reflexivity. }
  split.
  { intros f. unfold sendFileToPeer. rewrite Hreg, Hnone. reflexivity. }
  intros offer. unfold JSMap.has. rewrite Hnone.
  unfold createPeerConnection. rewrite Hpcs. reflexivity.
Qed.

(** X22. When the transport reports a connection as failed or closed, the
    registry entry of that connection's remote identifier is deleted,
    whichever record is entered under it, and the peer leaves the
    connections list; nothing is closed: neither the connection nor its
    data channel. *)
Theorem failed_connection_forgotten (pc : nat) (p : PeerConnection) (s : connectionState)
    (st : state) :
  pcs st !! pc = Some p ->
  s = pc_failed \/ s = pc_closed ->
  let r := step candidate_ok (OnConnectionStateChange pc s) st in
  snd r = []
  /\ JSMap.get (remotePeerId p) (peerConnectionsRef (fst r)) = None
  /\ (forall q, q <> remotePeerId p ->
        JSMap.get q (peerConnectionsRef (fst r)) = JSMap.get q (peerConnectionsRef st))
  /\ ~ In (remotePeerId p) (connections (fst r))
  /\ pcs (fst r) = pcs st /\ channels (fst r) = channels st.
Proof.
  intros Hp Hs. cbn zeta. cbn [step]. rewrite Hp.
  set (st1 := set_peerConnectionsRef
                (JSMap.delete (remotePeerId p) (peerConnectionsRef st)) st).
  assert (Hstep : match s with
                  | pc_connected => (updateConnectionsList st, [])
                  | pc_failed | pc_closed => (updateConnectionsList st1, [])
                  | _ => (st, @nil effect)
                  end = (updateConnectionsList st1, [])).
  { destruct Hs as [-> | ->]; reflexivity. }
  rewrite Hstep. cbn [fst snd].
  destruct (updateConnectionsList_refs st1) as (Hreg & _ & Hpcs & Hch & _).
  assert (Hnone : JSMap.get (remotePeerId p) (peerConnectionsRef st1) = None)
    by apply get_delete_eq.
  rewrite Hreg, Hpcs, Hch.
  split; [reflexivity |]. split; [exact Hnone |].
  split; [intros q Hq; apply get_delete_ne; congruence |].
  split; [apply not_listed; exact Hnone |].
  split; reflexivity.
Qed.

(** X23. The cleanup of the hook closes the connection of every record of
    the registry, and the data channel of every record that has one; it
    closes no other connection, and ends with the one call that closes
    the relay link.  The registry is then empty and the hook is no longer
    initialised, while the connections list and the status stay as they
    were.  A second cleanup does nothing, and after the cleanup neither
    [sendFile] nor [connectToPeer] does anything. *)
Theorem cleanup_closes_everything (st : state) :
  isInitialized st = true ->
  let r := step candidate_ok Unmount st in
  (forall p pc, In (p, pc) (peerConnectionsRef st) -> In (ClosePeer pc) (snd r))
  /\ (forall p pc ch, In (p, pc) (peerConnectionsRef st) -> channel_of st pc = Some ch ->
        In (CloseChannel ch) (snd r))
  /\ (forall pc, In (ClosePeer pc) (snd r) -> exists p, In (p, pc) (peerConnectionsRef st))
  /\ (exists closes, snd r = closes ++ [WsCloseCall] /\ ~ In WsCloseCall closes)
  /\ peerConnectionsRef (fst r) = JSMap.empty
  /\ isInitialized (fst r) = false
  /\ connections (fst r) = connections st
  /\ status (fst r) = status st
  /\ step candidate_ok Unmount (fst r) = (fst r, [])
  /\ (forall f, sendFile f (fst r) = (false, fst r, []))
  /\ (forall remote, step candidate_ok (CallConnectToPeer remote) (fst r) = (fst r, [])).
Proof.
  intros Hinit. cbn zeta. cbn [step]. unfold cleanup. rewrite Hinit. cbn [fst snd].
  set (closes := flat_map _ (JSMap.entries (peerConnectionsRef st))).
  assert (Hin : forall e, In e closes <->
            exists p pc, In (p, pc) (peerConnectionsRef st)
              /\ In e (match channel_of st pc with
                       | Some ch => [CloseChannel ch; ClosePeer pc]
                       | None => [ClosePeer pc]
                       end)).
  { intros e. subst closes. rewrite in_flat_map. unfold JSMap.entries. split.
    - intros [[p pc] [H1 H2]]. exists p, pc. auto.
    - intros (p & pc & H1 & H2). exists (p, pc). auto. }
  split; [| split; [| split; [| split]]].
  - intros p pc Hp. apply in_or_app. left. apply Hin. exists p, pc. split; [exact Hp |].
    destruct (channel_of st pc); cbn; auto.
  - intros p pc ch Hp Hch. apply in_or_app. left. apply Hin. exists p, pc.
    split; [exact Hp |]. rewrite Hch. cbn. auto.
  - intros pc Hpc. apply in_app_or in Hpc. destruct Hpc as [Hpc | [Hpc | []]];
      [| discriminate Hpc].
    apply Hin in Hpc. destruct Hpc as (p & pc' & Hp & He). exists p.
    destruct (channel_of st pc'); cbn in He.
    + destruct He as [He | [He | []]]; [discriminate He | injection He as ->; exact Hp].
    + destruct He as [He | []]. injection He as ->. exact Hp.
  - exists closes. split; [reflexivity |]. intros Hws. apply Hin in Hws.
    destruct Hws as (p & pc & _ & He). destruct (channel_of st pc); cbn in He.
    + destruct He as [He | [He | []]]; discriminate He.
    + destruct He as [He | []]. discriminate He.
  - repeat split.
    intros remote. unfold connectToPeer, ws_open. cbn [wsRef set_isInitialized set_wsRef].
    destruct (wsRef st) as [[| | |] |]; reflexivity.
Qed.

(** X24. On the answering side the data channel comes from the peer: when
    it is announced it becomes the channel of the record, without
    changing the connections list; when it opens, the peer enters the
    list, the status is [connected] and a file can be sent to it; when
    it closes, the peer leaves the list and [sendFileToPeer] refuses. *)
Theorem channel_lifecycle (p : string) (pc : nat) (rec : PeerConnection)
    (s : channelState) (st : state) :
  JSMap.get p (peerConnectionsRef st) = Some pc ->
  pcs st !! pc = Some rec ->
  isInitiator rec = false ->
  let ch := length (channels st) in
  let st1 := fst (step candidate_ok (OnDataChannel pc s) st) in
  let st2 := fst (step candidate_ok (ChannelOpen ch) st1) in
  let st3 := fst (step candidate_ok (ChannelClose ch) st2) in
  channel_of st1 pc = Some ch
  /\ connections st1 = connections st
  /\ In p (connections st2)
  /\ status st2 = connected
  /\ (forall f, fst (fst (sendFileToPeer f p st2)) = true)
  /\ ~ In p (connections st3)
  /\ (forall f, sendFileToPeer f p st3 = (false, st3, [])).
Proof.
  intros Hget Hrec Hresp. cbn zeta. cbn [step]. rewrite Hrec, Hresp. cbn [fst].
  set (st0 := set_channels (channels st ++ [{| owner := pc; ch_readyState := s |}]) st).
  set (st1 := update_pc pc (with_dataChannel (Some (length (channels st)))) st0).
  assert (Hch1 : channels st1 = channels st ++ [{| owner := pc; ch_readyState := s |}]).
  { subst st1. unfold update_pc. destruct (pcs st0 !! pc); reflexivity. }
  assert (Hpc1 : pcs st1 !! pc = Some (with_dataChannel (Some (length (channels st))) rec)).
  { subst st1. apply pcs_update_pc_eq. exact Hrec. }
  assert (Hreg1 : peerConnectionsRef st1 = peerConnectionsRef st).
  { subst st1. rewrite peerConnectionsRef_update_pc. reflexivity. }
  assert (Hof1 : channel_of st1 pc = Some (length (channels st))).
  { unfold channel_of. rewrite Hpc1. reflexivity. }
  assert (Hcon1 : connections st1 = connections st).
  { subst st1. unfold update_pc. destruct (pcs st0 !! pc); reflexivity. }
  split; [exact Hof1 |]. split; [exact Hcon1 |].
  rewrite Hch1, lookup_snoc. cbn [fst].
  set (st2' := set_channel_state (length (channels st)) ch_open st1).
  assert (Hch2 : channels st2'
                 = channels st ++ [{| owner := pc; ch_readyState := ch_open |}]).
  { subst st2'. unfold set_channel_state. rewrite Hch1, lookup_snoc. cbn [channels set_channels].
    apply insert_snoc. }
  assert (Hpcs2 : pcs st2' = pcs st1).
  { subst st2'. unfold set_channel_state. destruct (channels st1 !! _); reflexivity. }
  assert (Hreg2 : peerConnectionsRef st2' = peerConnectionsRef st).
  { subst st2'. unfold set_channel_state. destruct (channels st1 !! _); exact Hreg1. }
  assert (Hopen2 : dataChannel_open st2' pc = true).
  { unfold dataChannel_open, channel_of, channel_is_open.
    rewrite Hpcs2, Hpc1. cbn [dataChannel with_dataChannel]. rewrite Hch2, lookup_snoc.
    reflexivity. }
  assert (Hin2 : In p (connections (updateConnectionsList st2'))).
  { apply (listed_iff p pc); [rewrite Hreg2; exact Hget | exact Hopen2]. }
  destruct (updateConnectionsList_refs st2') as (Hr & _ & Hp & Hc & _).
  split; [exact Hin2 |]. split; [exact (listed_status p st2' Hin2) |].
  split.
  { intros f. unfold sendFileToPeer. rewrite Hr, Hreg2, Hget.
    assert (Ho : dataChannel_open (updateConnectionsList st2') pc = true).
    { unfold dataChannel_open, channel_of, channel_is_open in *. rewrite Hp, Hc. exact Hopen2. }
    rewrite Ho. destruct (send_to f pc _). reflexivity. }
  rewrite Hc, Hch2, lookup_snoc. cbn [fst].
  set (st3' := set_channel_state (length (channels st)) ch_closed (updateConnectionsList st2')).
  assert (Hch3 : channels st3'
                 = channels st ++ [{| owner := pc; ch_readyState := ch_closed |}]).
  { subst st3'. unfold set_channel_state. rewrite Hc, Hch2, lookup_snoc.
    cbn [channels set_channels]. apply insert_snoc. }
  assert (Hpcs3 : pcs st3' = pcs st1).
  { subst st3'. unfold set_channel_state. rewrite Hc, Hch2, lookup_snoc.
    cbn [pcs set_channels]. rewrite Hp. exact Hpcs2. }
  assert (Hreg3 : peerConnectionsRef st3' = peerConnectionsRef st).
  { subst st3'. unfold set_channel_state. rewrite Hc, Hch2, lookup_snoc.
    cbn [peerConnectionsRef set_channels]. rewrite Hr. exact Hreg2. }
  assert (Hopen3 : dataChannel_open st3' pc = false).
  { unfold dataChannel_open, channel_of, channel_is_open.
    rewrite Hpcs3, Hpc1. cbn [dataChannel with_dataChannel]. rewrite Hch3, lookup_snoc.
    reflexivity. }
  destruct (updateConnectionsList_refs st3') as (Hr3 & _ & Hp3 & Hc3 & _).
  split.
  { intros Hin. apply (listed_iff p pc) in Hin; [| rewrite Hreg3; exact Hget]. congruence. }
  intros f. unfold sendFileToPeer. rewrite Hr3, Hreg3, Hget.
  assert (Ho : dataChannel_open (updateConnectionsList st3') pc = false).
  { unfold dataChannel_open, channel_of, channel_is_open in *. rewrite Hp3, Hc3. exact Hopen3. }
  rewrite Ho. reflexivity.
Qed.

(** X25. A file sent with [sendFileToPeer] over an open channel goes out
    as two messages on that channel: its metadata as a string, then,
    once the file has been read, its bytes.  An endpoint that receives
    these two messages from a sender, the second as a [Blob] or as an
    [ArrayBuffer], downloads exactly these bytes under the name of the
    file (when the name is not empty), lists the file with its size, and
    holds no metadata for that sender afterwards. *)
Theorem file_round_trip (f : File) (p sender : string) (pc ch : nat) (v : option json)
    (d : data) (now0 stamp0 now stamp : Z) (st rx : state) :
  JSMap.get p (peerConnectionsRef st) = Some pc ->
  channel_of st pc = Some ch ->
  channel_is_open st ch = true ->
  name f <> "" ->
  is_binary d = Some (bytes f) ->
  let t := length (tasks st) in
  let out := snd (run candidate_ok [CallSendFileToPeer f p; Settle t (Resolved v)] st) in
  let r1 := handleIncomingData (DString (Some (file_metadata f))) sender now0 stamp0 rx in
  let r2 := handleIncomingData d sender now stamp (fst r1) in
  out = [ChannelSend ch (DString (Some (file_metadata f)));
         ChannelSend ch (DArrayBuffer (bytes f))]
  /\ snd r1 = []
  /\ snd r2 = [DownloadFile (bytes f) (JStr (name f))]
  /\ receivedFiles (fst r2)
     = receivedFiles rx
       ++ [{| rf_name := JStr (name f); rf_size := file_size f; rf_timestamp := stamp |}]
  /\ JSMap.get sender (fileMetadataRef (fst r2)) = None.
Proof.
  intros Hget Hof Hopen Hname Hbin. cbn zeta.
  split.
  { rewrite run_cons, (call_sendFileToPeer f p pc ch st Hget Hof Hopen). cbn [fst snd].
    rewrite run_cons, (settle_task _ (AwaitArrayBuffer pc (bytes f))); [| apply lookup_snoc].
    cbn [resume].
    change (channel_of (set_tasks ?x st) pc) with (channel_of st pc).
    rewrite Hof.
    change (channel_is_open (set_tasks ?x st) ch) with (channel_is_open st ch).
    rewrite Hopen. reflexivity. }
  assert (Hfile : filename_for
                    (JSMap.get sender
                       (JSMap.set sender (file_metadata f) (fileMetadataRef rx))) now
                  = JStr (name f)).
  { rewrite get_set_eq. unfold filename_for, file_metadata. cbn.
    destruct (String.eqb (name f) "") eqn:E; [apply String.eqb_eq in E; contradiction |].
    reflexivity. }
  rewrite (receive_binary_data d (bytes f)) by exact Hbin.
  cbn [handleIncomingData is_file_metadata]. unfold receive_file.
  cbn [fst snd fileMetadataRef set_fileMetadataRef setReceivedFiles receivedFiles].
  change (is_file_metadata (file_metadata f)) with true. cbn iota.
  cbn [fst snd fileMetadataRef set_fileMetadataRef setReceivedFiles receivedFiles].
  rewrite Hfile.
  split; [reflexivity |]. split; [reflexivity |]. split; [reflexivity |].
  apply get_delete_eq.
Qed.

(** X26. The bytes follow the metadata only after the file has been read.
    When the channel closes in between, the metadata has gone out and the
    bytes never do: the read completes without any call. *)
Theorem unsent_bytes_when_channel_closes (f : File) (p : string) (pc ch : nat)
    (v : option json) (st : state) :
  JSMap.get p (peerConnectionsRef st) = Some pc ->
  channel_of st pc = Some ch ->
  channel_is_open st ch = true ->
  let t := length (tasks st) in
  let r := run candidate_ok
             [CallSendFileToPeer f p; ChannelClose ch; Settle t (Resolved v)] st in
  snd r = [ChannelSend ch (DString (Some (file_metadata f)))]
  /\ tasks (fst r) = tasks st ++ [None].
Proof.
  intros Hget Hof Hopen. cbn zeta.
  destruct (channel_is_open_Some st ch Hopen) as [c Hc].
  rewrite run_cons, (call_sendFileToPeer f p pc ch st Hget Hof Hopen). cbn [fst snd].
  set (st1 := set_tasks _ st).
  rewrite run_cons. cbn [step].
  change (channels st1) with (channels st). rewrite Hc. cbn [fst snd].
  set (st2 := set_channel_state ch ch_closed st1).
  assert (Hch2 : channels st2 = <[ch := {| owner := owner c; ch_readyState := ch_closed |}]>
                                  (channels st)).
  { subst st2. unfold set_channel_state. change (channels st1) with (channels st).
    rewrite Hc. reflexivity. }
  assert (Hst2 : pcs st2 = pcs st /\ tasks st2 = tasks st1).
  { subst st2. unfold set_channel_state. change (channels st1) with (channels st).
    rewrite Hc. split; reflexivity. }
  destruct Hst2 as [Hpcs2 Htasks2].
  destruct (updateConnectionsList_refs st2) as (_ & _ & Hp & Hcs & Ht).
  rewrite run_cons, (settle_task _ (AwaitArrayBuffer pc (bytes f)));
    [| rewrite Ht, Htasks2; apply lookup_snoc].
  cbn [resume].
  assert (Hof2 : channel_of (updateConnectionsList st2) pc = Some ch).
  { unfold channel_of in *. rewrite Hp, Hpcs2. exact Hof. }
  assert (Hclosed : channel_is_open (updateConnectionsList st2) ch = false).
  { unfold channel_is_open. rewrite Hcs, Hch2, list_lookup_insert_eq; [reflexivity |].
    apply lookup_lt_Some in Hc. exact Hc. }
  rewrite Hof2, Hclosed. cbn [fst snd run app tasks set_tasks].
  rewrite Ht, Htasks2. subst st1. cbn [tasks set_tasks]. rewrite insert_snoc.
  split; reflexivity.
Qed.

(** X27. [sendFile] with at least one open channel returns [true], sends
    the metadata once on the channel of every record whose channel is
    open, in registry order, and leaves one read pending for each of
    them, in the same order; the records whose channel is not open get
    nothing.  The registry, the connections and the status are
    unchanged. *)
Theorem sendFile_fanout (f : File) (st : state) :
  openConnections st <> [] ->
  let r := sendFile f st in
  fst (fst r) = true
  /\ snd r
     = flat_map
         (fun '(_, pc) =>
            match channel_of st pc with
            | Some ch => [ChannelSend ch (DString (Some (file_metadata f)))]
            | None => []
            end) (openConnections st)
  /\ length (snd r) = length (openConnections st)
  /\ tasks (snd (fst r))
     = tasks st ++ map (fun '(_, pc) => Some (AwaitArrayBuffer pc (bytes f)))
                     (openConnections st)
  /\ (forall p pc, In (p, pc) (openConnections st) <->
        In (p, pc) (peerConnectionsRef st) /\ dataChannel_open st pc = true)
  /\ pcs (snd (fst r)) = pcs st /\ channels (snd (fst r)) = channels st
  /\ peerConnectionsRef (snd (fst r)) = peerConnectionsRef st
  /\ status (snd (fst r)) = status st.
Proof.
  intros Hne. cbn zeta.
  assert (Hopen : forall p pc, In (p, pc) (openConnections st) <->
            In (p, pc) (peerConnectionsRef st) /\ dataChannel_open st pc = true).
  { intros p pc. unfold openConnections, JSMap.entries. rewrite List.filter_In. reflexivity. }
  assert (Hrun : sendFile f st
                 = (true,
                    set_tasks (tasks st
                               ++ map (fun '(_, pc) => Some (AwaitArrayBuffer pc (bytes f)))
                                    (openConnections st)) st,
                    flat_map
                      (fun '(_, pc) =>
                         match channel_of st pc with
                         | Some ch => [ChannelSend ch (DString (Some (file_metadata f)))]
                         | None => []
                         end) (openConnections st))).
  { unfold sendFile. destruct (openConnections st) as [| c conns] eqn:E; [contradiction |].
    rewrite send_fold; [reflexivity |].
    intros p pc Hin. exact (proj2 (proj1 (Hopen p pc) Hin)). }
  rewrite Hrun. cbn [fst snd].
  split; [reflexivity |]. split; [reflexivity |].
  split.
  { apply metadata_count. intros p pc H. exact (proj2 (proj1 (Hopen p pc) H)). }
  split; [reflexivity |]. split; [exact Hopen |]. repeat split.
Qed.

(** X29. A remote description, once applied to a connection, is never
    taken away again, whatever happens afterwards: no event removes it,
    the queue of that connection can only stay as it is or be emptied,
    and a candidate that arrives for it at any later time is handed to
    the transport at once, never queued. *)
Theorem description_is_never_lost (es : list event) :
  forall (st : state) (pc : nat),
    has_remoteDescription st pc = true ->
    let st' := fst (run candidate_ok es st) in
    has_remoteDescription st' pc = true
    /\ (pending_of st' pc = pending_of st pc \/ pending_of st' pc = [])
    /\ (forall fromPeerId c,
          JSMap.get fromPeerId (peerConnectionsRef st') = Some pc ->
          candidate_ok c = true ->
          step candidate_ok (WsMessage (Some (SigIceCandidate fromPeerId c))) st'
          = (st', [AddIceCandidate pc c false])).
Proof.
  assert (Hrun : forall st pc,
            has_remoteDescription st pc = true ->
            has_remoteDescription (fst (run candidate_ok es st)) pc = true
            /\ (pending_of (fst (run candidate_ok es st)) pc = pending_of st pc
                \/ pending_of (fst (run candidate_ok es st)) pc = [])).
  { induction es as [| e es IH]; intros st pc Hd.
    - cbn. auto.
    - rewrite run_fst.
      pose proof (remoteDescription_stays candidate_ok e st pc Hd) as Hd1.
      destruct (IH _ pc Hd1) as [Hd2 Hq2]. split; [exact Hd2 |].
      destruct (queue_grows_without_description candidate_ok e st pc Hd) as [Hq1 | Hq1];
        destruct Hq2 as [Hq2 | Hq2]; rewrite ?Hq2, ?Hq1; auto. }
  intros st pc Hd. cbn zeta. destruct (Hrun st pc Hd) as [Hd' Hq].
  split; [exact Hd' |]. split; [exact Hq |].
  intros fromPeerId c Hget Hok. cbn [step handleSignalingMessage]. rewrite Hget.
  unfold has_remoteDescription in Hd'.
  destruct (pcs (fst (run candidate_ok es st)) !! pc) as [p |]; [| discriminate].
  rewrite Hok. cbn [negb]. destruct (remoteDescription p); [reflexivity | discriminate].
Qed.

End WebRTCMore.

Section WebRTCMoreScenarios.

Import WebRTC.

Lemma alice_is_not_bob : peerId (Relay.joined "alice") <> Some "bob".
Proof. discriminate. Defined.

Lemma dial_sends_offer_witness :
  snd (run any_candidate
         [CallConnectToPeer "bob"; Settle 0 (Resolved (sdp "offer"));
          Settle 0 (Resolved None)] (Relay.joined "alice"))
  = [CreateOffer 0; SetLocalDescription 0 (sdp "offer");
     WsSend (offer_msg "bob" (sdp "offer"))].
Proof.
  destruct (dial_sends_offer any_candidate "bob" (sdp "offer") None (Relay.joined "alice")
              eq_refl eq_refl alice_is_not_bob) as (H & _).
  exact H.
Defined.

Lemma failed_dial_blocks_redial_witness :
  let st := fst (run any_candidate [CallConnectToPeer "bob"; Settle 0 Rejected]
                   (Relay.joined "alice")) in
  status st = error
  /\ step any_candidate (CallConnectToPeer "bob") st = (st, []).
Proof.
  destruct (failed_dial_blocks_redial any_candidate "bob" None (Relay.joined "alice")
              eq_refl eq_refl alice_is_not_bob
              [CallConnectToPeer "bob"; Settle 0 Rejected] (or_introl eq_refl))
    as (Hstatus & _ & _ & _ & Hredial & _).
  split; [exact Hstatus | exact Hredial].
Defined.

Lemma offer_answered_witness :
  snd (run any_candidate
         [WsMessage (Some (SigOffer "alice" (sdp "offer"))); Settle 0 (Resolved None);
          Settle 0 (Resolved (sdp "answer")); Settle 0 (Resolved None)]
         (Relay.joined "bob"))
  = [SetRemoteDescription 0 (sdp "offer"); CreateAnswer 0;
     SetLocalDescription 0 (sdp "answer"); WsSend (answer_msg "alice" (sdp "answer"))].
Proof.
  destruct (offer_answered any_candidate "alice" (sdp "offer") (sdp "answer") None None
              (Relay.joined "bob") eq_refl) as (H & _).
  exact H.
Defined.

Lemma relay_agreement_witness :
  Relay.through_hub Hub.carol_closing Hub.three_peers "alice" 0
    [WsSend (offer_msg "bob" (sdp "offer"))]
  = [(1, Some (SigOffer "alice" (sdp "offer")))].
Proof.
  destruct (relay_agreement Hub.carol_closing Hub.three_peers "alice" "bob" 0 1
              (sdp "offer") (sdp "answer") JNull eq_refl eq_refl) as (H & _).
  exact H.
Defined.

Lemma alice_bob_distinct : "alice" <> "bob".
Proof. discriminate. Defined.

Lemma handshake_through_relay_witness :
  let alice1 :=
    run any_candidate
      [CallConnectToPeer "bob"; Settle 0 (Resolved (sdp "offer")); Settle 0 (Resolved None)]
      (Relay.joined "alice") in
  let alice2 :=
    run any_candidate
      [WsMessage (Some (SigAnswer "bob" (sdp "answer"))); Settle 1 (Resolved None)]
      (fst alice1) in
  Relay.through_hub Hub.carol_closing Hub.three_peers "alice" 0 (snd alice1)
  = [(1, Some (SigOffer "alice" (sdp "offer")))]
  /\ snd alice2 = [SetRemoteDescription 0 (sdp "answer")].
Proof.
  destruct (handshake_through_relay any_candidate Hub.carol_closing Hub.three_peers
              "alice" "bob" 0 1 (sdp "offer") (sdp "answer")
              alice_bob_distinct eq_refl eq_refl eq_refl eq_refl)
    as (Hoffer & _ & Hanswer & _).
  split; [exact Hoffer | exact Hanswer].
Defined.

Lemma carol_is_closing :
  JSMap.get "carol" Hub.three_peers = None
  \/ (exists wb, JSMap.get "carol" Hub.three_peers = Some wb
                 /\ Hub.carol_closing wb <> Hub.OPEN).
Proof. right. exists 2. split; [reflexivity | discriminate]. Defined.

Lemma alice_is_not_carol : peerId (Relay.joined "alice") <> Some "carol".
Proof. discriminate. Defined.

Lemma absent_peer_dial_witness :
  Relay.through_hub Hub.carol_closing Hub.three_peers "alice" 0
    (snd (run any_candidate
            [CallConnectToPeer "carol"; Settle 0 (Resolved (sdp "offer"));
             Settle 0 (Resolved None)] (Relay.joined "alice")))
  = [(0, Some (SigError (Some (JStr "Peer carol not available"))))].
Proof.
  destruct (absent_peer_dial any_candidate Hub.carol_closing Hub.three_peers
              "alice" "carol" 0 (sdp "offer") None (Relay.joined "alice")
              eq_refl eq_refl alice_is_not_carol carol_is_closing) as (H & _).
  exact H.
Defined.

Lemma peer_disconnected_forgets_witness :
  let st := fst (run any_candidate bob_open initial) in
  let r := step any_candidate (WsMessage (Some (SigPeerDisconnected "bob"))) st in
  snd r = [ClosePeer 0]
  /\ JSMap.get "bob" (peerConnectionsRef (fst r)) = None
  /\ ~ In "bob" (connections (fst r)).
Proof.
  destruct (peer_disconnected_forgets any_candidate "bob" 0
              (fst (run any_candidate bob_open initial)) eq_refl)
    as (Hout & Hgone & _ & Hlist & _).
  split; [exact Hout |]. split; [exact Hgone | exact Hlist].
Defined.

Lemma failed_connection_forgotten_witness :
  let st := fst (run any_candidate bob_open initial) in
  let r := step any_candidate (OnConnectionStateChange 0 pc_failed) st in
  snd r = [] /\ JSMap.get "bob" (peerConnectionsRef (fst r)) = None.
Proof.
  destruct (failed_connection_forgotten any_candidate 0
              {| remotePeerId := "bob"; isInitiator := true;
                 remoteDescription := Some (sdp "answer");
                 localDescription := Some (sdp "offer");
                 dataChannel := Some 0; pendingIceCandidates := [] |}
              pc_failed (fst (run any_candidate bob_open initial))
              eq_refl (or_introl eq_refl))
    as (Hout & Hgone & _).
  split; [exact Hout | exact Hgone].
Defined.

Lemma cleanup_closes_everything_witness :
  let st := fst (run any_candidate bob_open initial) in
  In (CloseChannel 0) (snd (step any_candidate Unmount st))
  /\ In (ClosePeer 0) (snd (step any_candidate Unmount st))
  /\ peerConnectionsRef (fst (step any_candidate Unmount st)) = JSMap.empty.
Proof.
  destruct (cleanup_closes_everything any_candidate
              (fst (run any_candidate bob_open initial)) eq_refl)
    as (Hpeer & Hchannel & _ & _ & Hempty & _).
  split; [| split; [| exact Hempty]].
  - apply (Hchannel "bob" 0 0); [left; reflexivity | reflexivity].
  - apply (Hpeer "bob" 0). left. reflexivity.
Defined.

Lemma channel_lifecycle_witness :
  let st := fst (run any_candidate stray_candidate initial) in
  let st1 := fst (step any_candidate (OnDataChannel 0 ch_connecting) st) in
  let st2 := fst (step any_candidate (ChannelOpen 0) st1) in
  In "bob" (connections st2) /\ status st2 = connected.
Proof.
  destruct (channel_lifecycle any_candidate "bob" 0
              {| remotePeerId := "bob"; isInitiator := false;
                 remoteDescription := Some (sdp "offer"); localDescription := None;
                 dataChannel := None; pendingIceCandidates := [] |}
              ch_connecting (fst (run any_candidate stray_candidate initial))
              eq_refl eq_refl eq_refl)
    as (_ & _ & Hin & Hstatus & _).
  split; [exact Hin | exact Hstatus].
Defined.

Lemma photo_has_a_name : name photo_png <> "".
Proof. discriminate. Defined.

Lemma file_round_trip_witness :
  snd (run any_candidate [CallSendFileToPeer photo_png "bob"; Settle 2 (Resolved None)]
         (fst (run any_candidate bob_open initial)))
  = [ChannelSend 0 (DString (Some (file_metadata photo_png)));
     ChannelSend 0 (DArrayBuffer (bytes photo_png))]
  /\ snd (handleIncomingData (DBlob (bytes photo_png)) "alice" 1700000000000 0
            (fst (handleIncomingData (DString (Some (file_metadata photo_png))) "alice"
                    0 0 (Relay.joined "bob"))))
     = [DownloadFile (bytes photo_png) (JStr "photo.png")].
Proof.
  destruct (file_round_trip any_candidate photo_png "bob" "alice" 0 0 None
              (DBlob (bytes photo_png)) 0 0 1700000000000 0
              (fst (run any_candidate bob_open initial)) (Relay.joined "bob")
              eq_refl eq_refl eq_refl photo_has_a_name eq_refl)
    as (Hsent & _ & Hsaved & _).
  split; [exact Hsent | exact Hsaved].
Defined.

Lemma unsent_bytes_when_channel_closes_witness :
  snd (run any_candidate
         [CallSendFileToPeer photo_png "bob"; ChannelClose 0; Settle 2 (Resolved None)]
         (fst (run any_candidate bob_open initial)))
  = [ChannelSend 0 (DString (Some (file_metadata photo_png)))].
Proof.
  destruct (unsent_bytes_when_channel_closes any_candidate photo_png "bob" 0 0 None
              (fst (run any_candidate bob_open initial)) eq_refl eq_refl eq_refl)
    as (H & _).
  exact H.
Defined.

Lemma bob_is_reachable : openConnections (fst (run any_candidate bob_open initial)) <> [].
Proof. discriminate. Defined.

Lemma sendFile_fanout_witness :
  sendFile photo_png (fst (run any_candidate bob_open initial))
  = (true,
     snd (fst (sendFile photo_png (fst (run any_candidate bob_open initial)))),
     [ChannelSend 0 (DString (Some (file_metadata photo_png)))]).
Proof.
  destruct (sendFile_fanout photo_png (fst (run any_candidate bob_open initial))
              bob_is_reachable) as (Htrue & Hout & _).
  destruct (sendFile photo_png (fst (run any_candidate bob_open initial)))
    as [[result st'] out].
  cbn [fst snd] in *. subst result out. reflexivity.
Defined.

Lemma description_is_never_lost_witness :
  let st := fst (run any_candidate [ChannelOpen 0; WsClose; ChannelClose 0]
                   (fst (run any_candidate negotiated initial))) in
  has_remoteDescription st 0 = true
  /\ step any_candidate (WsMessage (Some (SigIceCandidate "bob" (candidate "c3")))) st
     = (st, [AddIceCandidate 0 (candidate "c3") false]).
Proof.
  destruct (description_is_never_lost any_candidate [ChannelOpen 0; WsClose; ChannelClose 0]
              (fst (run any_candidate negotiated initial)) 0 eq_refl)
    as (Hkept & _ & Hnow).
  split; [exact Hkept |].
  apply Hnow; reflexivity.
Defined.

End WebRTCMoreScenarios.
